(** * Sim_data: the simulation data container of gnss-ins-sim

    A shallow embedding of [gnss_ins_sim/sim/sim_data.py]: the unit
    conversion functions, the [Sim_data] class (construction, [add_data],
    [save_to_file], [plot]) and the three drawing helpers.

    Modelling choices, all taken from the source:
    - a Python float and a numpy float64 are IEEE binary64 numbers: Rocq's
      primitive [float], whose operations are the IEEE ones;
    - numpy arrays and dicts are mutable objects: they live in a heap and
      values hold references to them, so that aliasing (a shallow
      [dict.copy], an in-place column assignment) is visible;
    - the arrays are arrays of float64 that own their elements, as the
      simulation makes them: an array of another element type (into which
      the column assignment of line 368 would cast the products) and an
      array that is a view of another one, sharing its memory, are outside
      the model, and the theorems about arrays are about these arrays;
    - exceptions are values of [exn]; a computation is a function from the
      world (heap and the trace of calls made to [numpy.savetxt] and to
      matplotlib) to a new world and either an exception or a result;
    - [numpy.savetxt] and the matplotlib calls are collaborators outside
      the repository: a call is recorded in the trace with a snapshot of its
      arguments.  [numpy.savetxt] raises ValueError for data that is not
      an array of one or two dimensions, and is taken to return otherwise;
      the matplotlib calls are taken to return;
    - [print] calls are not recorded. *)

From Stdlib Require Import ZArith List String Ascii Bool Lia DecimalString.
From Stdlib Require Import Floats.
From stdpp Require Import base option list.
Import ListNotations.

Local Open Scope Z_scope.
Local Open Scope list_scope.

(** ** Numbers *)

Module Num.

(** [math.pi], the binary64 number nearest to pi. *)
Definition math_pi : float := 0x1.921fb54442d18p+1%float.

(** [D2R = math.pi/180] (line 17). *)
Definition D2R : float := (math_pi / 180)%float.

(** Modelled from the spec: [attitude.TWO_PI] is defined in the attitude
    module, which is not part of the sources at hand; the spec calls the
    wrap a reduction modulo 2 pi, so the constant is [2 * math.pi]. *)
Definition TWO_PI : float := (2 * math_pi)%float.

Definition is_zero (f : float) : bool := (f =? 0)%float.

(** Conversion of a Python int to binary64 (round to nearest even).  An
    int too large for a double makes Python raise [OverflowError]: [None]. *)
Definition of_int (z : Z) : option float :=
  let f := SF2Prim (binary_normalize prec emax z 0 false) in
  if is_infinity f then None else Some f.

(** C [fmod]: the exact remainder of the truncated division, with the sign
    of the dividend.  Both operands are integer multiples of [2^e] for
    [e] the smaller exponent, so the remainder is computed on integers. *)
Definition SFfmod (x y : spec_float) : spec_float :=
  match x, y with
  | S754_nan, _ | _, S754_nan => S754_nan
  | S754_infinity _, _ => S754_nan
  | _, S754_zero _ => S754_nan
  | S754_zero s, _ => S754_zero s
  | S754_finite _ _ _, S754_infinity _ => x
  | S754_finite sx mx ex, S754_finite _ my ey =>
      let e := Z.min ex ey in
      let X := Z.pos mx * 2 ^ (ex - e) in
      let Y := Z.pos my * 2 ^ (ey - e) in
      match X mod Y with
      | Z0 => S754_zero sx
      | r => binary_normalize prec emax (cond_Zopp sx r) e sx
      end
  end.

Definition fmod (x y : float) : float :=
  SF2Prim (SFfmod (Prim2SF x) (Prim2SF y)).

(** numpy's [remainder] on float64 ([npy_divmod]): [fmod], then the
    result is moved to the sign of the divisor.  A zero divisor gives the
    NaN of [fmod].  Python's own [float % float] computes the same value
    for a non-zero divisor. *)
Definition remainder (a b : float) : float :=
  let m := fmod a b in
  if is_zero b then m
  else if negb (is_zero m) then
    if xorb (b <? 0)%float (m <? 0)%float then (m + b)%float else m
  else if (b <? 0)%float then (-0)%float else 0%float.

End Num.

Export Num.

(** ** Strings *)

Module Str.

Local Open Scope string_scope.

(** [str(i)] for a Python int. *)
Definition str_int (z : Z) : string := NilZero.string_of_int (Z.to_int z).

Definition lower_ascii (c : ascii) : ascii :=
  let n := nat_of_ascii c in
  if (65 <=? n)%nat && (n <=? 90)%nat then ascii_of_nat (n + 32) else c.

(** [s.lower()], for ASCII text. *)
Fixpoint lower (s : string) : string :=
  match s with
  | EmptyString => EmptyString
  | String c r => String (lower_ascii c) (lower r)
  end.

(** [s[0:-1]]: all but the last character; empty stays empty. *)
Fixpoint drop_last (s : string) : string :=
  match s with
  | EmptyString => EmptyString
  | String c EmptyString => EmptyString
  | String c r => String c (drop_last r)
  end.

Fixpoint contains (c : ascii) (s : string) : bool :=
  match s with
  | EmptyString => false
  | String d r => Ascii.eqb c d || contains c r
  end.

Definition squote : ascii := ascii_of_nat 39.
Definition dquote : ascii := ascii_of_nat 34.
Definition backslash : ascii := ascii_of_nat 92.

Definition hex_digit (n : nat) : ascii :=
  if (n <? 10)%nat then ascii_of_nat (48 + n) else ascii_of_nat (87 + n).

(** [repr] of a str, for ASCII text: the quote is the single quote unless
    the text has a single quote and no double quote; the quote, the
    backslash and the control characters are escaped. *)
Definition repr_char (q : ascii) (c : ascii) : string :=
  let n := nat_of_ascii c in
  if Ascii.eqb c backslash then String backslash (String backslash EmptyString)
  else if Ascii.eqb c q then String backslash (String q EmptyString)
  else if (n =? 10)%nat then String backslash "n"
  else if (n =? 13)%nat then String backslash "r"
  else if (n =? 9)%nat then String backslash "t"
  else if (n <? 32)%nat || (n =? 127)%nat then
    String backslash (String "x" (String (hex_digit (n / 16)) (String (hex_digit (n mod 16)) EmptyString)))
  else String c EmptyString.

Fixpoint repr_body (q : ascii) (s : string) : string :=
  match s with
  | EmptyString => EmptyString
  | String c r => repr_char q c ++ repr_body q r
  end.

Definition repr_str (s : string) : string :=
  let q := if contains squote s && negb (contains dquote s) then dquote else squote in
  String q (repr_body q s ++ String q EmptyString).

Fixpoint join (sep : string) (l : list string) : string :=
  match l with
  | [] => EmptyString
  | [s] => s
  | s :: r => s ++ sep ++ join sep r
  end.

(** [str(l)] for a list of str. *)
Definition str_list (l : list string) : string :=
  "[" ++ join ", " (map repr_str l) ++ "]".

(** [l1 == l2] on lists of str. *)
Fixpoint list_eqb (l1 l2 : list string) : bool :=
  match l1, l2 with
  | [], [] => true
  | a :: r1, b :: r2 => String.eqb a b && list_eqb r1 r2
  | _, _ => false
  end.

End Str.

Export Str.

(** ** Values, objects and the world *)

(** A dict key: an int or a str. *)
Inductive key :=
| KInt (z : Z)
| KStr (s : string).

Definition key_eqb (k1 k2 : key) : bool :=
  match k1, k2 with
  | KInt a, KInt b => Z.eqb a b
  | KStr a, KStr b => String.eqb a b
  | _, _ => false
  end.

(** [str(k)] *)
Definition str_key (k : key) : string :=
  match k with
  | KInt z => str_int z
  | KStr s => s
  end.

(** Python values: [None], an int, a float, a numpy float64 scalar (a
    subclass of float that also has [copy], [ndim] and [shape]), a str, or
    a reference to a heap object. *)
Inductive value :=
| VNone
| VInt (z : Z)
| VFloat (f : float)
| VNpFloat (f : float)
| VStr (s : string)
| VRef (a : nat).

(** Heap objects: a numpy array of float64 (its shape and its elements in
    row-major order) or a dict (its items in insertion order).  An array
    owns its elements: no two objects of the heap share memory. *)
Inductive hobj :=
| ONdarray (shape : list nat) (buf : list float)
| ODict (items : list (key * value)).

(** The exceptions of Python that the code can raise, and [BadReference]
    for a reference to no object of the heap, which no Python program
    holds: it keeps the model total. *)
Inductive exn :=
| ValueError (msg : string)
| AttributeError
| TypeError
| IndexError
| KeyError
| OverflowError
| BadReference.

(** What a collaborator receives for an argument: the value, or the object
    it refers to as it is at the time of the call. *)
Inductive snapshot :=
| SVal (v : value)
| SObj (o : hobj)
| SColumn (col : list float)
| SRange (n : nat).

Inductive axis_fn := Plot | Loglog | Semilogx | Semilogy.

(** Calls made to [numpy.savetxt] and to matplotlib. *)
Inductive event :=
| Savetxt (file_name : string) (X : snapshot) (header delimiter comments : string)
| Figure (title : string)
| AddSubplot (pos : Z) (projection3d : bool) (aspect_equal : bool)
| AxisPlot (fn : axis_fn) (x y : snapshot) (extra_opt : string)
| AxisPlot3 (x y z : snapshot) (extra_opt : string)
| SetLabel (axis : string) (text : string)
| Legend (n_lines : nat) (labels : list string)
| Grid (on : bool).

Record world := World { heap : list hobj; trace : list event }.

Definition set_heap (h : list hobj) (w : world) : world := World h (trace w).

(** ** The monad of computations *)

Definition M (A : Type) : Type := world -> world * (exn + A).

Definition ret {A} (a : A) : M A := fun w => (w, inr a).

Definition raise {A} (e : exn) : M A := fun w => (w, inl e).

Definition bind {A B} (m : M A) (k : A -> M B) : M B :=
  fun w =>
    match m w with
    | (w', inl e) => (w', inl e)
    | (w', inr a) => k a w'
    end.

Declare Scope mon_scope.
Delimit Scope mon_scope with mon.
Notation "x <- m ;; k" := (bind m (fun x => k))
  (at level 100, m at next level, right associativity) : mon_scope.
Notation "m ;;; k" := (bind m (fun _ => k))
  (at level 100, right associativity) : mon_scope.
Local Open Scope mon_scope.

(** [try: m except: h]: a bare [except] catches every exception. *)
Definition try_except {A} (m : M A) (h : M A) : M A :=
  fun w =>
    match m w with
    | (w', inl _) => h w'
    | r => r
    end.

Definition lift {A} (r : exn + A) : M A :=
  match r with
  | inl e => raise e
  | inr a => ret a
  end.

Definition of_option {A} (e : exn) (o : option A) : M A :=
  match o with
  | Some a => ret a
  | None => raise e
  end.

(** [for a in l: body a] *)
Fixpoint for_each {A} (l : list A) (body : A -> M unit) : M unit :=
  match l with
  | [] => ret tt
  | a :: r => body a ;;; for_each r body
  end.

Definition emit (e : event) : M unit :=
  fun w => (World (heap w) (trace w ++ [e]), inr tt).

Definition alloc (o : hobj) : M value :=
  fun w => (set_heap (heap w ++ [o]) w, inr (VRef (length (heap w)))).

Definition deref (a : nat) : M hobj :=
  fun w => match heap w !! a with
           | Some o => (w, inr o)
           | None => (w, inl BadReference)
           end.

Definition store (a : nat) (o : hobj) : M unit :=
  fun w => (set_heap (<[a := o]> (heap w)) w, inr tt).

(** ** Dicts *)

Fixpoint dict_get (items : list (key * value)) (k : key) : option value :=
  match items with
  | [] => None
  | (k', v) :: r => if key_eqb k' k then Some v else dict_get r k
  end.

(** [d[k] = v]: an existing key keeps its place, a new one goes last. *)
Fixpoint dict_set (items : list (key * value)) (k : key) (v : value) : list (key * value) :=
  match items with
  | [] => [(k, v)]
  | (k', v') :: r => if key_eqb k' k then (k', v) :: r else (k', v') :: dict_set r k v
  end.

(** [isinstance(v, dict)] *)
Definition is_dict (v : value) (w : world) : bool :=
  match v with
  | VRef a => match heap w !! a with Some (ODict _) => true | _ => false end
  | _ => false
  end.

(** [isinstance(v, np.ndarray)] *)
Definition is_ndarray (v : value) (w : world) : bool :=
  match v with
  | VRef a => match heap w !! a with Some (ONdarray _ _) => true | _ => false end
  | _ => false
  end.

(** The items of the dict [v] refers to. *)
Definition dict_items (v : value) : M (list (key * value)) :=
  match v with
  | VRef a => o <- deref a ;;
              match o with
              | ODict items => ret items
              | _ => raise TypeError
              end
  | _ => raise TypeError
  end.

(** [d[k]] *)
Definition dict_getitem (d : value) (k : key) : M value :=
  items <- dict_items d ;; of_option KeyError (dict_get items k).

(** [d[k] = v] *)
Definition dict_setitem (d : value) (k : key) (v : value) : M unit :=
  match d with
  | VRef a => items <- dict_items d ;; store a (ODict (dict_set items k v))
  | _ => raise TypeError
  end.

(** The argument of a collaborator call, as it is now. *)
Definition snap (v : value) : M snapshot :=
  fun w => match v with
           | VRef a => match heap w !! a with
                       | Some o => (w, inr (SObj o))
                       | None => (w, inl BadReference)
                       end
           | _ => (w, inr (SVal v))
           end.

Definition isinstance_dict (v : value) : M bool := fun w => (w, inr (is_dict v w)).
Definition isinstance_ndarray (v : value) : M bool := fun w => (w, inr (is_ndarray v w)).

(** ** numpy attributes *)

(** [v.shape]: arrays and numpy scalars have one. *)
Definition get_shape (v : value) : M (list nat) :=
  match v with
  | VRef a => o <- deref a ;;
              match o with
              | ONdarray shape _ => ret shape
              | ODict _ => raise AttributeError
              end
  | VNpFloat _ => ret []
  | _ => raise AttributeError
  end.

(** [v.ndim] *)
Definition get_ndim (v : value) : M nat :=
  shape <- get_shape v ;; ret (length shape).

(** [v.shape[i]] *)
Definition get_shape_at (v : value) (i : nat) : M nat :=
  shape <- get_shape v ;; of_option IndexError (shape !! i).

(** [v.copy()]: a new array with the same elements, a new dict with the
    same items (the values are shared), a numpy scalar; other values have
    no [copy]. *)
Definition copy (v : value) : M value :=
  match v with
  | VRef a => o <- deref a ;; alloc o
  | VNpFloat f => ret (VNpFloat f)
  | _ => raise AttributeError
  end.

(** ** Unit conversion (lines 310-376) *)

Module Units.

Local Open Scope string_scope.

(** The table of lines 339-347: the scale for one column, [None] where
    the zero of [np.zeros] is left in place. *)
Definition scale_entry (src dst : string) : option float :=
  if String.eqb src "deg" && String.eqb dst "rad" then Some D2R
  else if String.eqb src "deg/s" && String.eqb dst "rad/s" then Some D2R
  else if String.eqb src "rad" && String.eqb dst "deg" then Some (1.0 / D2R)%float
  else if String.eqb src "rad/s" && String.eqb dst "deg/s" then Some (1.0 / D2R)%float
  else None.

(** The loop of lines 337-349 over the indices [idx]. *)
Fixpoint scale_loop (src_unit dst_unit : list string) (idx : list nat)
    (scale : list float) : exn + list float :=
  match idx with
  | [] => inr scale
  | i :: rest =>
      match src_unit !! i, dst_unit !! i with
      | Some s, Some d =>
          scale_loop src_unit dst_unit rest
            match scale_entry s d with
            | Some c => <[i := c]> scale
            | None => scale
            end
      | _, _ => inl IndexError
      end
  end.

Definition unit_conversion_scale (src_unit dst_unit : list string) : exn + list float :=
  let m := length dst_unit in
  scale_loop src_unit dst_unit (seq 0 m) (replicate m 0%float).

(** [x[:, i] = x[:, i] * s] on the elements of an array with [cols]
    columns: the products are float64, as the elements of the array are,
    and are stored as they are. *)
Definition scale_column (cols i : nat) (s : float) (buf : list float) : list float :=
  imap (fun j v => if (j mod cols =? i)%nat then (v * s)%float else v) buf.

(** Lines 366-368: the loop over the columns, on the elements. *)
Fixpoint scale_columns (cols : nat) (scale : list float) (idx : list nat)
    (buf : list float) : list float :=
  match idx with
  | [] => buf
  | i :: rest =>
      match scale !! i with
      | Some s =>
          scale_columns cols scale rest
            (if negb (is_zero s) then scale_column cols i s buf else buf)
      | None => buf
      end
  end.

(** [x * scale[0]] for a scalar [x]: the product with a numpy float64 is
    a numpy float64.  An int is converted to float64 first; one too large
    for that makes the product fail. *)
Definition scalar_times (x : value) (s : float) : M value :=
  match x with
  | VInt z => f <- of_option OverflowError (of_int z) ;; ret (VNpFloat (f * s)%float)
  | VFloat f => ret (VNpFloat (f * s)%float)
  | VNpFloat f => ret (VNpFloat (f * s)%float)
  | _ => raise TypeError
  end.

Definition convert_unit_ndarray_scalar (x : value) (scale : list float) : M value :=
  let m := length scale in
  match x with
  | VRef a =>
      o <- deref a ;;
      match o with
      | ONdarray shape buf =>
          match shape with
          | [_; cols] =>
              store a (ONdarray shape (scale_columns cols scale (seq 0 (Nat.min m cols)) buf)) ;;;
              ret x
          | [_] =>
              s <- of_option IndexError (scale !! 0%nat) ;;
              if negb (is_zero s) then alloc (ONdarray shape (map (fun v => v * s)%float buf))
              else ret x
          | _ => ret x
          end
      | ODict _ =>
          nd <- get_ndim x ;;
          raise (ValueError ("Input x should be a scalar, 1D or 2D array, ndim = " ++ str_int (Z.of_nat nd)))
      end
  | VInt _ | VFloat _ | VNpFloat _ =>
      s <- of_option IndexError (scale !! 0%nat) ;;
      scalar_times x s
  | _ =>
      nd <- get_ndim x ;;
      raise (ValueError ("Input x should be a scalar, 1D or 2D array, ndim = " ++ str_int (Z.of_nat nd)))
  end.

(** Lines 325-326: [for i in x: x[i] = convert_unit_ndarray_scalar(x[i], scale)] *)
Definition convert_unit_dict (x : value) (scale : list float) : M unit :=
  items <- dict_items x ;;
  for_each (map fst items) (fun i =>
    v <- dict_getitem x i ;;
    v' <- convert_unit_ndarray_scalar v scale ;;
    dict_setitem x i v').

Definition convert_unit (data : value) (src_unit dst_unit : list string) : M value :=
  scale <- lift (unit_conversion_scale src_unit dst_unit) ;;
  x <- copy data ;;
  isd <- isinstance_dict x ;;
  if isd then convert_unit_dict x scale ;;; ret x
  else convert_unit_ndarray_scalar x scale.

End Units.

Export Units.

(** ** The class [Sim_data] (lines 19-308) *)

Record Sim_data := {
  name : string;
  description : string;
  units : list string;
  output_units : list string;
  plottable : bool;
  logx : bool;
  logy : bool;
  grid : string;
  legend : option (list string);
  data : value
}.

Definition set_data (self : Sim_data) (d : value) : Sim_data :=
  {| name := name self; description := description self; units := units self;
     output_units := output_units self; plottable := plottable self;
     logx := logx self; logy := logy self; grid := grid self;
     legend := legend self; data := d |}.

Module Init.

Local Open Scope string_scope.

(** [for i in idx: dst.append(src[i])] (lines 64-65 and 67-68). *)
Fixpoint append_from (src : list string) (idx : list nat) (dst : list string)
    : exn + list string :=
  match idx with
  | [] => inr dst
  | i :: rest =>
      match src !! i with
      | Some u => append_from src rest (dst ++ [u])
      | None => inl IndexError
      end
  end.

(** Lines 52-68: the two unit lists of the new object. *)
Definition init_units (units output_units : option (list string))
    : exn + (list string * list string) :=
  let self_units := match units with None => [] | Some u => u end in
  match output_units with
  | None => inr (self_units, self_units)
  | Some o =>
      let len_in := length self_units in
      let len_out := length o in
      if (len_out <? len_in)%nat then
        match append_from self_units (seq len_out (len_in - len_out)) o with
        | inr o' => inr (self_units, o')
        | inl e => inl e
        end
      else if (len_in <? len_out)%nat then
        match append_from o (seq len_in (len_out - len_in)) self_units with
        | inr u' => inr (u', o)
        | inl e => inl e
        end
      else inr (self_units, o)
  end.

(** [Sim_data.__init__] *)
Definition init (name description : string) (units output_units : option (list string))
    (plottable logx logy : bool) (grid : string) (legend : option (list string))
    : M Sim_data :=
  uo <- lift (init_units units output_units) ;;
  d <- alloc (ODict []) ;;
  ret {| name := name; description := description;
         units := fst uo; output_units := snd uo;
         plottable := plottable; logx := logx; logy := logy;
         grid := if String.eqb (lower grid) "off" then grid else "on";
         legend := legend; data := d |}.

End Init.

Export Init.

Module AddData.

Local Open Scope string_scope.

(** Lines 105-114: the data to store, converted to the units of the
    object when the caller names other units. *)
Definition add_data_units (self : Sim_data) (data : value)
    (caller_units : option (list string)) : M value :=
  match caller_units with
  | Some u =>
      if (length u =? length (units self))%nat then
        if negb (list_eqb u (units self))
        then convert_unit data u (units self)
        else ret data
      else raise (ValueError "Units are of different lengths.")
  | None => ret data
  end.

(** Lines 116-121: the store. *)
Definition add_data_store (self : Sim_data) (d : value) (key : option key)
    : M Sim_data :=
  match key with
  | None => ret (set_data self d)
  | Some k =>
      isd <- isinstance_dict (data self) ;;
      payload <- (if isd then ret (data self) else alloc (ODict [])) ;;
      dict_setitem payload k d ;;;
      ret (set_data self payload)
  end.

Definition add_data (self : Sim_data) (d : value) (key : option key)
    (caller_units : option (list string)) : M Sim_data :=
  d' <- add_data_units self d caller_units ;;
  add_data_store self d' key.

End AddData.

Export AddData.

Module Export_.

Local Open Scope string_scope.

(** [v.shape[1]] when [v.ndim > 1], else 0 (lines 134-135, 138-139). *)
Definition columns_of (v : value) : M nat :=
  nd <- get_ndim v ;;
  if (1 <? nd)%nat then get_shape_at v 1 else ret 0%nat.

(** Lines 131-139. *)
Definition count_cols (self : Sim_data) : M nat :=
  isd <- isinstance_dict (data self) ;;
  if isd then
    items <- dict_items (data self) ;;
    match items with
    | [] => ret 0%nat
    | (i, _) :: _ => v <- dict_getitem (data self) i ;; columns_of v
    end
  else
    isarr <- isinstance_ndarray (data self) ;;
    if isarr then columns_of (data self) else ret 0%nat.

(** [' (' + self.output_units[i] + ')'] when there is such a unit. *)
Definition str_unit (self : Sim_data) (i : nat) : string :=
  match output_units self !! i with
  | Some u => " (" ++ u ++ ")"
  | None => EmptyString
  end.

(** One step of the loop of lines 143-152. *)
Definition header_column (self : Sim_data) (cols : nat) (header_line : string) (i : nat)
    : exn + string :=
  match legend self with
  | Some l =>
      if (cols =? length l)%nat then
        match l !! i with
        | Some li => inr (header_line ++ li ++ str_unit self i ++ ",")
        | None => inl IndexError
        end
      else inr (header_line ++ name self ++ "_" ++ str_int (Z.of_nat i) ++ str_unit self i ++ ",")
  | None => inr (header_line ++ name self ++ "_" ++ str_int (Z.of_nat i) ++ str_unit self i ++ ",")
  end.

Fixpoint header_loop (self : Sim_data) (cols : nat) (idx : list nat) (header_line : string)
    : exn + string :=
  match idx with
  | [] => inr header_line
  | i :: rest =>
      match header_column self cols header_line i with
      | inr h => header_loop self cols rest h
      | inl e => inl e
      end
  end.

(** Lines 141-159. *)
Definition header (self : Sim_data) (cols : nat) : exn + string :=
  if (0 <? cols)%nat then
    match header_loop self cols (seq 0 cols) EmptyString with
    | inr h => inr (drop_last h)
    | inl e => inl e
    end
  else inr (name self ++ str_unit self 0).

(** The number of dimensions numpy finds in the value handed to
    [np.savetxt]: those of an array, none for a scalar. *)
Definition snapshot_ndim (X : snapshot) : nat :=
  match X with
  | SObj (ONdarray shape _) => length shape
  | SColumn _ | SRange _ => 1%nat
  | SObj (ODict _) | SVal _ => 0%nat
  end.

(** [np.savetxt(file_name, X, header=..., delimiter=..., comments=...)],
    a function of numpy: the call is recorded; as numpy does, it raises
    ValueError for a value that is not an array of one or two dimensions
    (a numpy scalar among them); otherwise it is taken to return. *)
Definition savetxt (file_name : string) (X : snapshot) (header delimiter comments : string)
    : M unit :=
  emit (Savetxt file_name X header delimiter comments) ;;;
  if (snapshot_ndim X =? 1)%nat || (snapshot_ndim X =? 2)%nat then ret tt
  else raise (ValueError ("Expected 1D or 2D array, got "
                          ++ str_int (Z.of_nat (snapshot_ndim X)) ++ "D array instead")).

(** [np.savetxt(file_name, convert_unit(v, ...), header=..., delimiter=',', comments='')] *)
Definition savetxt_converted (self : Sim_data) (file_name : string) (v : value)
    (header_line : string) : M unit :=
  y <- convert_unit v (units self) (output_units self) ;;
  X <- snap y ;;
  savetxt file_name X header_line "," EmptyString.

Definition save_to_file (self : Sim_data) (data_dir : string) : M unit :=
  cols <- count_cols self ;;
  header_line <- lift (header self cols) ;;
  isd <- isinstance_dict (data self) ;;
  if isd then
    items <- dict_items (data self) ;;
    for_each (map fst items) (fun i =>
      let file_name := data_dir ++ "//" ++ name self ++ "-" ++ str_key i ++ ".csv" in
      v <- dict_getitem (data self) i ;;
      savetxt_converted self file_name v header_line)
  else
    let file_name := data_dir ++ "//" ++ name self ++ ".csv" in
    savetxt_converted self file_name (data self) header_line.

End Export_.

Export Export_.

(** ** numpy arithmetic used by the plots (lines 219-223, 276-280) *)

Module Np.

(** Broadcasting, on shapes written last dimension first. *)
Fixpoint broadcast_rev (s1 s2 : list nat) : option (list nat) :=
  match s1, s2 with
  | [], s | s, [] => Some s
  | d1 :: r1, d2 :: r2 =>
      match broadcast_rev r1 r2 with
      | Some r =>
          if (d1 =? d2)%nat then Some (d1 :: r)
          else if (d1 =? 1)%nat then Some (d2 :: r)
          else if (d2 =? 1)%nat then Some (d1 :: r)
          else None
      | None => None
      end
  end.

(** The index along each dimension (last first) of the element at the
    row-major position [j]. *)
Fixpoint unravel_rev (shape_rev : list nat) (j : nat) : list nat :=
  match shape_rev with
  | [] => []
  | d :: r => (j mod d)%nat :: unravel_rev r (j / d)%nat
  end.

(** The row-major position, in an operand of the given shape, of the
    element that is broadcast to the index [idx_rev]. *)
Fixpoint offset_rev (shape_rev idx_rev : list nat) : nat :=
  match shape_rev, idx_rev with
  | d :: r, i :: ir => ((if (d =? 1)%nat then 0 else i) + d * offset_rev r ir)%nat
  | _, _ => 0%nat
  end.

Definition size (shape : list nat) : nat := fold_right Nat.mul 1%nat shape.

(** An elementwise binary operation on two arrays; [None] when the shapes
    cannot be broadcast together. *)
Definition broadcast2 (f : float -> float -> float)
    (s1 : list nat) (b1 : list float) (s2 : list nat) (b2 : list float)
    : option (list nat * list float) :=
  match broadcast_rev (rev s1) (rev s2) with
  | Some out_rev =>
      Some (rev out_rev,
            map (fun j =>
                   let idx := unravel_rev out_rev j in
                   f (nth (offset_rev (rev s1) idx) b1 nan)
                     (nth (offset_rev (rev s2) idx) b2 nan))
                (seq 0 (size out_rev)))
  | None => None
  end.

(** The operands of an arithmetic operator. *)
Inductive operand :=
| OpInt (z : Z)
| OpFloat (f : float)
| OpNp (f : float)
| OpArr (shape : list nat) (buf : list float)
| OpOther.

Definition operand_of (v : value) : M operand :=
  match v with
  | VInt z => ret (OpInt z)
  | VFloat f => ret (OpFloat f)
  | VNpFloat f => ret (OpNp f)
  | VRef a => o <- deref a ;;
              match o with
              | ONdarray shape buf => ret (OpArr shape buf)
              | ODict _ => ret OpOther
              end
  | VNone | VStr _ => ret OpOther
  end.

Definition float_of_int (z : Z) : M float := of_option OverflowError (of_int z).

(** The result of a numpy operation: an array, or a numpy scalar when
    the result has no dimension. *)
Definition np_result (shape : list nat) (buf : list float) : M value :=
  match shape, buf with
  | [], [f] => ret (VNpFloat f)
  | _, _ => alloc (ONdarray shape buf)
  end.

(** An array and a scalar operand as the array numpy makes of it. *)
Definition as_array (o : operand) : M (list nat * list float) :=
  match o with
  | OpInt z => f <- float_of_int z ;; ret ([], [f])
  | OpFloat f | OpNp f => ret ([], [f])
  | OpArr shape buf => ret (shape, buf)
  | OpOther => raise TypeError
  end.

(** [a - b] *)
Definition sub (a b : value) : M value :=
  oa <- operand_of a ;;
  ob <- operand_of b ;;
  match oa, ob with
  | OpOther, _ | _, OpOther => raise TypeError
  | OpInt x, OpInt y => ret (VInt (x - y))
  | OpInt x, OpFloat g => f <- float_of_int x ;; ret (VFloat (f - g)%float)
  | OpFloat f, OpInt y => g <- float_of_int y ;; ret (VFloat (f - g)%float)
  | OpFloat f, OpFloat g => ret (VFloat (f - g)%float)
  | _, _ =>
      xa <- as_array oa ;;
      xb <- as_array ob ;;
      match broadcast2 PrimFloat.sub (fst xa) (snd xa) (fst xb) (snd xb) with
      | Some r => np_result (fst r) (snd r)
      | None => raise (ValueError "operands could not be broadcast together")
      end
  end.

(** [a % m] for a float [m] *)
Definition mod_float (a : value) (m : float) : M value :=
  oa <- operand_of a ;;
  match oa with
  | OpInt x => f <- float_of_int x ;; ret (VFloat (remainder f m))
  | OpFloat f => ret (VFloat (remainder f m))
  | OpNp f => ret (VNpFloat (remainder f m))
  | OpArr shape buf => np_result shape (map (fun v => remainder v m) buf)
  | OpOther => raise TypeError
  end.

(** [idx = y > lim; y[idx] = y[idx] - d]: the elements above [lim] are
    reduced by [d], in place.  A scalar cannot be assigned through an
    index. *)
Definition reduce_above (y : value) (lim d : float) : M unit :=
  match y with
  | VRef a =>
      o <- deref a ;;
      match o with
      | ONdarray shape buf =>
          store a (ONdarray shape (map (fun v => if (lim <? v)%float then (v - d)%float else v) buf))
      | ODict _ => raise TypeError
      end
  | _ => raise TypeError
  end.

(** [y[:, i]] on the elements of an array with [cols] columns. *)
Definition column (cols i : nat) (buf : list float) : list float :=
  omap (fun jv => if (fst jv mod cols =? i)%nat then Some (snd jv) else None)
       (imap (fun j v => (j, v)) buf).

Definition get_column (y : value) (i : nat) : M snapshot :=
  match y with
  | VRef a =>
      o <- deref a ;;
      match o with
      | ONdarray [_; cols] buf => ret (SColumn (column cols i buf))
      | _ => raise IndexError
      end
  | _ => raise IndexError
  end.

End Np.

(** ** The drawing helpers (lines 378-531) *)

Module Draw.

Local Open Scope string_scope.

Definition grid_on (grid : string) : bool := negb (String.eqb (lower grid) "off").

Definition xyz (legend : option (list string)) : list string :=
  match legend with
  | Some l => if (length l =? 3)%nat then l else ["x"; "y"; "z"]
  | None => ["x"; "y"; "z"]
  end.

Definition axis_fn_of (logx logy : bool) : axis_fn :=
  if logx && logy then Loglog
  else if logx then Semilogx
  else if logy then Semilogy
  else Plot.

Definition plot_in_one_figure (x y : value) (logx logy : bool) (title : string)
    (xlabel ylabel : option string) (grid : string) (legend : option (list string))
    (extra_opt : string) : M unit :=
  emit (Figure title) ;;;
  emit (AddSubplot 111 false false) ;;;
  xs <- match x with
        | VNone => n <- get_shape_at y 0 ;; ret (SRange n)
        | _ => snap x
        end ;;
  lines <- try_except
    (dim <- get_ndim y ;;
     if (dim =? 1)%nat then
       ys <- snap y ;;
       emit (AxisPlot (axis_fn_of logx logy) xs ys extra_opt) ;;;
       ret 1%nat
     else if (dim =? 2)%nat then
       cols <- get_shape_at y 1 ;;
       for_each (seq 0 cols) (fun i =>
         ys <- Np.get_column y i ;;
         emit (AxisPlot (axis_fn_of logx logy) xs ys extra_opt)) ;;;
       ret cols
     else raise (ValueError EmptyString))
    (match x with VNone => ret [] | _ => get_shape x end ;;;
     get_shape y ;;;
     raise (ValueError "Check input data y.")) ;;
  match xlabel with Some l => emit (SetLabel "x" l) | None => ret tt end ;;;
  match ylabel with Some l => emit (SetLabel "y" l) | None => ret tt end ;;;
  match legend with Some l => emit (Legend lines l) | None => ret tt end ;;;
  if grid_on grid then emit (Grid true) else ret tt.

Definition label_at (labels : list string) (i : nat) : M string :=
  of_option IndexError (labels !! i).

Definition plot3d_in_one_figure (y : value) (title grid : string)
    (legend : option (list string)) (extra_opt : string) : M unit :=
  emit (Figure title) ;;;
  emit (AddSubplot 111 true true) ;;;
  try_except
    (dim <- get_ndim y ;;
     if (dim =? 2)%nat then
       cols <- get_shape_at y 1 ;;
       if negb (cols =? 3)%nat then raise (ValueError EmptyString)
       else
         c0 <- Np.get_column y 0 ;;
         c1 <- Np.get_column y 1 ;;
         c2 <- Np.get_column y 2 ;;
         emit (AxisPlot3 c0 c1 c2 extra_opt)
     else raise (ValueError EmptyString))
    (get_shape y ;;; raise (ValueError "Check input data y.")) ;;;
  l0 <- label_at (xyz legend) 0 ;;
  l1 <- label_at (xyz legend) 1 ;;
  l2 <- label_at (xyz legend) 2 ;;
  emit (SetLabel "x" l0) ;;;
  emit (SetLabel "y" l1) ;;;
  emit (SetLabel "z" l2) ;;;
  if grid_on grid then emit (Grid true) else ret tt.

(** One of the three panels of lines 508-526. *)
Definition panel (y : value) (pos : Z) (i j : nat) (labels : list string)
    (show_grid : bool) (extra_opt : string) : M unit :=
  emit (AddSubplot pos false true) ;;;
  ci <- Np.get_column y i ;;
  cj <- Np.get_column y j ;;
  emit (AxisPlot Plot ci cj extra_opt) ;;;
  li <- label_at labels i ;;
  emit (SetLabel "x" li) ;;;
  lj <- label_at labels j ;;
  emit (SetLabel "y" lj) ;;;
  emit (Grid show_grid).

Definition plot3d_proj_in_one_figure (y : value) (title grid : string)
    (legend : option (list string)) (extra_opt : string) : M unit :=
  try_except
    (dim <- get_ndim y ;;
     if (dim =? 2)%nat then
       cols <- get_shape_at y 1 ;;
       if negb (cols =? 3)%nat then raise (ValueError EmptyString)
       else
         emit (Figure title) ;;;
         panel y 131 0 1 (xyz legend) (grid_on grid) extra_opt ;;;
         panel y 132 0 2 (xyz legend) (grid_on grid) extra_opt ;;;
         panel y 133 1 2 (xyz legend) (grid_on grid) extra_opt
     else raise (ValueError EmptyString))
    (get_shape y ;;; raise (ValueError "Check input data y.")).

End Draw.

Export Draw.

(** ** [Sim_data.plot] (lines 173-308) *)

Module Plotting.

Local Open Scope string_scope.

Definition rad3 : list string := ["rad"; "rad"; "rad"].

(** The body of the [try] of lines 218-223 and 275-280.  [handler] is the
    [except] clause, given the value [y_data] is bound to when the
    exception is raised. *)
Definition subtract_ref (self : Sim_data) (y_data ref_data : value)
    (handler : value -> M value) : M value :=
  y1 <- try_except (Np.sub y_data ref_data) (handler y_data) ;;
  if list_eqb (units self) rad3 then
    y2 <- try_except (Np.mod_float y1 TWO_PI) (handler y1) ;;
    try_except (Np.reduce_above y2 math_pi TWO_PI ;;; ret y2) (handler y2)
  else ret y1.

(** Lines 225-227. *)
Definition handler_dict (ref_data y_data : value) : M value :=
  get_shape ref_data ;;;
  get_shape y_data ;;;
  raise (ValueError "Check input data ref and self.data dimension.").

(** Lines 282-284: [ref] is a [Sim_data], which has no [shape]. *)
Definition handler_array (y_data : value) : M value :=
  raise AttributeError.

(** Lines 231-251 and 288-308. *)
Definition dispatch (self x : Sim_data) (x_data y_data : value) (title : string)
    (plot3d : Z) (extra_opt : string) : M unit :=
  if (plot3d =? 1)%Z then
    plot3d_in_one_figure y_data title (grid self) (legend self) extra_opt
  else if (plot3d =? 2)%Z then
    plot3d_proj_in_one_figure y_data title (grid self) (legend self) extra_opt
  else
    u0 <- of_option IndexError (output_units x !! 0%nat) ;;
    plot_in_one_figure x_data y_data (logx self) (logy self) title
      (Some (name x ++ " (" ++ u0 ++ ")"))
      (Some (name self ++ " (" ++ str_list (output_units self) ++ ")"))
      (grid self) (legend self) extra_opt.

(** Lines 205-211: the x axis for the key [i]. *)
Definition x_data_key (x : Sim_data) (i : key) : M value :=
  xd <- isinstance_dict (data x) ;;
  if xd then
    items <- dict_items (data x) ;;
    match items with
    | [] => ret VNone
    | _ => dict_getitem (data x) i
    end
  else ret (data x).

(** Lines 262-271: the x axis for a payload without keys. *)
Definition x_data_any (x : Sim_data) : M value :=
  xd <- isinstance_dict (data x) ;;
  if xd then
    items <- dict_items (data x) ;;
    match items with
    | [] => ret VNone
    | (i, _) :: _ => dict_getitem (data x) i
    end
  else ret (data x).

(** Lines 214-217: the reference for the key [i]. *)
Definition ref_data_key (r : Sim_data) (i : key) : M value :=
  rd <- isinstance_dict (data r) ;;
  if rd then dict_getitem (data r) i else ret (data r).

(** The body of the loop of lines 202-251, for the key [i]. *)
Definition plot_key (self x : Sim_data) (ref : option Sim_data) (plot3d : Z)
    (extra_opt : string) (i : key) : M unit :=
  y_data <- dict_getitem (data self) i ;;
  x_data <- x_data_key x i ;;
  y_data <- match ref with
            | Some r =>
                ref_data <- ref_data_key r i ;;
                subtract_ref self y_data ref_data (handler_dict ref_data)
            | None => ret y_data
            end ;;
  y_data <- convert_unit y_data (units self) (output_units self) ;;
  dispatch self x x_data y_data (name self ++ "_" ++ str_key i) plot3d extra_opt.

Definition __plot_dict (self x : Sim_data) (key : option (list key)) (ref : option Sim_data)
    (plot3d : Z) (extra_opt : string) : M unit :=
  keys <- match key with
          | Some [] => items <- dict_items (data self) ;; ret (map fst items)
          | Some l => ret l
          | None => raise TypeError
          end ;;
  for_each keys (plot_key self x ref plot3d extra_opt).

Definition __plot_array (self x : Sim_data) (ref : option Sim_data)
    (plot3d : Z) (extra_opt : string) : M unit :=
  x_data <- x_data_any x ;;
  y_data <- match ref with
            | Some r => subtract_ref self (data self) (data r) handler_array
            | None => ret (data self)
            end ;;
  y_data <- convert_unit y_data (units self) (output_units self) ;;
  dispatch self x x_data y_data (name self) plot3d extra_opt.

Definition plot (self x : Sim_data) (key : option (list key)) (ref : option Sim_data)
    (plot3d : Z) (extra_opt : string) : M unit :=
  if plottable self then
    isd <- isinstance_dict (data self) ;;
    if isd then __plot_dict self x key ref plot3d extra_opt
    else __plot_array self x ref plot3d extra_opt
  else ret tt.

End Plotting.

Export Plotting.

(** * Definitions for the properties *)

(** The empty world a program starts in. *)
Definition w0 : world := World [] [].

(** ** Worked examples *)

Module Scenario.

Local Open Scope string_scope.

Definition deg_s3 : list string := ["deg/s"; "deg/s"; "deg/s"].
Definition rad_s3 : list string := ["rad/s"; "rad/s"; "rad/s"].

(** A 2x3 array of ones. *)
Definition ones_2x3 : hobj := ONdarray [2; 3]%nat (replicate 6 1%float).

(** Create the gyro data set, write the array with the units of the
    object, export. *)
Definition gyro_export (descr data_dir : string) : M unit :=
  sd <- init "gyro" descr (Some deg_s3) (Some rad_s3) true false false "on" None ;;
  table <- alloc ones_2x3 ;;
  sd <- add_data sd table None (Some deg_s3) ;;
  save_to_file sd data_dir.

End Scenario.

Module PathExample.

Local Open Scope string_scope.

Definition gyro (d : value) : Sim_data :=
  {| name := "gyro"; description := "angular rate";
     units := Scenario.deg_s3; output_units := Scenario.rad_s3;
     plottable := true; logx := false; logy := false; grid := "on";
     legend := None; data := d |}.

Definition bare : world := World [Scenario.ones_2x3] [].

Definition keyed : world :=
  World [Scenario.ones_2x3; ODict [(KInt 0, VRef 0%nat)]] [].

End PathExample.

Module PlotExample.

Local Open Scope string_scope.

Definition series (nm : string) (u o : list string) (d : value) : Sim_data :=
  {| name := nm; description := nm; units := u; output_units := o;
     plottable := true; logx := false; logy := false; grid := "on";
     legend := None; data := d |}.

(** Two attitude samples and their reference, a time axis, and the
    attitude as the one entry of a keyed payload. *)
Definition world_att : world :=
  World [ONdarray [2; 3]%nat [3; 0; 0; 1; 1; 1]%float;
         ONdarray [2; 3]%nat [-3; 0; 0; 0; 2; 4]%float;
         ONdarray [2]%nat [0; 1]%float;
         ODict [(KInt 0, VRef 0%nat)]] [].

Definition time : Sim_data := series "time" ["s"] ["s"] (VRef 2).

End PlotExample.

Module FrameExample.

Local Open Scope string_scope.

(** A 1x1 array, and a dict that holds it. *)
Definition cell : hobj := ONdarray [1; 1]%nat [1%float].
Definition world_cell : world := World [cell; ODict [(KInt 0, VRef 0%nat)]] [].

End FrameExample.

Module WrapExample.

Local Open Scope string_scope.

Definition deg3 : list string := ["deg"; "deg"; "deg"].

(** One attitude sample of 3 rad about the first axis, a reference of
    zeros, and a time axis. *)
Definition world_close : world :=
  World [ONdarray [1; 3]%nat [3; 0; 0]%float;
         ONdarray [1; 3]%nat [0; 0; 0]%float;
         ONdarray [1]%nat [0%float]] [].

(** The attitude is kept in rad and shown in deg. *)
Definition att : Sim_data := PlotExample.series "att" rad3 deg3 (VRef 0).
Definition ref : Sim_data := PlotExample.series "ref" rad3 deg3 (VRef 1).

End WrapExample.

(** ** Observations on the trace *)

Definition saved_file (e : event) : option string :=
  match e with
  | Savetxt file_name _ _ _ _ => Some file_name
  | _ => None
  end.

(** The files written, in order. *)
Definition saved_files (t : list event) : list string := omap saved_file t.

(** The values drawn as y series by the line plots of a trace. *)
Definition snapshot_values (s : snapshot) : list float :=
  match s with
  | SColumn col => col
  | SObj (ONdarray _ buf) => buf
  | SVal (VFloat f) | SVal (VNpFloat f) => [f]
  | _ => []
  end.

Definition line_y_values (t : list event) : list float :=
  concat (map (fun e => match e with
                        | AxisPlot _ _ y _ => snapshot_values y
                        | _ => []
                        end) t).

Module Paths.

Local Open Scope string_scope.

(** The file name of line 163. *)
Definition keyed_path (data_dir nm : string) (k : key) : string :=
  data_dir ++ "//" ++ nm ++ "-" ++ str_key k ++ ".csv".

(** The file name of line 168. *)
Definition bare_path (data_dir nm : string) : string :=
  data_dir ++ "//" ++ nm ++ ".csv".

End Paths.

Export Paths.

(** What a computation added to the trace: all of it calls to the
    serializer, for the files [done], which are the first of [paths], and
    all of [paths] when the computation returns. *)
Definition wrote {A} (m : M A) (w : world) (paths : list string) : Prop :=
  exists evs : list event,
    trace (fst (m w)) = trace w ++ evs
    /\ length (saved_files evs) = length evs
    /\ saved_files evs `prefix_of` paths
    /\ (forall a, snd (m w) = inr a -> saved_files evs = paths).

(** ** Relations between the worlds before and after a computation *)

(** Whatever the outcome, the world after [m] is related by [R] to the
    world before. *)
Definition stable (R : world -> world -> Prop) {A} (m : M A) : Prop :=
  forall w, R w (fst (m w)).

(** Computations that do not change the world at all. *)
Definition reads {A} (m : M A) : Prop := stable eq m.

(** Computations that call no collaborator. *)
Definition same_trace (w w' : world) : Prop := trace w' = trace w.
Definition silent {A} (m : M A) : Prop := stable same_trace m.

(** A two-dimensional array. *)
Definition is_2d (o : hobj) : bool :=
  match o with
  | ONdarray [_; _] _ => true
  | _ => false
  end.

(** The object [o] at the address [a] is still there. *)
Definition kept (a : nat) (o : hobj) (w w' : world) : Prop :=
  heap w !! a = Some o -> heap w' !! a = Some o.

(** ** The exceptions of a computation *)

(** Every exception [m] raises satisfies [P]. *)
Definition raises_only (P : exn -> Prop) {A} (m : M A) : Prop :=
  forall w e, snd (m w) = inl e -> P e.

(** The exceptions of the Python runtime, as opposed to the [ValueError]s
    the program raises itself. *)
Definition builtin (e : exn) : Prop :=
  match e with ValueError _ => False | _ => True end.

(** The exception of line 114. *)
Definition units_length_error : exn := ValueError "Units are of different lengths.".

(** ** Units outside the conversion table *)

(** Column by column, the table of [unit_conversion_scale] has no entry
    for the pair of units: equal units, or units it does not know. *)
Definition outside_table (src dst : list string) : Prop :=
  Forall2 (fun s d => scale_entry s d = None) src dst.

(** ** The wrap of an angle difference *)

(** Lines 221-223 on one element: the remainder modulo 2 pi, reduced by
    2 pi when it is above pi. *)
Definition wrap_pi (y : float) : float :=
  let r := remainder y TWO_PI in
  if (math_pi <? r)%float then (r - TWO_PI)%float else r.

(** [v] is in the interval from minus pi (excluded) to pi (included). *)
Definition in_wrap_range (v : float) : bool :=
  ((- math_pi <? v) && (v <=? math_pi))%float.


(** The world after lines 220-223 have run on the array [diff] of the
    differences: the array of their wraps is a new object. *)
Definition with_wrap (shape : list nat) (diff : list float) (w : world) : world :=
  set_heap (heap w ++ [ONdarray shape (map wrap_pi diff)]) w.

(** ** Binary64 numbers as integers *)

(** The least exponent of binary64: -1074. *)
Definition emin64 : Z := Eval compute in SpecFloat.emin prec emax.

(** The value of the mantissa [m] at the exponent [e], in units of
    [2 ^ emin64]. *)
Definition scaled (m e : Z) : Z := m * 2 ^ (e - emin64).

(** The number of binary digits of [m]. *)
Definition digits (m : positive) : Z := Z.pos (digits2_pos m).

(** The mantissa of [math_pi] and of [TWO_PI]. *)
Definition mant_pi : positive := 7074237752028440.

(** A finite number, in canonical form, whose magnitude is not above
    [TWO_PI]. *)
Definition within_two_pi (m : positive) (e : Z) : Prop :=
  bounded prec emax m e = true /\ scaled (Z.pos m) e <= scaled (Z.pos mant_pi) (-50).

(** Plus zero, or a positive number not above [TWO_PI]. *)
Definition turn (sf : spec_float) : Prop :=
  sf = S754_zero false
  \/ exists (m : positive) (e : Z), sf = S754_finite false m e /\ within_two_pi m e.

(** What a read of the payload of [sd] gives in the world [w]: the
    payload itself without a key, the entry of the key with one. *)
Definition stored (sd : Sim_data) (key : option key) (v : value) (w : world) : Prop :=
  match key with
  | None => data sd = v
  | Some k => dict_getitem (data sd) k w = (w, inr v)
  end.

(** The settings of [sd] are those of [self]: all but the payload. *)
Definition same_settings (self sd : Sim_data) : Prop :=
  name sd = name self /\ description sd = description self
  /\ units sd = units self /\ output_units sd = output_units self
  /\ plottable sd = plottable self /\ logx sd = logx self /\ logy sd = logy self
  /\ grid sd = grid self /\ legend sd = legend self.






(** ** Definitions for the further properties *)

(** The scale of the table for the column [i] of two unit lists. *)
Definition column_scale (src_unit dst_unit : list string) (i : nat) : option float :=
  match src_unit !! i, dst_unit !! i with
  | Some s, Some d => scale_entry s d
  | _, _ => None
  end.

(** An element [v] of the column [i] after [x[:, i] = x[:, i] * scale[i]]
    has run for the columns whose scale is there and not zero. *)
Definition scaled_by (scale : list float) (i : nat) (v : float) : float :=
  match scale !! i with
  | Some s => if is_zero s then v else (v * s)%float
  | None => v
  end.

(** The scale [convert_unit] finds at the column 0: the entry of the
    table, or the zero of [np.zeros]. *)
Definition first_scale (src_unit dst_unit : list string) : float :=
  match column_scale src_unit dst_unit 0 with
  | Some c => c
  | None => 0%float
  end.

(** The title of the column [i] in the header of an export with [cols]
    columns: the legend of the column when the legend has one entry for
    each column, else the name of the data set and the index; then the
    output unit of the column, when there is one. *)
Definition column_title (self : Sim_data) (cols i : nat) : string :=
  (match legend self with
   | Some l =>
       if (cols =? length l)%nat
       then match l !! i with Some li => li | None => EmptyString end
       else name self ++ "_" ++ str_int (Z.of_nat i)
   | None => name self ++ "_" ++ str_int (Z.of_nat i)
   end ++ str_unit self i)%string.

(** The titles of the columns [l], each followed by a comma. *)
Fixpoint titles_with_commas (title : nat -> string) (l : list nat) : string :=
  match l with
  | [] => EmptyString
  | i :: r => (title i ++ "," ++ titles_with_commas title r)%string
  end.

(** The header of an export with [cols] columns. *)
Definition header_text (self : Sim_data) (cols : nat) : string :=
  if (0 <? cols)%nat
  then join "," (map (column_title self cols) (seq 0 cols))
  else (name self ++ str_unit self 0)%string.

(** Every object of the heap of [w] is in the heap of [w'], as it was. *)
Definition preserved (w w' : world) : Prop :=
  forall (a : nat) (o : hobj), heap w !! a = Some o -> heap w' !! a = Some o.

(** A payload entry that is a number, or an array of the heap. *)
Definition number_or_array (w : world) (v : value) : bool :=
  match v with
  | VInt _ | VFloat _ | VNpFloat _ => true
  | VRef _ => is_ndarray v w
  | VNone | VStr _ => false
  end.

(** The payload of [self] is not a dict, or it is a dict of numbers and
    arrays. *)
Definition payload_ok (self : Sim_data) (w : world) : Prop :=
  is_dict (data self) w = false
  \/ exists (a : nat) (items : list (key * value)),
       data self = VRef a /\ heap w !! a = Some (ODict items)
       /\ forallb (fun kv => number_or_array w (snd kv)) items = true.





(** The message of [__plot_dict] for a reference it cannot subtract. *)
Definition check_input_ref : exn :=
  ValueError "Check input data ref and self.data dimension.".


(** Computations that leave the heap as it is. *)
Definition same_heap (w w' : world) : Prop := heap w' = heap w.
Definition draws {A} (m : M A) : Prop := stable same_heap m.

(** A number: an int, a float or a numpy scalar. *)
Definition is_number (v : value) : bool :=
  match v with
  | VInt _ | VFloat _ | VNpFloat _ => true
  | _ => false
  end.

(** The outcome [r] of an arithmetic operation of numpy run in the world
    [w]: an exception or a number, the world being as it was, or a new
    array. *)
Definition number_or_new_array (w : world) (r : world * (exn + value)) : Prop :=
  (fst r = w /\ match snd r with inl _ => True | inr v => is_number v = true end)
  \/ exists (shape : list nat) (buf : list float),
       r = (set_heap (heap w ++ [ONdarray shape buf]) w, inr (VRef (length (heap w)))).

(** An except clause that ends by raising, as those of the plots do. *)
Definition always_raises (handler : value -> M value) : Prop :=
  forall (v : value) (w : world), exists e, handler v w = (w, inl e).

(** The outcome of a computation keeps the objects of [w0], and the value
    it returns is not a dict. *)
Definition frame_ok (w0 : world) (r : world * (exn + value)) : Prop :=
  preserved w0 (fst r)
  /\ forall v, snd r = inr v -> is_dict v (fst r) = false.

(** The elements of an array of [cols] columns after the conversion from
    the units [src_unit] to the units [dst_unit]. *)
Definition converted (src_unit dst_unit : list string) (cols : nat) (buf : list float)
    : list float :=
  imap (fun j v => match column_scale src_unit dst_unit (j mod cols) with
                   | Some c => (v * c)%float
                   | None => v
                   end) buf.

(** The object at the address [c] is a dict with the keys [keys], in
    this order. *)
Definition dict_with_keys (c : nat) (keys : list key) (w : world) : Prop :=
  exists items, heap w !! c = Some (ODict items) /\ map fst items = keys.

(** An entry of a keyed payload that is a two-dimensional array: its key,
    the address of the array, its numbers of rows and of columns and its
    elements. *)
Record entry := Entry {
  e_key : key;
  e_addr : nat;
  e_rows : nat;
  e_cols : nat;
  e_buf : list float
}.

Definition entry_item (e : entry) : key * value := (e_key e, VRef (e_addr e)).

(** The array of the entry is in the heap, with all its elements. *)
Definition entry_in (w : world) (e : entry) : Prop :=
  heap w !! e_addr e = Some (ONdarray [e_rows e; e_cols e] (e_buf e))
  /\ length (e_buf e) = (e_rows e * e_cols e)%nat.

(** The table the export makes of an entry, and its call to the
    serializer. *)
Definition entry_table (self : Sim_data) (e : entry) : hobj :=
  ONdarray [e_rows e; e_cols e]
    (converted (units self) (output_units self) (e_cols e) (e_buf e)).

Definition entry_call (self : Sim_data) (data_dir header_line : string) (e : entry)
    : event :=
  Savetxt (keyed_path data_dir (name self) (e_key e)) (SObj (entry_table self e))
    header_line "," EmptyString.

(** The number of columns the header is made for: that of the first
    entry. *)
Definition first_cols (es : list entry) : nat :=
  match es with
  | [] => 0%nat
  | e :: _ => e_cols e
  end.







(** * Lemmas and theorems *)

(** ** Running the basic operations *)

Lemma lift_run {A} (r : exn + A) (w : world) :
  lift r w = (w, match r with inl e => inl e | inr x => inr x end).
Proof. now destruct r. Qed.

Lemma deref_at (a : nat) (o : hobj) (w : world) :
  heap w !! a = Some o -> deref a w = (w, inr o).
Proof. intros Ha. unfold deref. now rewrite Ha. Qed.

Lemma is_dict_array (a : nat) (s : list nat) (buf : list float) (w : world) :
  heap w !! a = Some (ONdarray s buf) -> is_dict (VRef a) w = false.
Proof. intros Ha. unfold is_dict. now rewrite Ha. Qed.

Lemma dict_items_at (a : nat) (items : list (key * value)) (w : world) :
  heap w !! a = Some (ODict items) -> dict_items (VRef a) w = (w, inr items).
Proof. intros Ha. unfold dict_items, bind, deref. now rewrite Ha. Qed.

Lemma is_dict_at (a : nat) (items : list (key * value)) (w : world) :
  heap w !! a = Some (ODict items) -> is_dict (VRef a) w = true.
Proof. intros Ha. unfold is_dict. now rewrite Ha. Qed.


(** ** Construction: the two unit lists *)

Section InitUnits.

Lemma append_from_seq (src : list string) :
  forall (k n : nat) (dst : list string),
    (n + k <= length src)%nat ->
    append_from src (seq n k) dst = inr (dst ++ take k (drop n src)).
Proof.
  induction k as [|k IH]; intros n dst Hn; simpl.
  - now rewrite app_nil_r.
  - destruct (lookup_lt_is_Some_2 src n) as [u Hu]; [lia|].
    rewrite Hu, IH by lia.
    rewrite <- app_assoc. f_equal. f_equal.
    rewrite (drop_S src u n Hu). reflexivity.
Qed.

Lemma append_from_tail (src dst : list string) :
  (length dst <= length src)%nat ->
  append_from src (seq (length dst) (length src - length dst)) dst
  = inr (dst ++ drop (length dst) src).
Proof.
  intros Hle. rewrite append_from_seq by lia.
  f_equal. f_equal. apply take_ge. rewrite length_drop. lia.
Qed.

Lemma init_units_both (u o : list string) :
  init_units (Some u) (Some o)
  = inr (u ++ drop (length u) o, o ++ drop (length o) u).
Proof.
  unfold init_units.
  destruct (Nat.ltb_spec (length o) (length u)) as [Hlt|Hge].
  - rewrite append_from_tail by lia.
    rewrite (drop_ge o) by lia. now rewrite app_nil_r.
  - destruct (Nat.ltb_spec (length u) (length o)) as [Hlt|Hge'].
    + rewrite append_from_tail by lia.
      rewrite (drop_ge u) by lia. now rewrite app_nil_r.
    + rewrite (drop_ge o), (drop_ge u) by lia. now rewrite !app_nil_r.
Qed.

End InitUnits.

Lemma init_both (nm descr : string) (u o : list string) (pl lx ly : bool)
    (g : string) (lg : option (list string)) (w : world) :
  exists sd : Sim_data,
    init nm descr (Some u) (Some o) pl lx ly g lg w
    = (set_heap (heap w ++ [ODict []]) w, inr sd)
    /\ units sd = u ++ drop (length u) o
    /\ output_units sd = o ++ drop (length o) u.
Proof.
  unfold init, bind, lift. rewrite init_units_both. simpl.
  eexists. split; [reflexivity|]. split; reflexivity.
Qed.

(** C7: when a Sim_data is constructed with a units list and an
    output_units list, the constructor returns an object (it does not
    raise) whose shorter list has been extended with the tail of the longer
    one, so that both lists have the same length; with units [m, s] and
    output units [ft] the output units become [ft, s], and with units [m]
    and output units [ft, Hz] the units become [m, Hz]. *)
Theorem init_pads_units :
  (forall (nm descr : string) (u o : list string) (pl lx ly : bool)
          (g : string) (lg : option (list string)) (w : world),
      exists (sd : Sim_data) (w' : world),
        init nm descr (Some u) (Some o) pl lx ly g lg w = (w', inr sd)
        /\ units sd = u ++ drop (length u) o
        /\ output_units sd = o ++ drop (length o) u
        /\ length (units sd) = length (output_units sd))
  /\ (forall (nm descr : string) (pl lx ly : bool) (g : string)
             (lg : option (list string)) (w : world),
        exists (sd : Sim_data) (w' : world),
          init nm descr (Some ["m"; "s"]%string) (Some ["ft"]%string) pl lx ly g lg w
          = (w', inr sd)
          /\ output_units sd = ["ft"; "s"]%string)
  /\ (forall (nm descr : string) (pl lx ly : bool) (g : string)
             (lg : option (list string)) (w : world),
        exists (sd : Sim_data) (w' : world),
          init nm descr (Some ["m"]%string) (Some ["ft"; "Hz"]%string) pl lx ly g lg w
          = (w', inr sd)
          /\ units sd = ["m"; "Hz"]%string).
Proof.
  split; [|split]; intros.
  - destruct (init_both nm descr u o pl lx ly g lg w) as (sd & Hrun & Hu & Ho).
    exists sd, (set_heap (heap w ++ [ODict []]) w).
    repeat split; try assumption.
    rewrite Hu, Ho, !length_app, !length_drop. lia.
  - destruct (init_both nm descr ["m"; "s"]%string ["ft"]%string pl lx ly g lg w)
      as (sd & Hrun & Hu & Ho).
    exists sd, (set_heap (heap w ++ [ODict []]) w). split; assumption.
  - destruct (init_both nm descr ["m"]%string ["ft"; "Hz"]%string pl lx ly g lg w)
      as (sd & Hrun & Hu & Ho).
    exists sd, (set_heap (heap w ++ [ODict []]) w). split; assumption.
Qed.

(** ** The end-to-end export scenario *)

(** C3: for the data set gyro with units deg/s and output units rad/s,
    writing a 2x3 array of ones with the units deg/s stores the array as it
    is, and the export makes one call to the serializer, with a 2x3 table
    whose six cells are math.pi/180 and with the header
    gyro_0 (rad/s),gyro_1 (rad/s),gyro_2 (rad/s). *)
Theorem gyro_export_end_to_end (descr data_dir : string) :
  Scenario.gyro_export descr data_dir w0
  = (World [ODict []; Scenario.ones_2x3;
            ONdarray [2; 3]%nat (replicate 6 (math_pi / 180)%float)]
           [Savetxt (data_dir ++ "//gyro.csv")%string
                    (SObj (ONdarray [2; 3]%nat (replicate 6 (math_pi / 180)%float)))
                    "gyro_0 (rad/s),gyro_1 (rad/s),gyro_2 (rad/s)" "," EmptyString],
     inr tt).
Proof. vm_compute. reflexivity. Qed.

(** ** Conversion of scalars and of arrays of other dimensions *)

Lemma scale_entry_same (s : string) : scale_entry s s = None.
Proof.
  unfold scale_entry.
  destruct (String.eqb_spec s "deg") as [->|_]; [reflexivity|].
  destruct (String.eqb_spec s "deg/s") as [->|_]; [reflexivity|].
  destruct (String.eqb_spec s "rad") as [->|_]; [reflexivity|].
  destruct (String.eqb_spec s "rad/s") as [->|_]; reflexivity.
Qed.

Lemma outside_table_same (u : list string) : outside_table u u.
Proof. induction u; constructor; auto using scale_entry_same. Qed.

Lemma scale_loop_outside (src dst : list string) (idx : list nat) :
  outside_table src dst -> List.Forall (fun i => (i < length dst)%nat) idx ->
  forall scale, scale_loop src dst idx scale = inr scale.
Proof.
  intros Ht Hidx. induction Hidx as [|i idx Hi _ IH]; intros scale; simpl; [reflexivity|].
  destruct (lookup_lt_is_Some_2 dst i Hi) as [d Hd].
  destruct (Forall2_lookup_r _ _ _ _ _ Ht Hd) as (s & Hs & Hsd).
  rewrite Hs, Hd, Hsd. apply IH.
Qed.

(** Outside the table, the scale is the zero of [np.zeros] in every
    column. *)
Lemma unit_conversion_scale_outside (src dst : list string) :
  outside_table src dst ->
  unit_conversion_scale src dst = inr (replicate (length dst) 0%float).
Proof.
  intros Ht. unfold unit_conversion_scale. apply scale_loop_outside; [exact Ht|].
  apply List.Forall_forall. intros i Hi. apply in_seq in Hi. lia.
Qed.

Lemma scale_columns_zero (cols m : nat) (idx : list nat) (buf : list float) :
  scale_columns cols (replicate m 0%float) idx buf = buf.
Proof.
  induction idx as [|i idx IH]; simpl; [reflexivity|].
  destruct (replicate m 0%float !! i) as [s|] eqn:Hs; [|reflexivity].
  apply lookup_replicate in Hs. destruct Hs as [-> _]. exact IH.
Qed.

(** Outside the table, [convert_unit] returns a copy of a one- or
    two-dimensional array with the elements as they were: for arrays, a
    zero scale means no conversion. *)
Lemma convert_unit_array_zero_scale (src dst : list string) (a : nat)
    (shape : list nat) (buf : list float) (w : world) :
  outside_table src dst ->
  heap w !! a = Some (ONdarray shape buf) ->
  length shape = 2%nat \/ (length shape = 1%nat /\ dst <> []) ->
  convert_unit (VRef a) src dst w
  = (set_heap (heap w ++ [ONdarray shape buf]) w, inr (VRef (length (heap w)))).
Proof.
  intros Ht Ha Hs. unfold convert_unit, bind at 1.
  rewrite (unit_conversion_scale_outside src dst Ht). cbn [lift ret].
  unfold bind at 1, copy, bind at 1. rewrite (deref_at a _ w Ha). unfold alloc.
  set (w1 := set_heap (heap w ++ [ONdarray shape buf]) w).
  assert (H1 : heap w1 !! length (heap w) = Some (ONdarray shape buf)).
  { simpl. now rewrite lookup_app_r, Nat.sub_diag by lia. }
  unfold bind at 1, isinstance_dict. rewrite (is_dict_array _ _ _ w1 H1).
  unfold convert_unit_ndarray_scalar, bind at 1. rewrite (deref_at _ _ w1 H1).
  destruct shape as [|d1 [|d2 [|d3 r]]]; simpl in Hs; try (exfalso; lia).
  - destruct Hs as [Hs|[_ Hd]]; [discriminate Hs|].
    destruct dst as [|u dst]; [congruence|]. reflexivity.
  - unfold bind, store, ret. rewrite scale_columns_zero.
    unfold w1 at 1, set_heap. cbn [heap trace].
    rewrite insert_app_r_alt, Nat.sub_diag by lia. reflexivity.
Qed.

(** A Python float has no [copy]: [convert_unit] fails on it, whatever the
    units. *)
Lemma convert_unit_python_float (f : float) (src dst : list string) (w : world) :
  exists e : exn, convert_unit (VFloat f) src dst w = (w, inl e).
Proof.
  unfold convert_unit, bind. rewrite lift_run.
  destruct (unit_conversion_scale src dst) as [e|scale]; eexists; reflexivity.
Qed.

(** C2: between units outside the table (equal units among them), where
    the scale is zero and nothing is to be converted, the conversion of a
    numpy scalar returns the scalar times zero, and so does the conversion
    there and back: the value is lost, where an array keeps its elements. *)
Theorem convert_unit_scalar_zero_scale (f : float) (A B : list string) (w : world) :
  outside_table A B -> outside_table B A -> A <> [] ->
  convert_unit (VNpFloat f) A B w = (w, inr (VNpFloat (f * 0)))
  /\ (x <- convert_unit (VNpFloat f) A B ;; convert_unit x B A)%mon w
     = (w, inr (VNpFloat (f * 0 * 0))).
Proof.
  intros HAB HBA HA.
  assert (HB : B <> []).
  { intros ->. apply Forall2_length in HAB. destruct A; [congruence|discriminate]. }
  assert (Hone : forall (g : float) (src dst : list string),
             outside_table src dst -> dst <> [] ->
             convert_unit (VNpFloat g) src dst w = (w, inr (VNpFloat (g * 0)))).
  { intros g src dst Ht Hd. unfold convert_unit, bind.
    rewrite (unit_conversion_scale_outside src dst Ht).
    destruct dst as [|u dst]; [congruence|]. reflexivity. }
  split.
  - now apply Hone.
  - unfold bind. rewrite (Hone f A B HAB HB). now apply Hone.
Qed.

Lemma convert_unit_scalar_zero_scale_witness :
  convert_unit (VNpFloat 5) ["m"]%string ["m"]%string w0 = (w0, inr (VNpFloat 0))
  /\ (x <- convert_unit (VNpFloat 5) ["m"]%string ["m"]%string ;;
      convert_unit x ["m"]%string ["m"]%string)%mon w0 = (w0, inr (VNpFloat 0)).
Proof.
  apply (convert_unit_scalar_zero_scale 5 ["m"]%string ["m"]%string w0).
  - repeat constructor.
  - repeat constructor.
  - discriminate.
Defined.

(** C8: an array whose number of dimensions is neither 1 nor 2 is
    returned as it is by convert_unit_ndarray_scalar: no exception is
    raised and nothing changes. *)
Theorem convert_unit_ndarray_other_ndim (w : world) (a : nat) (shape : list nat)
    (buf scale : list float) :
  heap w !! a = Some (ONdarray shape buf) ->
  length shape <> 1%nat -> length shape <> 2%nat ->
  convert_unit_ndarray_scalar (VRef a) scale w = (w, inr (VRef a)).
Proof.
  intros Ha H1 H2.
  unfold convert_unit_ndarray_scalar, bind, deref. rewrite Ha.
  destruct shape as [|d1 [|d2 [|d3 r]]]; simpl in *; try congruence; reflexivity.
Qed.

Lemma convert_unit_ndarray_other_ndim_witness :
  convert_unit_ndarray_scalar (VRef 0) [D2R]
    (World [ONdarray [1; 1; 1]%nat [1%float]] [])
  = (World [ONdarray [1; 1; 1]%nat [1%float]] [], inr (VRef 0)).
Proof.
  apply (convert_unit_ndarray_other_ndim
           (World [ONdarray [1; 1; 1]%nat [1%float]] []) 0 [1; 1; 1]%nat [1%float] [D2R]).
  - reflexivity.
  - simpl. lia.
  - simpl. lia.
Defined.

(** Values that are neither arrays nor numbers make the function raise
    AttributeError, when the message of its ValueError reads [x.ndim]. *)
Lemma convert_unit_ndarray_scalar_no_ndim (w : world) (scale : list float) (s : string) :
  convert_unit_ndarray_scalar (VStr s) scale w = (w, inl AttributeError)
  /\ convert_unit_ndarray_scalar VNone scale w = (w, inl AttributeError).
Proof. split; reflexivity. Qed.

(** ** Computations that keep a relation between worlds *)

Section Stable.

Variable R : world -> world -> Prop.
Hypothesis R_refl : forall w, R w w.
Hypothesis R_trans : forall w1 w2 w3, R w1 w2 -> R w2 w3 -> R w1 w3.

Lemma stable_ret {A} (a : A) : stable R (ret a).
Proof using R_refl. intros w. apply R_refl. Qed.

Lemma stable_raise {A} (e : exn) : stable R (@raise A e).
Proof using R_refl. intros w. apply R_refl. Qed.

Lemma stable_bind {A B} (m : M A) (k : A -> M B) :
  stable R m -> (forall a, stable R (k a)) -> stable R (bind m k).
Proof using R_trans.
  intros Hm Hk w. unfold bind. specialize (Hm w).
  destruct (m w) as [w1 [e|a]]; simpl in *; [assumption|].
  eapply R_trans; [exact Hm|apply Hk].
Qed.

Lemma stable_try_except {A} (m h : M A) :
  stable R m -> stable R h -> stable R (try_except m h).
Proof using R_trans.
  intros Hm Hh w. unfold try_except. specialize (Hm w).
  destruct (m w) as [w1 [e|a]]; simpl in *; [|assumption].
  eapply R_trans; [exact Hm|apply Hh].
Qed.

Lemma stable_lift {A} (r : exn + A) : stable R (lift r).
Proof using R_refl. destruct r; intros w; apply R_refl. Qed.

Lemma stable_of_option {A} (e : exn) (o : option A) : stable R (of_option e o).
Proof using R_refl. destruct o; intros w; apply R_refl. Qed.

Lemma stable_for_each {A} (l : list A) (body : A -> M unit) :
  (forall a, stable R (body a)) -> stable R (for_each l body).
Proof using R_refl R_trans.
  intros Hb. induction l as [|a l IH]; simpl.
  - apply stable_ret.
  - apply stable_bind; [apply Hb|intros _; exact IH].
Qed.

Lemma stable_deref (a : nat) : stable R (deref a).
Proof using R_refl. intros w. unfold deref. destruct (heap w !! a); apply R_refl. Qed.

Lemma stable_snap (v : value) : stable R (snap v).
Proof using R_refl.
  intros w. unfold snap. destruct v; try apply R_refl.
  destruct (heap w !! a); apply R_refl.
Qed.

Lemma stable_isinstance_dict (v : value) : stable R (isinstance_dict v).
Proof using R_refl. intros w. apply R_refl. Qed.

Lemma stable_isinstance_ndarray (v : value) : stable R (isinstance_ndarray v).
Proof using R_refl. intros w. apply R_refl. Qed.

Lemma stable_dict_items (v : value) : stable R (dict_items v).
Proof using R_refl R_trans.
  destruct v; try apply stable_raise. simpl.
  apply stable_bind; [apply stable_deref|].
  intros [? ?|?]; [apply stable_raise|apply stable_ret].
Qed.

Lemma stable_dict_getitem (d : value) (k : key) : stable R (dict_getitem d k).
Proof using R_refl R_trans.
  apply stable_bind; [apply stable_dict_items|intros; apply stable_of_option].
Qed.

Lemma stable_get_shape (v : value) : stable R (get_shape v).
Proof using R_refl R_trans.
  destruct v; try apply stable_raise; try apply stable_ret. simpl.
  apply stable_bind; [apply stable_deref|].
  intros [? ?|?]; [apply stable_ret|apply stable_raise].
Qed.

Lemma stable_get_ndim (v : value) : stable R (get_ndim v).
Proof using R_refl R_trans.
  apply stable_bind; [apply stable_get_shape|intros; apply stable_ret].
Qed.

Lemma stable_get_shape_at (v : value) (i : nat) : stable R (get_shape_at v i).
Proof using R_refl R_trans.
  apply stable_bind; [apply stable_get_shape|intros; apply stable_of_option].
Qed.

Lemma stable_scalar_times (x : value) (s : float) : stable R (scalar_times x s).
Proof using R_refl R_trans.
  destruct x; try apply stable_raise; try apply stable_ret. simpl.
  apply stable_bind; [apply stable_of_option|intros; apply stable_ret].
Qed.

(** The computations that only allocate and write the heap by [alloc] and
    [store]: stable R once these two are. *)
Hypothesis R_alloc : forall o, stable R (alloc o).

Lemma stable_copy (v : value) : stable R (copy v).
Proof using R_refl R_trans R_alloc.
  destruct v; try apply stable_raise; try apply stable_ret. simpl.
  apply stable_bind; [apply stable_deref|intros; apply R_alloc].
Qed.

End Stable.

Lemma same_trace_refl (w : world) : same_trace w w.
Proof. reflexivity. Qed.

Lemma same_trace_trans (w1 w2 w3 : world) :
  same_trace w1 w2 -> same_trace w2 w3 -> same_trace w1 w3.
Proof. unfold same_trace. congruence. Qed.

Lemma silent_alloc (o : hobj) : silent (alloc o).
Proof. intros w. reflexivity. Qed.

Lemma silent_store (a : nat) (o : hobj) : silent (store a o).
Proof. intros w. reflexivity. Qed.

(** One step of a proof that a computation is stable, by its structure;
    [Hr] and [Ht] prove that the relation is reflexive and transitive. *)
Ltac stable_step Hr Ht :=
  first
    [ apply (stable_ret _ Hr)
    | apply (stable_raise _ Hr)
    | apply (stable_lift _ Hr)
    | apply (stable_of_option _ Hr)
    | apply (stable_deref _ Hr)
    | apply (stable_snap _ Hr)
    | apply (stable_isinstance_dict _ Hr)
    | apply (stable_isinstance_ndarray _ Hr)
    | apply (stable_dict_items _ Hr Ht)
    | apply (stable_dict_getitem _ Hr Ht)
    | apply (stable_get_shape _ Hr Ht)
    | apply (stable_get_ndim _ Hr Ht)
    | apply (stable_get_shape_at _ Hr Ht)
    | apply (stable_scalar_times _ Hr Ht)
    | assumption
    | match goal with
      | |- stable _ (bind _ _) => apply (stable_bind _ Ht); [|intros ?]
      | |- stable _ (for_each _ _) => apply (stable_for_each _ Hr Ht); intros ?
      | |- stable _ (try_except _ _) => apply (stable_try_except _ Ht)
      end
    | match goal with |- stable _ (match ?x with _ => _ end) => destruct x end
    | match goal with |- stable _ (if ?b then _ else _) => destruct b end ].

Ltac silent_tac :=
  unfold silent;
  repeat first
    [ stable_step same_trace_refl same_trace_trans
    | apply silent_alloc
    | apply silent_store
    | apply (stable_copy _ same_trace_refl same_trace_trans silent_alloc) ].

Ltac reads_tac :=
  unfold reads;
  repeat stable_step (@eq_refl world) (@eq_trans world).

Lemma silent_dict_setitem (d : value) (k : key) (v : value) : silent (dict_setitem d k v).
Proof. unfold dict_setitem. silent_tac. Qed.

Lemma silent_convert_unit_ndarray_scalar (x : value) (scale : list float) :
  silent (convert_unit_ndarray_scalar x scale).
Proof. unfold convert_unit_ndarray_scalar. silent_tac. Qed.

Lemma silent_convert_unit_dict (x : value) (scale : list float) :
  silent (convert_unit_dict x scale).
Proof.
  unfold convert_unit_dict. silent_tac.
  - apply silent_convert_unit_ndarray_scalar.
  - apply silent_dict_setitem.
Qed.

Lemma silent_convert_unit (d : value) (src dst : list string) :
  silent (convert_unit d src dst).
Proof.
  unfold convert_unit. silent_tac.
  - apply silent_convert_unit_dict.
  - apply silent_convert_unit_ndarray_scalar.
Qed.

Lemma reads_columns_of (v : value) : reads (columns_of v).
Proof. unfold columns_of. reads_tac. Qed.

Lemma reads_count_cols (self : Sim_data) : reads (count_cols self).
Proof. unfold count_cols. reads_tac; apply reads_columns_of. Qed.

(** ** Export: file names *)

(** C9, as stated, fails: with the directory out, the bare payload of gyro
    is not written to out/gyro.csv and the entry 0 of a keyed payload is
    not written to out/gyro-0.csv; the paths have two separators. *)
Lemma export_path_single_separator_fails :
  saved_files (trace (fst (save_to_file (PathExample.gyro (VRef 0)) "out" PathExample.bare)))
    <> ["out/gyro.csv"%string]
  /\ saved_files (trace (fst (save_to_file (PathExample.gyro (VRef 1)) "out" PathExample.keyed)))
    <> ["out/gyro-0.csv"%string].
Proof. split; vm_compute; intros H; discriminate H. Qed.

Lemma wrote_fail {A} (m : M A) (w : world) (paths : list string) (e : exn) :
  trace (fst (m w)) = trace w -> snd (m w) = inl e -> wrote m w paths.
Proof.
  intros Ht He. exists []. rewrite app_nil_r. repeat split; auto.
  - apply prefix_nil.
  - intros a Ha. congruence.
Qed.

Lemma savetxt_converted_wrote (self : Sim_data) (f : string) (v : value) (h : string)
    (w : world) :
  wrote (savetxt_converted self f v h) w [f].
Proof.
  pose proof (silent_convert_unit v (units self) (output_units self) w) as Hs.
  unfold same_trace in Hs.
  destruct (convert_unit v (units self) (output_units self) w) as [w1 [e|y]] eqn:Hc;
    simpl in Hs.
  - eapply wrote_fail with (e := e); unfold savetxt_converted, bind; now rewrite Hc.
  - pose proof (stable_snap _ same_trace_refl y w1) as Hn. unfold same_trace in Hn.
    destruct (snap y w1) as [w2 [e|X]] eqn:Hsnap; simpl in Hn.
    + eapply wrote_fail with (e := e); unfold savetxt_converted, bind;
        rewrite Hc, Hsnap; simpl; congruence.
    + exists [Savetxt f X h "," EmptyString].
      unfold savetxt_converted, bind at 1. rewrite Hc.
      unfold bind at 1. rewrite Hsnap. unfold savetxt, bind, emit.
      destruct ((snapshot_ndim X =? 1)%nat || (snapshot_ndim X =? 2)%nat); simpl;
        (repeat split; auto; now rewrite Hn, Hs).
Qed.

Lemma wrote_bind_silent {A B} (m : M A) (k : A -> M B) (w : world) (paths : list string) :
  silent m -> (forall a w1, trace w1 = trace w -> wrote (k a) w1 paths) ->
  wrote (bind m k) w paths.
Proof.
  intros Hm Hk. specialize (Hm w). unfold same_trace in Hm.
  destruct (m w) as [w1 [e|a]] eqn:Hmw; simpl in Hm.
  - apply wrote_fail with (e := e); unfold bind; now rewrite Hmw.
  - destruct (Hk a w1 Hm) as (evs & Ht & Hl & Hp & Hok).
    exists evs. unfold bind. rewrite Hmw. rewrite Ht, Hm. auto.
Qed.

Lemma wrote_seq {A B} (m : M A) (k : M B) (w : world) (p1 p2 : list string) :
  wrote m w p1 -> (forall w1, wrote k w1 p2) ->
  wrote (bind m (fun _ => k)) w (p1 ++ p2).
Proof.
  intros (evs & Ht & Hl & Hp & Hok) Hk.
  unfold wrote, bind. destruct (m w) as [w1 [e|a]] eqn:Hmw; simpl in *.
  - exists evs. repeat split; auto.
    + now apply prefix_app_r.
    + intros b Hb. discriminate Hb.
  - destruct (Hk w1) as (evs2 & Ht2 & Hl2 & Hp2 & Hok2).
    exists (evs ++ evs2). unfold saved_files in *. rewrite omap_app, !length_app.
    repeat split.
    + now rewrite Ht2, Ht, app_assoc.
    + congruence.
    + rewrite (Hok a eq_refl). now apply prefix_app.
    + intros b Hb. rewrite (Hok a eq_refl), (Hok2 b Hb). reflexivity.
Qed.

Lemma save_loop_wrote (self : Sim_data) (data_dir h : string) (ks : list key) :
  forall w : world,
    wrote (for_each ks (fun i =>
             v <- dict_getitem (data self) i ;;
             savetxt_converted self (keyed_path data_dir (name self) i) v h)%mon)
          w (map (keyed_path data_dir (name self)) ks).
Proof.
  induction ks as [|k ks IH]; intros w; simpl.
  - exists []. rewrite app_nil_r. repeat split; auto.
  - apply (wrote_seq _ _ w [keyed_path data_dir (name self) k]).
    + apply wrote_bind_silent.
      * apply (stable_dict_getitem _ same_trace_refl same_trace_trans).
      * intros v w1 _. apply savetxt_converted_wrote.
    + exact IH.
Qed.

Lemma wrote_bind_reads {A B} (m : M A) (k : A -> M B) (w : world) (paths : list string) :
  reads m -> (forall a, wrote (k a) w paths) -> wrote (bind m k) w paths.
Proof.
  intros Hm Hk. specialize (Hm w).
  destruct (m w) as [w1 [e|a]] eqn:Hmw; simpl in Hm; subst w1.
  - apply wrote_fail with (e := e); unfold bind; now rewrite Hmw.
  - destruct (Hk a) as (evs & Ht & Hl & Hp & Hok).
    exists evs. unfold bind. rewrite Hmw. auto.
Qed.

Lemma wrote_ext {A} (m m' : M A) (w : world) (paths : list string) :
  m w = m' w -> wrote m' w paths -> wrote m w paths.
Proof. unfold wrote. intros Heq. rewrite Heq. auto. Qed.

(** C9 (amended): an export to the directory d writes a keyed payload, key
    after key in the order of the mapping, to d//name-key.csv, and a bare
    payload to d//name.csv, with two separators after the directory; the
    export makes no other call to a collaborator, and if it fails part way
    the files written are the first of these. *)
Theorem export_paths (self : Sim_data) (data_dir : string) (w : world) :
  (forall (a : nat) (items : list (key * value)),
      data self = VRef a -> heap w !! a = Some (ODict items) ->
      wrote (save_to_file self data_dir) w
            (map (keyed_path data_dir (name self)) (map fst items)))
  /\ (is_dict (data self) w = false ->
      wrote (save_to_file self data_dir) w [bare_path data_dir (name self)]).
Proof.
  split.
  - intros a items Hd Ha. unfold save_to_file.
    apply wrote_bind_reads; [apply reads_count_cols|intros cols].
    apply wrote_bind_reads; [apply (stable_lift _ (@eq_refl world))|intros h].
    eapply wrote_ext;
      [|exact (save_loop_wrote self data_dir h (map fst items) w)].
    unfold bind, isinstance_dict.
    rewrite Hd, (is_dict_at a items w Ha), (dict_items_at a items w Ha).
    reflexivity.
  - intros Hnd. unfold save_to_file.
    apply wrote_bind_reads; [apply reads_count_cols|intros cols].
    apply wrote_bind_reads; [apply (stable_lift _ (@eq_refl world))|intros h].
    eapply wrote_ext;
      [|exact (savetxt_converted_wrote self (bare_path data_dir (name self)) (data self) h w)].
    unfold bind at 1, isinstance_dict. rewrite Hnd. reflexivity.
Qed.

Lemma export_paths_witness :
  wrote (save_to_file (PathExample.gyro (VRef 1)) "out") PathExample.keyed
        [keyed_path "out" "gyro" (KInt 0)]
  /\ wrote (save_to_file (PathExample.gyro (VRef 0)) "out") PathExample.bare
           [bare_path "out" "gyro"].
Proof.
  split.
  - apply (proj1 (export_paths (PathExample.gyro (VRef 1)) "out" PathExample.keyed)
             1%nat [(KInt 0, VRef 0%nat)]); reflexivity.
  - apply (proj2 (export_paths (PathExample.gyro (VRef 0)) "out" PathExample.bare)).
    reflexivity.
Defined.

(** ** Writing data *)

Lemma key_eqb_eq (k1 k2 : key) : key_eqb k1 k2 = true <-> k1 = k2.
Proof.
  destruct k1 as [a|a], k2 as [b|b]; simpl; split; intros H; try discriminate.
  - apply Z.eqb_eq in H. now subst.
  - injection H as ->. apply Z.eqb_refl.
  - apply String.eqb_eq in H. now subst.
  - injection H as ->. apply String.eqb_refl.
Qed.

Lemma key_eqb_neq (k1 k2 : key) : key_eqb k1 k2 = false <-> k1 <> k2.
Proof.
  rewrite <- key_eqb_eq. destruct (key_eqb k1 k2); split; congruence.
Qed.

Lemma list_eqb_eq (l1 l2 : list string) : list_eqb l1 l2 = true <-> l1 = l2.
Proof.
  revert l2. induction l1 as [|a l1 IH]; intros [|b l2]; simpl; split; intros H;
    try discriminate; try reflexivity.
  - apply andb_true_iff in H as [Hab Hl].
    apply String.eqb_eq in Hab. apply IH in Hl. now subst.
  - injection H as -> ->. rewrite String.eqb_refl. simpl. now apply IH.
Qed.

Lemma dict_get_set_eq (items : list (key * value)) (k : key) (v : value) :
  dict_get (dict_set items k v) k = Some v.
Proof.
  induction items as [|[k' v'] items IH]; simpl.
  - now rewrite (proj2 (key_eqb_eq k k) eq_refl).
  - destruct (key_eqb k' k) eqn:Hk; simpl; rewrite Hk; auto.
Qed.

Lemma dict_get_set_ne (items : list (key * value)) (k k' : key) (v : value) :
  k' <> k -> dict_get (dict_set items k v) k' = dict_get items k'.
Proof.
  intros Hne. induction items as [|[k0 v0] items IH]; simpl.
  - apply key_eqb_neq in Hne. destruct (key_eqb k k') eqn:Hk; [|reflexivity].
    apply key_eqb_eq in Hk. subst. now rewrite (proj2 (key_eqb_eq k' k') eq_refl) in Hne.
  - destruct (key_eqb k0 k) eqn:Hk; simpl.
    + apply key_eqb_eq in Hk. subst k0.
      destruct (key_eqb k k') eqn:Hk'; [|reflexivity].
      apply key_eqb_eq in Hk'. congruence.
    + now rewrite IH.
Qed.

(** The keys of a dict and their order are kept by an assignment to a key
    it has. *)
Lemma dict_set_keys (items : list (key * value)) (k : key) (v : value) :
  is_Some (dict_get items k) -> map fst (dict_set items k v) = map fst items.
Proof.
  induction items as [|[k0 v0] items IH]; simpl; intros [x Hx]; [discriminate|].
  destruct (key_eqb k0 k) eqn:Hk; simpl; [reflexivity|].
  f_equal. apply IH. eauto.
Qed.

Lemma dict_setitem_at (a : nat) (items : list (key * value)) (k : key) (v : value)
    (w : world) :
  heap w !! a = Some (ODict items) ->
  dict_setitem (VRef a) k v w
  = (set_heap (<[a := ODict (dict_set items k v)]> (heap w)) w, inr tt).
Proof.
  intros Ha. unfold dict_setitem, bind. now rewrite (dict_items_at a items w Ha).
Qed.

Lemma add_data_units_none (self : Sim_data) (d : value) (cu : option (list string))
    (w : world) :
  cu = None \/ cu = Some (units self) -> add_data_units self d cu w = (w, inr d).
Proof.
  intros [->| ->]; simpl; [reflexivity|].
  rewrite Nat.eqb_refl, (proj2 (list_eqb_eq _ _) eq_refl). reflexivity.
Qed.

Lemma same_settings_set_data (self : Sim_data) (d : value) :
  same_settings self (set_data self d).
Proof. repeat split. Qed.

Lemma dict_getitem_at (a : nat) (items : list (key * value)) (k : key) (w : world) :
  heap w !! a = Some (ODict items) ->
  dict_getitem (VRef a) k w = (w, match dict_get items k with
                                  | Some v => inr v
                                  | None => inl KeyError
                                  end).
Proof.
  intros Ha. unfold dict_getitem, bind. rewrite (dict_items_at a items w Ha).
  now destruct (dict_get items k).
Qed.

(** C5: the data to store is the given data, as it is when the caller
    names no units or the units of the object (else converted to them).
    A write that names no key returns the object with this data as its
    payload, whatever the payload was, and with its other settings; with a
    key, when the payload is not a dict, the payload becomes a new dict
    whose items are the one entry key: data; when the payload is a dict,
    the entry key: data is set in it: a read of the key gives the data, a
    read of another key gives what it gave before. *)
Theorem add_data_store_semantics (self : Sim_data) (d d' : value)
    (cu : option (list string)) (w w1 : world) :
  add_data_units self d cu w = (w1, inr d') ->
  (exists sd : Sim_data,
      add_data self d None cu w = (w1, inr sd)
      /\ data sd = d' /\ same_settings self sd)
  /\ (forall k : key,
        is_dict (data self) w1 = false ->
        exists (sd : Sim_data) (w2 : world),
          add_data self d (Some k) cu w = (w2, inr sd)
          /\ w2 = set_heap (heap w1 ++ [ODict [(k, d')]]) w1
          /\ data sd = VRef (length (heap w1))
          /\ dict_items (data sd) w2 = (w2, inr [(k, d')])
          /\ same_settings self sd)
  /\ (forall (k : key) (a : nat) (items : list (key * value)),
        data self = VRef a -> heap w1 !! a = Some (ODict items) ->
        exists (sd : Sim_data) (w2 : world),
          add_data self d (Some k) cu w = (w2, inr sd)
          /\ w2 = set_heap (<[a := ODict (dict_set items k d')]> (heap w1)) w1
          /\ data sd = VRef a
          /\ dict_getitem (data sd) k w2 = (w2, inr d')
          /\ (forall k' : key, k' <> k ->
                snd (dict_getitem (data sd) k' w2)
                = snd (dict_getitem (data self) k' w1))
          /\ same_settings self sd)
  /\ (cu = None \/ cu = Some (units self) -> w1 = w /\ d' = d).
Proof.
  intros Hcu. unfold add_data, bind. rewrite Hcu.
  split; [|split; [|split]].
  - exists (set_data self d'). split; [reflexivity|]. split; [reflexivity|].
    apply same_settings_set_data.
  - intros k Hnd. unfold add_data_store, bind, isinstance_dict. rewrite Hnd.
    unfold alloc. rewrite dict_setitem_at with (items := []).
    2:{ simpl. now rewrite lookup_app_r, Nat.sub_diag by lia. }
    assert (Hw2 : set_heap (<[length (heap w1) := ODict (dict_set [] k d')]>
                              (heap (set_heap (heap w1 ++ [ODict []]) w1)))
                    (set_heap (heap w1 ++ [ODict []]) w1)
                  = set_heap (heap w1 ++ [ODict [(k, d')]]) w1).
    { unfold set_heap. simpl.
      rewrite insert_app_r_alt, Nat.sub_diag by lia. reflexivity. }
    rewrite Hw2. eexists _, _. split; [reflexivity|]. split; [reflexivity|].
    split; [reflexivity|]. split; [|apply same_settings_set_data].
    cbn [set_data data]. apply dict_items_at. simpl.
    now rewrite lookup_app_r, Nat.sub_diag by lia.
  - intros k a items Hd Ha.
    unfold add_data_store, bind, isinstance_dict.
    rewrite Hd, (is_dict_at a items w1 Ha).
    unfold ret. rewrite (dict_setitem_at a items k d' w1 Ha).
    set (w2 := set_heap (<[a := ODict (dict_set items k d')]> (heap w1)) w1).
    assert (H2 : heap w2 !! a = Some (ODict (dict_set items k d'))).
    { simpl. apply list_lookup_insert_eq. eapply lookup_lt_Some; eassumption. }
    eexists _, _. split; [reflexivity|]. split; [reflexivity|].
    split; [reflexivity|]. cbn [set_data data].
    split; [|split; [|apply same_settings_set_data]].
    + rewrite (dict_getitem_at a _ k w2 H2). now rewrite dict_get_set_eq.
    + intros k' Hne.
      rewrite (dict_getitem_at a _ k' w2 H2), (dict_getitem_at a _ k' w1 Ha).
      now rewrite (dict_get_set_ne items k k' d') by auto.
  - intros Hno. rewrite (add_data_units_none self d cu w Hno) in Hcu.
    injection Hcu as <- <-. split; reflexivity.
Qed.

Lemma add_data_store_semantics_witness :
  exists sd : Sim_data,
    add_data (PathExample.gyro (VRef 1)) (VRef 0) None (Some Scenario.rad_s3)
      PathExample.keyed
    = (World [Scenario.ones_2x3; ODict [(KInt 0, VRef 0%nat)];
              ONdarray [2; 3]%nat (replicate 6 (1 * (1 / D2R))%float)] [],
       inr sd)
    /\ data sd = VRef 2 /\ same_settings (PathExample.gyro (VRef 1)) sd.
Proof.
  apply (add_data_store_semantics (PathExample.gyro (VRef 1)) (VRef 0) (VRef 2)
           (Some Scenario.rad_s3) PathExample.keyed).
  vm_compute. reflexivity.
Defined.

(** ** The exceptions a computation can raise *)

Section Raises.

Variable P : exn -> Prop.

Lemma ro_ret {A} (a : A) : raises_only P (ret a).
Proof. intros w e H. discriminate H. Qed.

Lemma ro_raise {A} (e : exn) : P e -> raises_only P (@raise A e).
Proof. intros He w e' H. injection H as <-. exact He. Qed.

Lemma ro_bind {A B} (m : M A) (k : A -> M B) :
  raises_only P m -> (forall a, raises_only P (k a)) -> raises_only P (bind m k).
Proof.
  intros Hm Hk w e. unfold bind. specialize (Hm w).
  destruct (m w) as [w1 [e1|a]]; simpl in *.
  - intros H. injection H as <-. now apply Hm.
  - apply Hk.
Qed.

Lemma ro_for_each {A} (l : list A) (body : A -> M unit) :
  (forall a, raises_only P (body a)) -> raises_only P (for_each l body).
Proof.
  intros Hb. induction l as [|a l IH]; simpl.
  - apply ro_ret.
  - apply ro_bind; [apply Hb|intros _; exact IH].
Qed.

Lemma ro_total {A} (m : M A) : (forall w, exists a, snd (m w) = inr a) -> raises_only P m.
Proof. intros Hm w e H. destruct (Hm w) as [a Ha]. congruence. Qed.

Hypothesis P_builtin : forall e, builtin e -> P e.

Lemma ro_of_option {A} (e : exn) (o : option A) : builtin e -> raises_only P (of_option e o).
Proof using P_builtin.
  intros He. destruct o; [apply ro_ret|apply ro_raise, P_builtin, He].
Qed.

Lemma ro_deref (a : nat) : raises_only P (deref a).
Proof using P_builtin.
  intros w e. unfold deref. destruct (heap w !! a); simpl; intros H; [discriminate|].
  injection H as <-. now apply P_builtin.
Qed.

Lemma ro_dict_items (v : value) : raises_only P (dict_items v).
Proof using P_builtin.
  destruct v; try (apply ro_raise, P_builtin; exact I). simpl.
  apply ro_bind; [apply ro_deref|].
  intros [? ?|?]; [apply ro_raise, P_builtin; exact I|apply ro_ret].
Qed.

Lemma ro_dict_getitem (d : value) (k : key) : raises_only P (dict_getitem d k).
Proof using P_builtin.
  apply ro_bind; [apply ro_dict_items|intros; now apply ro_of_option].
Qed.

Lemma ro_dict_setitem (d : value) (k : key) (v : value) : raises_only P (dict_setitem d k v).
Proof using P_builtin.
  destruct d; try (apply ro_raise, P_builtin; exact I). unfold dict_setitem.
  apply ro_bind; [apply ro_dict_items|].
  intros items. apply ro_total. intros w. now exists tt.
Qed.

Lemma ro_get_shape (v : value) : raises_only P (get_shape v).
Proof using P_builtin.
  destruct v; try (apply ro_raise, P_builtin; exact I); try apply ro_ret. simpl.
  apply ro_bind; [apply ro_deref|].
  intros [? ?|?]; [apply ro_ret|apply ro_raise, P_builtin; exact I].
Qed.

Lemma ro_copy (v : value) : raises_only P (copy v).
Proof using P_builtin.
  destruct v; try (apply ro_raise, P_builtin; exact I); try apply ro_ret. simpl.
  apply ro_bind; [apply ro_deref|].
  intros o. apply ro_total. intros w. eexists. reflexivity.
Qed.

Lemma ro_scalar_times (x : value) (s : float) : raises_only P (scalar_times x s).
Proof using P_builtin.
  destruct x; try (apply ro_raise, P_builtin; exact I); try apply ro_ret. simpl.
  apply ro_bind; [now apply ro_of_option|intros; apply ro_ret].
Qed.

Hypothesis P_ndim : forall msg : string,
  P (ValueError ("Input x should be a scalar, 1D or 2D array, ndim = " ++ msg)%string).

Lemma ro_ndim_error (x : value) :
  raises_only P
    (nd <- get_ndim x ;;
     @raise value
       (ValueError ("Input x should be a scalar, 1D or 2D array, ndim = "
                    ++ str_int (Z.of_nat nd))%string))%mon.
Proof using P_builtin P_ndim.
  apply ro_bind.
  - apply ro_bind; [apply ro_get_shape|intros; apply ro_ret].
  - intros nd. apply ro_raise, P_ndim.
Qed.

Lemma ro_convert_unit_ndarray_scalar (x : value) (scale : list float) :
  raises_only P (convert_unit_ndarray_scalar x scale).
Proof using P_builtin P_ndim.
  unfold convert_unit_ndarray_scalar.
  destruct x; try apply ro_ndim_error;
    try (apply ro_bind; [now apply ro_of_option|intros; apply ro_scalar_times]).
  apply ro_bind; [apply ro_deref|].
  intros [shape buf|items]; [|apply ro_ndim_error].
  destruct shape as [|d1 [|d2 [|d3 r]]]; try apply ro_ret.
  apply ro_bind; [now apply ro_of_option|].
  intros s. destruct (negb (is_zero s)); [|apply ro_ret].
  apply ro_total. intros w. eexists. reflexivity.
Qed.

Lemma ro_unit_conversion_scale (src dst : list string) :
  raises_only P (lift (unit_conversion_scale src dst)).
Proof using P_builtin.
  unfold unit_conversion_scale.
  generalize (replicate (length dst) 0%float) as scale.
  induction (seq 0 (length dst)) as [|i idx IH]; intros scale; simpl.
  - apply ro_ret.
  - destruct (src !! i), (dst !! i); try (apply ro_raise, P_builtin; exact I).
    apply IH.
Qed.

Lemma ro_convert_unit (d : value) (src dst : list string) :
  raises_only P (convert_unit d src dst).
Proof using P_builtin P_ndim.
  unfold convert_unit.
  apply ro_bind; [apply ro_unit_conversion_scale|intros scale].
  apply ro_bind; [apply ro_copy|intros x].
  apply ro_bind; [apply ro_total; intros w; eexists; reflexivity|intros isd].
  destruct isd; [|apply ro_convert_unit_ndarray_scalar].
  apply ro_bind; [|intros; apply ro_ret].
  unfold convert_unit_dict.
  apply ro_bind; [apply ro_dict_items|intros items].
  apply ro_for_each. intros i.
  apply ro_bind; [apply ro_dict_getitem|intros v].
  apply ro_bind; [apply ro_convert_unit_ndarray_scalar|intros v'].
  apply ro_dict_setitem.
Qed.

End Raises.

(** The store of lines 116-121 returns, and what a read gives then. *)
Lemma add_data_store_stored (self : Sim_data) (d : value) (key : option key) (w : world) :
  exists (sd : Sim_data) (w2 : world),
    add_data_store self d key w = (w2, inr sd)
    /\ stored sd key d w2 /\ same_settings self sd /\ (key = None -> w2 = w).
Proof.
  destruct key as [k|].
  - unfold add_data_store, bind, isinstance_dict.
    destruct (is_dict (data self) w) eqn:Hd.
    + unfold is_dict in Hd. destruct (data self) as [| | | | |a] eqn:Hdata; try discriminate.
      destruct (heap w !! a) as [[|items]|] eqn:Ha; try discriminate.
      unfold ret. rewrite (dict_setitem_at a items k d w Ha).
      eexists _, _. split; [reflexivity|]. split; [|split; [|discriminate]].
      * cbn [stored]. unfold set_data at 1. cbn [data].
        rewrite (dict_getitem_at a (dict_set items k d) k).
        -- now rewrite dict_get_set_eq.
        -- simpl. apply list_lookup_insert_eq. eapply lookup_lt_Some; eassumption.
      * apply same_settings_set_data.
    + unfold alloc. rewrite dict_setitem_at with (items := []).
      2:{ simpl. now rewrite lookup_app_r, Nat.sub_diag by lia. }
      eexists _, _. split; [reflexivity|]. split; [|split; [|discriminate]].
      * cbn [stored]. unfold set_data at 1. cbn [data].
        rewrite (dict_getitem_at (length (heap w)) (dict_set [] k d) k).
        -- now rewrite dict_get_set_eq.
        -- simpl. rewrite insert_app_r_alt, Nat.sub_diag by lia.
           now rewrite lookup_app_r, Nat.sub_diag by lia.
      * apply same_settings_set_data.
  - eexists _, _. split; [reflexivity|]. split; [reflexivity|].
    split; [apply same_settings_set_data|reflexivity].
Qed.

Lemma convert_unit_not_units_length_error (d : value) (src dst : list string) (w : world) :
  snd (convert_unit d src dst w) <> inl units_length_error.
Proof.
  intros H.
  apply (ro_convert_unit (fun e => e <> units_length_error)) in H.
  - now apply H.
  - intros [msg| | | | | |]; simpl; intros Hb; try contradiction; discriminate.
  - intros msg. simpl. discriminate.
Qed.

(** C6: a write that names caller units raises the error of different
    lengths exactly when the caller's list and the list of the object have
    different lengths, and then nothing has changed; with equal lengths
    and lists that differ, the write stores the conversion of the data
    from the caller's units to the units of the object (a read of the
    payload, at the key when one is named, gives the converted data), and
    fails as the conversion fails, storing nothing; with the units of the
    object, it stores the data as given. *)
Theorem add_data_units_check (self : Sim_data) (d : value) (key : option key)
    (u : list string) (w : world) :
  ((exists w', add_data self d key (Some u) w = (w', inl units_length_error))
   <-> length u <> length (units self))
  /\ (length u <> length (units self) ->
      add_data self d key (Some u) w = (w, inl units_length_error))
  /\ (length u = length (units self) -> u <> units self ->
      add_data self d key (Some u) w
      = (d' <- convert_unit d u (units self) ;; add_data self d' key None)%mon w
      /\ (forall (w1 : world) (d' : value),
            convert_unit d u (units self) w = (w1, inr d') ->
            exists (sd : Sim_data) (w2 : world),
              add_data self d key (Some u) w = (w2, inr sd)
              /\ stored sd key d' w2 /\ same_settings self sd
              /\ (key = None -> w2 = w1))
      /\ (forall (w1 : world) (e : exn),
            convert_unit d u (units self) w = (w1, inl e) ->
            add_data self d key (Some u) w = (w1, inl e)))
  /\ (u = units self ->
      add_data self d key (Some u) w = add_data self d key None w
      /\ exists (sd : Sim_data) (w2 : world),
           add_data self d key (Some u) w = (w2, inr sd)
           /\ stored sd key d w2 /\ same_settings self sd
           /\ (key = None -> w2 = w)).
Proof.
  assert (Hne : length u <> length (units self) ->
                add_data self d key (Some u) w = (w, inl units_length_error)).
  { intros Hl. apply Nat.eqb_neq in Hl.
    unfold add_data, bind, add_data_units. now rewrite Hl. }
  assert (Hconv : length u = length (units self) -> u <> units self ->
                  add_data self d key (Some u) w
                  = (d' <- convert_unit d u (units self) ;; add_data_store self d' key)%mon w).
  { intros Hl Hu. apply Nat.eqb_eq in Hl.
    unfold add_data, bind, add_data_units. rewrite Hl.
    destruct (list_eqb u (units self)) eqn:He.
    - apply list_eqb_eq in He. contradiction.
    - reflexivity. }
  assert (Hsame : u = units self ->
                  add_data self d key (Some u) w = add_data_store self d key w).
  { intros ->. unfold add_data, bind.
    now rewrite add_data_units_none by auto. }
  split; [|split; [exact Hne|split]].
  - split; [|intros Hl; eexists; now apply Hne].
    intros [w' Hrun] Hl.
    destruct (list_eqb u (units self)) eqn:He.
    + apply list_eqb_eq in He. rewrite (Hsame He) in Hrun.
      destruct (add_data_store_stored self d key w) as (sd & w2 & Hst & _).
      rewrite Hst in Hrun. discriminate Hrun.
    + assert (Hu : u <> units self).
      { intros Hu. apply list_eqb_eq in Hu. congruence. }
      rewrite (Hconv Hl Hu) in Hrun. unfold bind in Hrun.
      pose proof (convert_unit_not_units_length_error d u (units self) w) as Hc.
      destruct (convert_unit d u (units self) w) as [w1 [e|d']]; simpl in Hc.
      * injection Hrun as _ ->. now apply Hc.
      * destruct (add_data_store_stored self d' key w1) as (sd & w2 & Hst & _).
        rewrite Hst in Hrun. discriminate Hrun.
  - intros Hl Hu. rewrite (Hconv Hl Hu). split; [reflexivity|split].
    + intros w1 d' Hc. unfold bind. rewrite Hc.
      destruct (add_data_store_stored self d' key w1) as (sd & w2 & Hst & Hs & Hset & Hw).
      now exists sd, w2.
    + intros w1 e Hc. unfold bind. now rewrite Hc.
  - intros Hu. rewrite (Hsame Hu). split; [reflexivity|].
    destruct (add_data_store_stored self d key w) as (sd & w2 & Hst & Hs & Hset & Hw).
    now exists sd, w2.
Qed.

Lemma add_data_units_check_witness :
  add_data (PathExample.gyro (VRef 0)) (VRef 0) None (Some ["deg/s"]%string)
    PathExample.bare
  = (PathExample.bare, inl units_length_error)
  /\ exists (sd : Sim_data) (w2 : world),
       add_data (PathExample.gyro (VRef 1)) (VRef 0) (Some (KInt 5)) (Some Scenario.rad_s3)
         PathExample.keyed
       = (w2, inr sd)
       /\ stored sd (Some (KInt 5)) (VRef 2) w2
       /\ same_settings (PathExample.gyro (VRef 1)) sd
       /\ (Some (KInt 5) = None -> w2
            = World [Scenario.ones_2x3; ODict [(KInt 0, VRef 0%nat)];
                     ONdarray [2; 3]%nat (replicate 6 (1 * (1 / D2R))%float)] []).
Proof.
  split.
  - apply (proj1 (proj2 (add_data_units_check (PathExample.gyro (VRef 0)) (VRef 0) None
                            ["deg/s"]%string PathExample.bare))).
    simpl. lia.
  - apply (proj1 (proj2 (proj1 (proj2 (proj2 (add_data_units_check
                    (PathExample.gyro (VRef 1)) (VRef 0) (Some (KInt 5)) Scenario.rad_s3
                    PathExample.keyed)))
                   eq_refl ltac:(discriminate)))).
    vm_compute. reflexivity.
Defined.

(** ** What a conversion leaves unchanged, and what it overwrites *)

Lemma kept_refl (a : nat) (o : hobj) (w : world) : kept a o w w.
Proof. intros H. exact H. Qed.

Lemma kept_trans (a : nat) (o : hobj) (w1 w2 w3 : world) :
  kept a o w1 w2 -> kept a o w2 w3 -> kept a o w1 w3.
Proof. unfold kept. auto. Qed.

Lemma kept_alloc (a : nat) (o o' : hobj) : stable (kept a o) (alloc o').
Proof. intros w Ha. simpl. now apply lookup_app_l_Some. Qed.

Lemma kept_store_other (a b : nat) (o o' : hobj) :
  a <> b -> stable (kept a o) (store b o').
Proof. intros Hne w Ha. simpl. now rewrite list_lookup_insert_ne by auto. Qed.

(** [convert_unit_ndarray_scalar] writes to no object but a
    two-dimensional array it is given. *)
Lemma kept_convert_unit_ndarray_scalar (a : nat) (o : hobj) (x : value)
    (scale : list float) :
  x <> VRef a \/ is_2d o = false ->
  stable (kept a o) (convert_unit_ndarray_scalar x scale).
Proof.
  intros Hx w Ha. unfold convert_unit_ndarray_scalar.
  destruct x as [| z | f | f | s | b].
  1, 5: unfold bind, get_ndim, get_shape, raise; simpl; exact Ha.
  1, 2, 3: unfold bind, of_option; destruct (scale !! 0%nat); simpl; try exact Ha;
    try (destruct (of_int z); simpl; exact Ha).
  unfold bind, deref. destruct (heap w !! b) as [[shape buf|items]|] eqn:Hb;
    simpl; try exact Ha.
  2: { unfold get_ndim, get_shape, bind, deref. rewrite Hb. simpl. exact Ha. }
  destruct shape as [|d1 [|d2 [|d3 r]]]; simpl; try exact Ha.
  - unfold of_option. destruct (scale !! 0%nat) as [s|]; simpl; try exact Ha.
    destruct (negb (is_zero s)); simpl; try exact Ha. now apply lookup_app_l_Some.
  - destruct (decide (a = b)) as [->|Hne].
    + destruct Hx as [Hx|Hx]; [congruence|].
      rewrite Ha in Hb. injection Hb as ->. discriminate Hx.
    + now rewrite list_lookup_insert_ne by auto.
Qed.

Lemma kept_dict_setitem (a b : nat) (o : hobj) (k : key) (v : value) :
  a <> b -> stable (kept a o) (dict_setitem (VRef b) k v).
Proof.
  intros Hne. unfold dict_setitem.
  apply (stable_bind _ (kept_trans a o)).
  - apply (stable_dict_items _ (kept_refl a o) (kept_trans a o)).
  - intros items. now apply kept_store_other.
Qed.

Lemma kept_convert_unit_dict (a b : nat) (o : hobj) (scale : list float) :
  a <> b -> is_2d o = false ->
  stable (kept a o) (convert_unit_dict (VRef b) scale).
Proof.
  intros Hne Ho. unfold convert_unit_dict.
  apply (stable_bind _ (kept_trans a o)).
  - apply (stable_dict_items _ (kept_refl a o) (kept_trans a o)).
  - intros items. apply (stable_for_each _ (kept_refl a o) (kept_trans a o)). intros i.
    apply (stable_bind _ (kept_trans a o)).
    + apply (stable_dict_getitem _ (kept_refl a o) (kept_trans a o)).
    + intros v. apply (stable_bind _ (kept_trans a o)).
      * apply kept_convert_unit_ndarray_scalar. now right.
      * intros v'. now apply kept_dict_setitem.
Qed.

(** The part of [convert_unit] after the copy. *)
Lemma kept_convert_unit_copied (a : nat) (o : hobj) (x : value) (scale : list float)
    (w : world) :
  x <> VRef a ->
  is_dict x w = false \/ is_2d o = false ->
  kept a o w
    (fst ((isd <- isinstance_dict x ;;
           if isd then convert_unit_dict x scale ;;; ret x
           else convert_unit_ndarray_scalar x scale)%mon w)).
Proof.
  intros Hx Hc. unfold bind at 1, isinstance_dict.
  destruct (is_dict x w) eqn:Hd.
  - destruct Hc as [Hc|Hc]; [discriminate|].
    destruct x as [| | | | |b]; try discriminate Hd.
    apply (stable_bind _ (kept_trans a o)).
    + apply kept_convert_unit_dict; congruence.
    + intros _. apply (stable_ret _ (kept_refl a o)).
  - apply kept_convert_unit_ndarray_scalar. now left.
Qed.

Lemma kept_convert_unit (a : nat) (o : hobj) (d : value) (src dst : list string)
    (w : world) :
  is_dict d w = false \/ is_2d o = false ->
  kept a o w (fst (convert_unit d src dst w)).
Proof.
  intros Hc. unfold convert_unit, bind at 1. rewrite lift_run.
  destruct (unit_conversion_scale src dst) as [e|scale]; [apply kept_refl|].
  unfold bind at 1.
  destruct d as [| | |f| |b]; try apply kept_refl.
  - apply kept_convert_unit_copied; [discriminate|exact Hc].
  - unfold copy, bind at 1, deref.
    destruct (heap w !! b) as [ob|] eqn:Hb; [|apply kept_refl].
    unfold alloc. intros Ha.
    assert (Hlt : (a < length (heap w))%nat) by (eapply lookup_lt_Some; eassumption).
    apply kept_convert_unit_copied.
    + intros H. injection H as H. lia.
    + destruct Hc as [Hc|Hc]; [left|now right].
      unfold is_dict in *. simpl.
      rewrite lookup_app_r, Nat.sub_diag by lia. simpl.
      rewrite Hb in Hc. exact Hc.
    + simpl. now apply lookup_app_l_Some.
Qed.

(** *** The column assignment of a two-dimensional array *)

Lemma scale_columns_app (cols : nat) (scale : list float) (l1 l2 : list nat)
    (buf : list float) :
  List.Forall (fun i => (i < length scale)%nat) l1 ->
  scale_columns cols scale (l1 ++ l2) buf
  = scale_columns cols scale l2 (scale_columns cols scale l1 buf).
Proof.
  intros Hl. revert buf. induction Hl as [|i l1 Hi _ IH]; intros buf; simpl; [reflexivity|].
  destruct (lookup_lt_is_Some_2 scale i Hi) as [s Hs]. rewrite Hs. apply IH.
Qed.

Lemma imap_imap {A B C} (f : nat -> A -> B) (g : nat -> B -> C) (l : list A) :
  imap g (imap f l) = imap (fun j v => g j (f j v)) l.
Proof.
  apply list_eq. intros j. rewrite !list_lookup_imap.
  destruct (l !! j); reflexivity.
Qed.

Lemma imap_ext_lt {A B} (f g : nat -> A -> B) (l : list A) :
  (forall j v, l !! j = Some v -> f j v = g j v) -> imap f l = imap g l.
Proof.
  intros H. apply list_eq. intros j. rewrite !list_lookup_imap.
  destruct (l !! j) as [v|] eqn:Hj; simpl; [|reflexivity]. f_equal. now apply H.
Qed.

Lemma imap_same {A} (f : nat -> A -> A) (l : list A) :
  (forall j v, l !! j = Some v -> f j v = v) -> imap f l = l.
Proof.
  intros H. apply list_eq. intros j. rewrite list_lookup_imap.
  destruct (l !! j) as [v|] eqn:Hj; simpl; [|reflexivity]. f_equal. now apply H.
Qed.

(** The loop over the first [k] columns. *)
Lemma scale_columns_seq (cols : nat) (scale : list float) (buf : list float) :
  forall k : nat,
    (k <= length scale)%nat ->
    scale_columns cols scale (seq 0 k) buf
    = imap (fun j v => if (j mod cols <? k)%nat then scaled_by scale (j mod cols) v else v)
        buf.
Proof.
  induction k as [|k IH]; intros Hk.
  - simpl. symmetry. apply imap_same. reflexivity.
  - rewrite seq_S, scale_columns_app.
    2:{ apply List.Forall_forall. intros i Hi. apply in_seq in Hi. lia. }
    rewrite IH by lia. simpl.
    destruct (lookup_lt_is_Some_2 scale k) as [s Hs]; [lia|]. rewrite Hs.
    assert (Hgoal : forall b : list float,
               (if negb (is_zero s) then scale_column cols k s b else b)
               = imap (fun j v => if (j mod cols =? k)%nat
                                  then scaled_by scale k v else v) b).
    { intros b. unfold scaled_by. rewrite Hs. destruct (is_zero s); simpl.
      - symmetry. apply imap_same. intros j v _.
        now destruct (j mod cols =? k)%nat.
      - reflexivity. }
    rewrite Hgoal, imap_imap. apply imap_ext. intros j v _. cbv beta.
    destruct (Nat.eqb_spec (j mod cols) k) as [->|Hne].
    + rewrite (proj2 (Nat.ltb_ge k k)) by lia.
      now rewrite (proj2 (Nat.ltb_lt k (S k))) by lia.
    + destruct (Nat.ltb_spec (j mod cols) k) as [Hlt|Hge].
      * now rewrite (proj2 (Nat.ltb_lt _ (S k))) by lia.
      * now rewrite (proj2 (Nat.ltb_ge _ (S k))) by lia.
Qed.

(** After the loop of lines 366-368, every element of every column is
    the element it was, times the scale of its column when there is one
    and it is not zero. *)
Lemma scale_columns_all (rows cols : nat) (scale buf : list float) :
  length buf = (rows * cols)%nat ->
  scale_columns cols scale (seq 0 (Nat.min (length scale) cols)) buf
  = imap (fun j v => scaled_by scale (j mod cols) v) buf.
Proof.
  intros Hlen. rewrite scale_columns_seq by lia.
  apply imap_ext_lt. intros j v Hj.
  assert (Hjl : (j < rows * cols)%nat) by (rewrite <- Hlen; eapply lookup_lt_Some; eassumption).
  assert (Hc : (0 < cols)%nat) by (destruct cols; [lia|lia]).
  assert (Hm : (j mod cols < cols)%nat) by (apply Nat.mod_upper_bound; lia).
  destruct (Nat.ltb_spec (j mod cols) (Nat.min (length scale) cols)) as [|Hge];
    [reflexivity|].
  unfold scaled_by. rewrite (lookup_ge_None_2 scale) by lia. reflexivity.
Qed.

Lemma convert_unit_ndarray_scalar_2d (w : world) (a rows cols : nat)
    (buf scale : list float) :
  heap w !! a = Some (ONdarray [rows; cols] buf) ->
  length buf = (rows * cols)%nat ->
  convert_unit_ndarray_scalar (VRef a) scale w
  = (set_heap (<[a := ONdarray [rows; cols]
                         (imap (fun j v => scaled_by scale (j mod cols) v) buf)]> (heap w)) w,
     inr (VRef a)).
Proof.
  intros Ha Hlen. unfold convert_unit_ndarray_scalar, bind at 1.
  rewrite (deref_at a _ w Ha). unfold bind, store, ret.
  now rewrite (scale_columns_all rows cols scale buf Hlen).
Qed.

Lemma scaled_column_lookup (rows cols : nat) (scale buf : list float) (r c : nat)
    (v : float) :
  (c < cols)%nat -> buf !! (r * cols + c)%nat = Some v ->
  imap (fun j v => scaled_by scale (j mod cols) v) buf !! (r * cols + c)%nat
  = Some (scaled_by scale c v).
Proof.
  intros Hc Hv. rewrite list_lookup_imap, Hv. simpl. f_equal.
  replace ((r * cols + c) mod cols)%nat with c; [reflexivity|].
  rewrite Nat.add_comm, Nat.Div0.mod_add. symmetry. now apply Nat.mod_small.
Qed.

(** C1, as stated, fails: convert_unit_ndarray_scalar overwrites the 1x1
    array it is given, and convert_unit overwrites the 1x1 array held by
    the dict it is given; after the call the element 1.0 is pi/180. *)
Lemma conversion_overwrites_2d_array :
  heap (fst (convert_unit_ndarray_scalar (VRef 0) [D2R] FrameExample.world_cell)) !! 0%nat
    <> Some FrameExample.cell
  /\ heap (fst (convert_unit (VRef 1) ["deg"]%string ["rad"]%string
                  FrameExample.world_cell)) !! 0%nat
    <> Some FrameExample.cell.
Proof.
  split; intros H;
    apply (f_equal (fun x => match x with
                             | Some (ONdarray _ (f :: _)) => PrimFloat.eqb f 1
                             | _ => false
                             end)) in H;
    vm_compute in H; discriminate H.
Qed.

(** C1 (amended): convert_unit_ndarray_scalar leaves an object of the heap
    as it was when the object is not its argument or is not a
    two-dimensional array: a one-dimensional array given to it is not
    changed.  A two-dimensional array given to it is overwritten in place
    and returned: every element of a column is multiplied by the scale of
    the column when the scale vector has one and it is not zero, the other
    elements and the shape are as before, and no other object changes.
    convert_unit leaves an object as it was when its argument is not a
    dict or the object is not a two-dimensional array: an array of any
    shape given to convert_unit itself is not changed (it works on a
    copy), and neither is the dict given to it.  The arrays are those of
    the model: float64 arrays that share no memory with one another. *)
Theorem conversion_frame (w : world) :
  (forall (a : nat) (o : hobj) (x : value) (scale : list float),
      heap w !! a = Some o ->
      x <> VRef a \/ is_2d o = false ->
      heap (fst (convert_unit_ndarray_scalar x scale w)) !! a = Some o)
  /\ (forall (a rows cols : nat) (buf scale : list float),
        heap w !! a = Some (ONdarray [rows; cols] buf) ->
        length buf = (rows * cols)%nat ->
        exists buf' : list float,
          convert_unit_ndarray_scalar (VRef a) scale w
          = (set_heap (<[a := ONdarray [rows; cols] buf']> (heap w)) w, inr (VRef a))
          /\ length buf' = length buf
          /\ forall (r c : nat) (v : float),
               (c < cols)%nat -> buf !! (r * cols + c)%nat = Some v ->
               buf' !! (r * cols + c)%nat
               = Some (match scale !! c with
                       | Some s => if is_zero s then v else (v * s)%float
                       | None => v
                       end))
  /\ (forall (a : nat) (o : hobj) (d : value) (src dst : list string),
        heap w !! a = Some o ->
        is_dict d w = false \/ is_2d o = false ->
        heap (fst (convert_unit d src dst w)) !! a = Some o).
Proof.
  split; [|split].
  - intros a o x scale Ha Hx.
    now apply (kept_convert_unit_ndarray_scalar a o x scale Hx w).
  - intros a rows cols buf scale Ha Hlen. eexists. split; [|split].
    + apply (convert_unit_ndarray_scalar_2d w a rows cols buf scale Ha Hlen).
    + apply length_imap.
    + intros r c v Hc Hv. apply (scaled_column_lookup rows cols scale buf r c v Hc Hv).
  - intros a o d src dst Ha Hd. now apply (kept_convert_unit a o d src dst w Hd).
Qed.

Lemma conversion_frame_witness :
  heap (fst (convert_unit (VRef 0) ["deg"]%string ["rad"]%string FrameExample.world_cell))
    !! 0%nat
  = Some FrameExample.cell
  /\ exists buf' : list float,
       convert_unit_ndarray_scalar (VRef 0) [D2R; 0%float]
         (World [ONdarray [1; 3]%nat [1; 2; 3]%float] [])
       = (set_heap (<[0%nat := ONdarray [1; 3]%nat buf']>
                      (heap (World [ONdarray [1; 3]%nat [1; 2; 3]%float] [])))
            (World [ONdarray [1; 3]%nat [1; 2; 3]%float] []),
          inr (VRef 0))
       /\ length buf' = length [1; 2; 3]%float
       /\ forall (r c : nat) (v : float),
            (c < 3)%nat -> [1; 2; 3]%float !! (r * 3 + c)%nat = Some v ->
            buf' !! (r * 3 + c)%nat
            = Some (match [D2R; 0%float] !! c with
                    | Some s => if is_zero s then v else (v * s)%float
                    | None => v
                    end).
Proof.
  split.
  - apply (proj2 (proj2 (conversion_frame FrameExample.world_cell))
             0%nat FrameExample.cell (VRef 0) ["deg"]%string ["rad"]%string).
    + reflexivity.
    + left. reflexivity.
  - apply (proj1 (proj2 (conversion_frame (World [ONdarray [1; 3]%nat [1; 2; 3]%float] [])))
             0%nat 1%nat 3%nat [1; 2; 3]%float [D2R; 0%float]); reflexivity.
Defined.

(** ** Plotting against a reference: arrays of the same shape *)

Section Broadcast.

Lemma size_app (s1 s2 : list nat) : Np.size (s1 ++ s2) = (Np.size s1 * Np.size s2)%nat.
Proof.
  unfold Np.size. induction s1 as [|d s1 IH]; simpl; [lia|].
  rewrite IH. lia.
Qed.

Lemma size_rev (s : list nat) : Np.size (rev s) = Np.size s.
Proof.
  induction s as [|d s IH]; simpl; [reflexivity|].
  rewrite size_app, IH. unfold Np.size. simpl. lia.
Qed.

Lemma broadcast_rev_same (s : list nat) : Np.broadcast_rev s s = Some s.
Proof.
  induction s as [|d s IH]; simpl; [reflexivity|].
  now rewrite IH, Nat.eqb_refl.
Qed.

(** The position of an element in an operand that has the shape of the
    result is its position in the result. *)
Lemma offset_unravel (s : list nat) :
  forall j : nat, (j < Np.size s)%nat -> Np.offset_rev s (Np.unravel_rev s j) = j.
Proof.
  induction s as [|d s IH]; intros j Hj; simpl in *.
  - unfold Np.size in Hj. simpl in Hj. lia.
  - change (fold_right Nat.mul 1%nat (d :: s)) with (d * Np.size s)%nat in Hj.
    assert (Hd : d <> 0%nat) by (intros ->; lia).
    assert (Hq : (j / d < Np.size s)%nat) by (apply Nat.Div0.div_lt_upper_bound; lia).
    rewrite (IH _ Hq).
    destruct (Nat.eqb_spec d 1) as [->|Hne].
    + rewrite Nat.div_1_r. lia.
    + pose proof (Nat.div_mod_eq j d). lia.
Qed.

Lemma broadcast2_same_shape (f : float -> float -> float) (s : list nat)
    (b1 b2 : list float) :
  length b1 = Np.size s -> length b2 = Np.size s ->
  Np.broadcast2 f s b1 s b2 = Some (s, zip_with f b1 b2).
Proof.
  intros H1 H2. unfold Np.broadcast2.
  rewrite broadcast_rev_same, rev_involutive, size_rev. f_equal. f_equal.
  apply list_eq. intros i.
  rewrite list_lookup_fmap, lookup_zip_with.
  destruct (decide (i < Np.size s)%nat) as [Hi|Hi].
  - rewrite lookup_seq_lt by assumption. simpl.
    rewrite offset_unravel by (now rewrite size_rev).
    destruct (lookup_lt_is_Some_2 b1 i) as [x Hx]; [lia|].
    destruct (lookup_lt_is_Some_2 b2 i) as [y Hy]; [lia|].
    rewrite Hx, Hy. simpl.
    now rewrite (nth_lookup_Some _ _ _ _ Hx), (nth_lookup_Some _ _ _ _ Hy).
  - rewrite lookup_seq_ge by lia. simpl.
    rewrite (lookup_ge_None_2 b1) by lia. reflexivity.
Qed.

End Broadcast.

Lemma operand_of_array (a : nat) (s : list nat) (buf : list float) (w : world) :
  heap w !! a = Some (ONdarray s buf) ->
  Np.operand_of (VRef a) w = (w, inr (Np.OpArr s buf)).
Proof. intros Ha. unfold Np.operand_of, bind. now rewrite (deref_at a _ w Ha). Qed.

(** The difference of two arrays of the same shape (at least one
    dimension) is a new array, element by element. *)
Lemma np_sub_same_shape (a b : nat) (d : nat) (s : list nat) (buf bufr : list float)
    (w : world) :
  heap w !! a = Some (ONdarray (d :: s) buf) ->
  heap w !! b = Some (ONdarray (d :: s) bufr) ->
  length buf = Np.size (d :: s) -> length bufr = Np.size (d :: s) ->
  Np.sub (VRef a) (VRef b) w
  = (set_heap (heap w ++ [ONdarray (d :: s) (zip_with PrimFloat.sub buf bufr)]) w,
     inr (VRef (length (heap w)))).
Proof.
  intros Ha Hb Hl Hlr.
  unfold Np.sub, bind.
  rewrite (operand_of_array a _ _ w Ha), (operand_of_array b _ _ w Hb).
  unfold Np.as_array, ret. cbn [fst snd].
  rewrite (broadcast2_same_shape PrimFloat.sub (d :: s) buf bufr Hl Hlr).
  reflexivity.
Qed.

Lemma list_eqb_refl (l : list string) : list_eqb l l = true.
Proof. now apply list_eqb_eq. Qed.

(** For a data set in rad, rad, rad, when the difference is an array (of
    one dimension or more), the body of the try statement allocates the
    array of the wraps of its elements and returns it; the except clause
    does not run. *)
Lemma subtract_ref_wraps (self : Sim_data) (y_data ref_data : value)
    (handler : value -> M value) (w w1 : world) (c : nat) (shape : list nat)
    (diff : list float) :
  units self = rad3 ->
  Np.sub y_data ref_data w = (w1, inr (VRef c)) ->
  heap w1 !! c = Some (ONdarray shape diff) -> shape <> [] ->
  subtract_ref self y_data ref_data handler w
  = (with_wrap shape diff w1, inr (VRef (length (heap w1)))).
Proof.
  intros Hu Hsub Hc Hs.
  unfold subtract_ref, bind at 1, try_except at 1. rewrite Hsub.
  rewrite Hu, list_eqb_refl.
  unfold bind at 1, try_except at 1, Np.mod_float, bind at 1.
  rewrite (operand_of_array c _ _ w1 Hc).
  destruct shape as [|d s]; [congruence|].
  unfold Np.np_result, alloc.
  set (w2 := set_heap (heap w1 ++ [ONdarray (d :: s) (map (fun v => remainder v TWO_PI) diff)]) w1).
  assert (H2 : heap w2 !! length (heap w1)
               = Some (ONdarray (d :: s) (map (fun v => remainder v TWO_PI) diff))).
  { simpl. now rewrite lookup_app_r, Nat.sub_diag by lia. }
  unfold try_except, Np.reduce_above, bind. rewrite (deref_at _ _ w2 H2).
  unfold store, ret, with_wrap, set_heap. cbn [fst snd heap trace w2 set_heap].
  rewrite insert_app_r_alt, Nat.sub_diag by lia. simpl.
  now rewrite map_map.
Qed.

(** When the difference is a numpy scalar, the assignment through the
    index fails and the except clause runs: a plot of scalars against a
    reference draws nothing. *)
Lemma subtract_ref_scalar (self : Sim_data) (y_data ref_data : value)
    (handler : value -> M value) (w w1 : world) (f : float) :
  units self = rad3 ->
  Np.sub y_data ref_data w = (w1, inr (VNpFloat f)) ->
  subtract_ref self y_data ref_data handler w
  = handler (VNpFloat (remainder f TWO_PI)) w1.
Proof.
  intros Hu Hsub.
  unfold subtract_ref, bind at 1, try_except at 1. rewrite Hsub.
  rewrite Hu, list_eqb_refl. reflexivity.
Qed.

Lemma reads_x_data_any (x : Sim_data) : reads (x_data_any x).
Proof. unfold x_data_any. reads_tac. Qed.

(** ** Binary64 arithmetic: rounding stays below a representable bound *)

Section Binary64.

Lemma emin64_val : emin64 = -1074.
Proof. reflexivity. Qed.

Lemma digits_pos (m : positive) : 1 <= digits m.
Proof. unfold digits. lia. Qed.

Lemma digits_bounds (m : positive) :
  2 ^ (digits m - 1) <= Z.pos m < 2 ^ digits m.
Proof.
  unfold digits. induction m as [p IH|p IH|]; simpl digits2_pos.
  - rewrite Pos2Z.inj_succ.
    replace (Z.succ (Z.pos (digits2_pos p)) - 1) with (Z.succ (Z.pos (digits2_pos p) - 1)) by lia.
    rewrite !Z.pow_succ_r by lia. lia.
  - rewrite Pos2Z.inj_succ.
    replace (Z.succ (Z.pos (digits2_pos p)) - 1) with (Z.succ (Z.pos (digits2_pos p) - 1)) by lia.
    rewrite !Z.pow_succ_r by lia. lia.
  - simpl. lia.
Qed.

Lemma digits_unique (m : positive) (d : Z) :
  2 ^ (d - 1) <= Z.pos m < 2 ^ d -> digits m = d.
Proof.
  intros [Hlo Hhi]. pose proof (digits_bounds m) as [Dlo Dhi].
  pose proof (digits_pos m) as D1.
  destruct (Z.lt_trichotomy (digits m) d) as [Hlt|[Heq|Hgt]]; [|exact Heq|].
  - assert (2 ^ digits m <= 2 ^ (d - 1)) by (apply Z.pow_le_mono_r; lia). lia.
  - assert (d < 0 \/ 0 <= d) as [Hn|Hn] by lia.
    + rewrite (Z.pow_neg_r 2 d) in Hhi by lia. lia.
    + assert (2 ^ d <= 2 ^ (digits m - 1)) by (apply Z.pow_le_mono_r; lia). lia.
Qed.

(** A mantissa shifted to the left. *)
Lemma iter_xO (m d : positive) : Z.pos (Pos.iter xO m d) = Z.pos m * 2 ^ Z.pos d.
Proof.
  induction d as [|d IH] using Pos.peano_ind.
  - simpl. lia.
  - rewrite Pos.iter_succ, Pos2Z.inj_succ, Z.pow_succ_r by lia.
    rewrite Pos2Z.inj_xO, IH. lia.
Qed.

Lemma shl_align_spec (mx : positive) (ex ez : Z) :
  ez <= ex ->
  shl_align mx ex ez = (fst (shl_align mx ex ez), ez)
  /\ Z.pos (fst (shl_align mx ex ez)) = Z.pos mx * 2 ^ (ex - ez).
Proof.
  intros Hle. unfold shl_align.
  destruct (ez - ex) as [|p|p] eqn:Hd; try lia.
  - assert (ez = ex) by lia. subst. simpl. rewrite Z.sub_diag, Z.pow_0_r. split; [reflexivity|lia].
  - simpl. rewrite iter_xO. split; [reflexivity|].
    replace (ex - ez) with (Z.pos p); [reflexivity|].
    rewrite <- Pos2Z.opp_neg, <- Hd. lia.
Qed.

(** Iteration by a positive number, as iteration by a natural number. *)
Lemma iter_pos_nat {A : Type} (f : A -> A) (p : positive) :
  forall x : A, SpecFloat.iter_pos f p x = Nat.iter (Pos.to_nat p) f x.
Proof.
  induction p as [p IH|p IH|]; intros x; simpl SpecFloat.iter_pos.
  - rewrite !IH, Pos2Nat.inj_xI.
    replace (S (2 * Pos.to_nat p)) with (Pos.to_nat p + (Pos.to_nat p + 1))%nat by lia.
    rewrite !Nat.iter_add. reflexivity.
  - rewrite !IH, Pos2Nat.inj_xO.
    replace (2 * Pos.to_nat p)%nat with (Pos.to_nat p + Pos.to_nat p)%nat by lia.
    rewrite Nat.iter_add. reflexivity.
  - reflexivity.
Qed.

(** One shift to the right halves the mantissa. *)
Lemma shr_1_spec (m : Z) (r s : bool) :
  0 <= m ->
  shr_1 (Build_shr_record m r s) = Build_shr_record (m / 2) (Z.odd m) (r || s).
Proof.
  intros Hm. destruct m as [|[p|p|]|p]; try lia; simpl shr_1.
  - reflexivity.
  - f_equal. rewrite Pos2Z.inj_xI. apply Z.div_unique with (r := 1); lia.
  - f_equal. rewrite Pos2Z.inj_xO. apply Z.div_unique with (r := 0); lia.
  - reflexivity.
Qed.

(** [n] shifts to the right divide by [2 ^ n]; the bits shifted out are
    zero when the division is exact. *)
Lemma shr_iter (m0 : Z) (n : nat) :
  0 <= m0 ->
  let rec := Nat.iter n shr_1 (Build_shr_record m0 false false) in
  shr_m rec = m0 / 2 ^ Z.of_nat n
  /\ (m0 mod 2 ^ Z.of_nat n = 0 -> shr_r rec = false /\ shr_s rec = false).
Proof.
  intros Hm. induction n as [|n IH]; simpl Nat.iter.
  - simpl. rewrite Z.div_1_r. auto.
  - destruct IH as [IHm IHx].
    destruct (Nat.iter n shr_1 (Build_shr_record m0 false false)) as [m r s] eqn:Hit.
    cbn [shr_m shr_r shr_s] in IHm, IHx.
    assert (H0 : 0 <= m).
    { rewrite IHm. apply Z.div_pos; [lia|]. apply Z.pow_pos_nonneg; lia. }
    rewrite (shr_1_spec m r s H0). cbn [shr_m shr_r shr_s].
    assert (Hp : 0 < 2 ^ Z.of_nat n) by (apply Z.pow_pos_nonneg; lia).
    rewrite Nat2Z.inj_succ, Z.pow_succ_r by lia.
    split.
    + rewrite IHm, Z.div_div by lia. f_equal. lia.
    + intros Hmod.
      set (P := 2 ^ Z.of_nat n) in *.
      assert (Hm0 : m0 = (2 * (m0 / (2 * P))) * P).
      { apply Z.div_exact in Hmod; [|lia]. rewrite Hmod at 1. ring. }
      assert (Hmod' : m0 mod P = 0).
      { rewrite Hm0. apply Z.mod_mul. lia. }
      destruct (IHx Hmod') as [-> ->].
      split; [|reflexivity].
      rewrite IHm, Hm0, Z.div_mul by lia.
      rewrite Z.odd_mul. reflexivity.
Qed.

Lemma round_nearest_even_bounds (m : Z) (l : location) :
  m <= round_nearest_even m l <= m + 1.
Proof.
  destruct l as [|[| |]]; simpl; try lia.
  destruct (Z.even m); lia.
Qed.

Lemma fexp_eq (x : Z) : SpecFloat.fexp prec emax x = Z.max (x - 53) emin64.
Proof. reflexivity. Qed.

Lemma canonical_spec (m : positive) (e : Z) :
  canonical_mantissa prec emax m e = true <-> Z.max (digits m + e - 53) emin64 = e.
Proof.
  unfold canonical_mantissa. rewrite fexp_eq. fold (digits m). apply Z.eqb_eq.
Qed.

Lemma bounded_spec (m : positive) (e : Z) :
  bounded prec emax m e = true
  <-> Z.max (digits m + e - 53) emin64 = e /\ e <= 971.
Proof.
  unfold bounded. rewrite andb_true_iff, canonical_spec, Z.leb_le. reflexivity.
Qed.

Lemma pow2_pos (x : Z) : 0 <= x -> 0 < 2 ^ x.
Proof. intros. apply Z.pow_pos_nonneg; lia. Qed.

Lemma pow2_split (a b : Z) : 0 <= a -> 0 <= b -> 2 ^ (a + b) = 2 ^ a * 2 ^ b.
Proof. intros. apply Z.pow_add_r; lia. Qed.

(** Between canonical representations, a smaller value has a smaller or
    equal exponent. *)
Lemma canonical_le_exp (m mB : positive) (e eB : Z) :
  Z.max (digits m + e - 53) emin64 = e ->
  Z.max (digits mB + eB - 53) emin64 = eB ->
  scaled (Z.pos m) e <= scaled (Z.pos mB) eB ->
  e <= eB.
Proof.
  intros Hc HcB Hle.
  destruct (Z_le_gt_dec e eB) as [H|Hgt]; [exact H|exfalso].
  assert (Hd : digits m = 53) by lia.
  assert (HdB : digits mB <= 53) by lia.
  pose proof (digits_bounds m) as [Hlo _]. rewrite Hd in Hlo. simpl in Hlo.
  pose proof (digits_bounds mB) as [_ Hhi].
  assert (HB : Z.pos mB < 2 ^ 53).
  { eapply Z.lt_le_trans; [exact Hhi|]. apply Z.pow_le_mono_r; lia. }
  unfold scaled in Hle.
  replace (e - emin64) with ((e - eB) + (eB - emin64)) in Hle by lia.
  rewrite pow2_split in Hle by lia.
  assert (HE : 0 < 2 ^ (eB - emin64)) by (apply pow2_pos; lia).
  assert (HQ : 2 ^ 1 <= 2 ^ (e - eB)) by (apply Z.pow_le_mono_r; lia).
  change (2 ^ 1) with 2 in HQ. change (2 ^ 53) with 9007199254740992 in HB.
  set (E := 2 ^ (eB - emin64)) in *. set (Q := 2 ^ (e - eB)) in *.
  assert (HmQ : Z.pos m * Q <= Z.pos mB).
  { apply (Z.mul_le_mono_pos_r _ _ E HE). lia. }
  nia.
Qed.

(** The first step of a rounding: the mantissa is shifted to the right up
    to the canonical exponent of the value. *)
Lemma shr_fexp_spec (m : positive) (e : Z) :
  let k := Z.max 0 (SpecFloat.fexp prec emax (digits m + e) - e) in
  exists rec : shr_record,
    shr_fexp prec emax (Z.pos m) e loc_Exact = (rec, e + k)
    /\ shr_m rec = Z.pos m / 2 ^ k
    /\ (Z.pos m mod 2 ^ k = 0 -> loc_of_shr_record rec = loc_Exact).
Proof.
  intros k. unfold shr_fexp, shr. cbn [Zdigits2 shr_record_of_loc]. fold (digits m).
  destruct (SpecFloat.fexp prec emax (digits m + e) - e) as [|p|p] eqn:Hk; subst k.
  - exists (Build_shr_record (Z.pos m) false false).
    rewrite Z.add_0_r. simpl. rewrite Z.div_1_r. auto.
  - rewrite iter_pos_nat.
    pose proof (shr_iter (Z.pos m) (Pos.to_nat p) ltac:(lia)) as [Hm Hx].
    rewrite positive_nat_Z in Hm, Hx.
    eexists. split; [f_equal; lia|].
    replace (Z.max 0 (Z.pos p)) with (Z.pos p) by lia.
    split; [exact Hm|].
    intros Hmod. destruct (Hx Hmod) as [Hr Hs].
    destruct (Nat.iter _ _ _) as [m1 r1 s1]. simpl in *. now subst.
  - exists (Build_shr_record (Z.pos m) false false).
    replace (Z.max 0 (Z.neg p)) with 0 by lia.
    rewrite Z.add_0_r. simpl. rewrite Z.div_1_r. auto.
Qed.

(** Rounding to nearest of a positive value that is not above a
    representable bound gives a finite number, in canonical form, that is
    not above the bound. *)
Lemma binary_round_aux_bound (sgn : bool) (mz mB : positive) (ez eB : Z) :
  emin64 <= ez ->
  ez <= SpecFloat.fexp prec emax (digits mz + ez) ->
  Z.max (digits mB + eB - 53) emin64 = eB -> eB <= 971 ->
  scaled (Z.pos mz) ez <= scaled (Z.pos mB) eB ->
  exists (m' : positive) (e' : Z),
    binary_round_aux prec emax sgn (Z.pos mz) ez loc_Exact = S754_finite sgn m' e'
    /\ bounded prec emax m' e' = true
    /\ scaled (Z.pos m') e' <= scaled (Z.pos mB) eB.
Proof.
  intros Hez Hf HcB HeB Hle.
  unfold binary_round_aux.
  destruct (shr_fexp_spec mz ez) as (rec1 & Hs1 & Hm1 & Hx1).
  rewrite Hs1. clear Hs1.
  rewrite fexp_eq in *.
  set (d := digits mz) in *.
  set (k := Z.max 0 (Z.max (d + ez - 53) emin64 - ez)) in *.
  set (m2 := round_nearest_even (shr_m rec1) (loc_of_shr_record rec1)).
  pose proof (round_nearest_even_bounds (shr_m rec1) (loc_of_shr_record rec1)) as Hm2.
  fold m2 in Hm2.
  pose proof (digits_bounds mz) as [Dlo Dhi]. fold d in Dlo, Dhi.
  pose proof (digits_pos mz) as Hd1. fold d in Hd1.
  pose proof (digits_bounds mB) as [_ DBhi].
  assert (HmB : Z.pos mB < 2 ^ 53).
  { eapply Z.lt_le_trans; [exact DBhi|]. apply Z.pow_le_mono_r; lia. }
  change (2 ^ 53) with 9007199254740992 in HmB.
  assert (HA : 0 < 2 ^ (ez - emin64)) by (apply pow2_pos; lia).
  assert (HEB : 0 < 2 ^ (eB - emin64)) by (apply pow2_pos; lia).
  unfold scaled in Hle.
  destruct (Z.eq_dec k 0) as [Hk|Hk].
  - (* no shift: the value is representable *)
    rewrite Hk in *. rewrite Z.pow_0_r, Z.div_1_r in Hm1.
    rewrite Z.mod_1_r in Hx1. specialize (Hx1 eq_refl).
    assert (Hm2' : m2 = Z.pos mz).
    { unfold m2. rewrite Hx1, Hm1. reflexivity. }
    rewrite Hm2'. rewrite Z.add_0_r.
    destruct (shr_fexp_spec mz ez) as (rec2 & Hs2 & Hm2b & _).
    rewrite fexp_eq in Hs2, Hm2b. fold d in Hs2, Hm2b. fold k in Hs2, Hm2b.
    rewrite Hk in Hs2, Hm2b. rewrite Z.add_0_r in Hs2.
    rewrite Z.pow_0_r, Z.div_1_r in Hm2b.
    rewrite Hs2, Hm2b.
    assert (Hc : Z.max (d + ez - 53) emin64 = ez) by lia.
    assert (Hexp : ez <= eB).
    { apply (canonical_le_exp mz mB); auto. }
    replace (ez <=? emax - prec) with true by (symmetry; apply Z.leb_le; unfold emax, prec; lia).
    exists mz, ez. split; [reflexivity|]. split; [|exact Hle].
    apply bounded_spec. fold d. lia.
  - (* a shift by k = d - 53 *)
    assert (Hkd : k = d - 53) by lia.
    assert (Hk0 : 0 < k) by lia.
    set (e1 := ez + k) in *.
    assert (HP : 0 < 2 ^ k) by (apply pow2_pos; lia).
    assert (Hpow : 2 ^ (d - 1) = 2 ^ k * 2 ^ 52).
    { rewrite <- pow2_split by lia. f_equal. lia. }
    assert (Hpow' : 2 ^ d = 2 ^ k * 2 ^ 53).
    { rewrite <- pow2_split by lia. f_equal. lia. }
    change (2 ^ 52) with 4503599627370496 in Hpow.
    change (2 ^ 53) with 9007199254740992 in Hpow'.
    set (m1 := shr_m rec1) in *.
    set (P := 2 ^ k) in *.
    assert (Hdm : Z.pos mz = P * m1 + Z.pos mz mod P).
    { rewrite Hm1. apply Z.div_mod. lia. }
    assert (Hrem : 0 <= Z.pos mz mod P < P) by (apply Z.mod_pos_bound; lia).
    assert (Hm1lo : 4503599627370496 <= m1) by nia.
    assert (Hm1hi : m1 < 9007199254740992) by nia.
    assert (He1 : 2 ^ (e1 - emin64) = P * 2 ^ (ez - emin64)).
    { unfold P. rewrite <- pow2_split by lia. f_equal. unfold e1. lia. }
    set (A := 2 ^ (ez - emin64)) in *.
    (* the exponent is not above the exponent of the bound *)
    assert (Hexp : e1 <= eB).
    { destruct (Z_le_gt_dec e1 eB) as [H|Hgt]; [exact H|exfalso].
      assert (HQ : 2 ^ (e1 - emin64) = 2 ^ (e1 - eB) * 2 ^ (eB - emin64)).
      { rewrite <- pow2_split by lia. f_equal. lia. }
      assert (HQ2 : 2 ^ 1 <= 2 ^ (e1 - eB)) by (apply Z.pow_le_mono_r; lia).
      change (2 ^ 1) with 2 in HQ2.
      set (E := 2 ^ (eB - emin64)) in *. set (Q := 2 ^ (e1 - eB)) in *.
      assert (Z.pos mB * E < 4503599627370496 * (Q * E)) by nia.
      assert (4503599627370496 * (P * A) <= Z.pos mz * A) by nia.
      rewrite <- HQ, He1 in H. lia. }
    (* the bound in units of the new exponent *)
    assert (HB : 2 ^ (eB - emin64) = 2 ^ (eB - e1) * (P * A)).
    { rewrite <- He1, <- pow2_split by lia. f_equal. lia. }
    assert (HR : 0 < 2 ^ (eB - e1)) by (apply pow2_pos; lia).
    set (MB := Z.pos mB * 2 ^ (eB - e1)).
    assert (HmzMB : Z.pos mz <= MB * P).
    { apply (Z.mul_le_mono_pos_r _ _ A HA). unfold MB. rewrite HB in Hle. nia. }
    assert (Hm2MB : m2 <= MB).
    { destruct (Z.eq_dec (Z.pos mz mod P) 0) as [Hex|Hnex].
      - assert (m2 = m1) as ->.
        { unfold m2. rewrite (Hx1 Hex). reflexivity. }
        nia.
      - assert (m1 < MB) by nia. lia. }
    assert (Hm2pos : 4503599627370496 <= m2 <= 9007199254740992) by lia.
    destruct m2 as [|p2|p2] eqn:Hp2; try lia.
    destruct (shr_fexp_spec p2 e1) as (rec2 & Hs2 & Hm3 & _).
    rewrite fexp_eq in Hs2, Hm3. fold e1. rewrite Hs2. clear Hs2.
    destruct (Z.eq_dec (Z.pos p2) 9007199254740992) as [Hcarry|Hnc].
    + (* the rounding carried to 2 ^ 53 *)
      assert (Hd2 : digits p2 = 54).
      { apply digits_unique. rewrite Hcarry. simpl. lia. }
      rewrite Hd2 in *.
      replace (Z.max 0 (Z.max (54 + e1 - 53) emin64 - e1)) with 1 in * by lia.
      rewrite Hcarry in Hm3. change (9007199254740992 / 2 ^ 1) with 4503599627370496 in Hm3.
      rewrite Hm3.
      assert (He3 : e1 + 1 <= eB).
      { destruct (Z_le_gt_dec (e1 + 1) eB) as [H|Hgt]; [exact H|exfalso].
        unfold MB in Hm2MB. replace (eB - e1) with 0 in Hm2MB by lia.
        rewrite Z.pow_0_r in Hm2MB. lia. }
      replace (e1 + 1 <=? emax - prec) with true
        by (symmetry; apply Z.leb_le; unfold emax, prec; lia).
      exists 4503599627370496%positive, (e1 + 1). split; [reflexivity|]. split.
      * apply bounded_spec. change (digits 4503599627370496) with 53. lia.
      * unfold scaled. replace (e1 + 1 - emin64) with (1 + (e1 - emin64)) by lia.
        rewrite pow2_split, He1, HB by lia. change (2 ^ 1) with 2.
        unfold MB in Hm2MB. nia.
    + assert (Hd2 : digits p2 = 53).
      { apply digits_unique. simpl. lia. }
      rewrite Hd2 in *.
      replace (Z.max 0 (Z.max (53 + e1 - 53) emin64 - e1)) with 0 in * by lia.
      rewrite Z.pow_0_r, Z.div_1_r in Hm3. rewrite Hm3, Z.add_0_r.
      replace (e1 <=? emax - prec) with true
        by (symmetry; apply Z.leb_le; unfold emax, prec; lia).
      exists p2, e1. split; [reflexivity|]. split.
      * apply bounded_spec. rewrite Hd2. lia.
      * unfold scaled. rewrite He1, HB. unfold MB in Hm2MB. nia.
Qed.

Lemma binary_round_bound (sgn : bool) (mx mB : positive) (ex eB : Z) :
  emin64 <= ex ->
  bounded prec emax mB eB = true ->
  scaled (Z.pos mx) ex <= scaled (Z.pos mB) eB ->
  exists (m' : positive) (e' : Z),
    binary_round prec emax sgn mx ex = S754_finite sgn m' e'
    /\ bounded prec emax m' e' = true
    /\ scaled (Z.pos m') e' <= scaled (Z.pos mB) eB.
Proof.
  intros Hex HB Hle. apply bounded_spec in HB as [HcB HeB].
  unfold binary_round. fold (digits mx). rewrite fexp_eq.
  set (f0 := Z.max (digits mx + ex - 53) emin64).
  destruct (Z_le_gt_dec f0 ex) as [Hf|Hf].
  - destruct (shl_align_spec mx ex f0 Hf) as [Hsh Hmz].
    rewrite Hsh. set (mz := fst (shl_align mx ex f0)) in *.
    assert (Hp : 0 < 2 ^ (ex - f0)) by (apply pow2_pos; lia).
    assert (Hdz : digits mz = digits mx + (ex - f0)).
    { apply digits_unique. rewrite Hmz.
      pose proof (digits_bounds mx) as [Dlo Dhi]. pose proof (digits_pos mx).
      replace (digits mx + (ex - f0) - 1) with ((digits mx - 1) + (ex - f0)) by lia.
      rewrite !pow2_split by lia. nia. }
    apply binary_round_aux_bound; auto.
    + unfold f0. lia.
    + rewrite fexp_eq, Hdz. unfold f0. lia.
    + unfold scaled in *. rewrite Hmz.
      replace (ex - emin64) with ((ex - f0) + (f0 - emin64)) in Hle by lia.
      rewrite pow2_split in Hle by (unfold f0; lia). lia.
  - assert (Hsh : shl_align mx ex f0 = (mx, ex)).
    { unfold shl_align. destruct (f0 - ex) eqn:Hd; try reflexivity. lia. }
    rewrite Hsh. apply binary_round_aux_bound; auto.
    rewrite fexp_eq. fold f0. lia.
Qed.

Lemma Prim2SF_TWO_PI : Prim2SF TWO_PI = S754_finite false mant_pi (-50).
Proof. vm_compute. reflexivity. Qed.

Lemma Prim2SF_math_pi : Prim2SF math_pi = S754_finite false mant_pi (-51).
Proof. vm_compute. reflexivity. Qed.

Lemma Prim2SF_neg_pi : Prim2SF (- math_pi) = S754_finite true mant_pi (-51).
Proof. vm_compute. reflexivity. Qed.

Lemma Prim2SF_zero : Prim2SF 0 = S754_zero false.
Proof. vm_compute. reflexivity. Qed.

Lemma bounded_two_pi : bounded prec emax mant_pi (-50) = true.
Proof. reflexivity. Qed.

Lemma within_exp (m : positive) (e : Z) :
  within_two_pi m e -> emin64 <= e <= -50.
Proof.
  intros [Hb Hle]. apply bounded_spec in Hb as [Hc _].
  pose proof emin64_val as Hemin.
  split; [lia|].
  apply (canonical_le_exp m mant_pi e (-50)); auto.
Qed.

Lemma fmod_two_pi (y : float) :
  Prim2SF (fmod y TWO_PI) = S754_nan
  \/ (exists s, Prim2SF (fmod y TWO_PI) = S754_zero s)
  \/ (exists s m e, Prim2SF (fmod y TWO_PI) = S754_finite s m e /\ within_two_pi m e).
Proof.
  unfold fmod. rewrite Prim2SF_TWO_PI.
  pose proof (Prim2SF_valid y) as Hv.
  destruct (Prim2SF y) as [s|s| |s m e]; unfold SFfmod; cbv zeta.
  - right. left. exists s. now rewrite Prim2SF_SF2Prim.
  - left. now rewrite Prim2SF_SF2Prim.
  - left. now rewrite Prim2SF_SF2Prim.
  - simpl in Hv. apply bounded_spec in Hv as [Hc He].
    pose proof emin64_val as Hemin.
    set (e0 := Z.min e (-50)).
    assert (He0 : emin64 <= e0) by (unfold e0; lia).
    set (X := Z.pos m * 2 ^ (e - e0)).
    set (Y := Z.pos mant_pi * 2 ^ (-50 - e0)).
    assert (HY : 0 < Y).
    { unfold Y. apply Z.mul_pos_pos; [lia|]. apply pow2_pos. unfold e0. lia. }
    pose proof (Z.mod_pos_bound X Y HY) as Hmod.
    destruct (X mod Y) as [|r|r] eqn:Hr; try lia.
    + right. left. exists s. now rewrite Prim2SF_SF2Prim.
    + assert (Hbr : binary_normalize prec emax (cond_Zopp s (Z.pos r)) e0 s
                    = binary_round prec emax s r e0) by (now destruct s).
      rewrite Hbr.
      destruct (binary_round_bound s r mant_pi e0 (-50) He0 bounded_two_pi)
        as (m' & e' & Hrun & Hb & Hle).
      { unfold scaled.
        replace (-50 - emin64) with ((-50 - e0) + (e0 - emin64)) by lia.
        rewrite pow2_split by (unfold e0; lia).
        assert (0 < 2 ^ (e0 - emin64)) by (apply pow2_pos; lia).
        unfold Y in Hmod. nia. }
      rewrite Hrun. right. right. exists s, m', e'.
      rewrite Prim2SF_SF2Prim by exact Hb. split; [reflexivity|]. split; assumption.
Qed.

Lemma shl_align_same (m : positive) (e : Z) : shl_align m e e = (m, e).
Proof. unfold shl_align. now rewrite Z.sub_diag. Qed.

(** The remainder modulo [TWO_PI] is NaN, or is between zero and
    [TWO_PI]. *)
Lemma remainder_two_pi (y : float) :
  Prim2SF (remainder y TWO_PI) = S754_nan \/ turn (Prim2SF (remainder y TWO_PI)).
Proof.
  unfold remainder.
  change (is_zero TWO_PI) with false. change (TWO_PI <? 0)%float with false.
  cbv iota. unfold is_zero. rewrite FloatAxioms.eqb_spec, FloatAxioms.ltb_spec, Prim2SF_zero.
  destruct (fmod_two_pi y) as [Hm|[[s Hm]|(s & m & e & Hm & Hw)]]; rewrite Hm.
  - left. simpl. exact Hm.
  - right. left. simpl. destruct s; exact Prim2SF_zero.
  - destruct s; simpl.
    + (* a negative remainder: TWO_PI is added *)
      rewrite FloatAxioms.add_spec, Hm, Prim2SF_TWO_PI.
      pose proof (within_exp m e Hw) as [Hlo Hhi].
      destruct Hw as [Hb Hle].
      unfold SF64add, SFadd.
      replace (Z.min e (-50)) with e by lia.
      rewrite shl_align_same.
      destruct (shl_align_spec mant_pi (-50) e Hhi) as [_ HT].
      cbn [fst cond_Zopp].
      set (mT := fst (shl_align mant_pi (-50) e)) in *.
      assert (Hpow : 2 ^ (-50 - emin64) = 2 ^ (-50 - e) * 2 ^ (e - emin64)).
      { rewrite <- pow2_split by lia. f_equal. lia. }
      assert (HA : 0 < 2 ^ (e - emin64)) by (apply pow2_pos; lia).
      unfold scaled in Hle. rewrite Hpow in Hle.
      assert (Hm_le : Z.pos m <= Z.pos mT).
      { rewrite HT. apply (Z.mul_le_mono_pos_r _ _ _ HA). lia. }
      destruct (- Z.pos m + Z.pos mT) as [|q|q] eqn:Hq; try lia.
      * right. left. reflexivity.
      * right. right. unfold binary_normalize.
        destruct (binary_round_bound false q mant_pi e (-50) Hlo bounded_two_pi)
          as (m' & e' & Hrun & Hb' & Hle').
        { unfold scaled. rewrite Hpow. nia. }
        exists m', e'. split; [exact Hrun|]. split; assumption.
    + right. right. exists m, e. split; [exact Hm|exact Hw].
Qed.

(** Comparisons of finite numbers of the same sign, on their canonical
    representations. *)
Lemma SFltb_pos_cases (m1 m2 : positive) (e1 e2 : Z) :
  if SFltb (S754_finite false m1 e1) (S754_finite false m2 e2)
  then e1 < e2 \/ (e1 = e2 /\ Z.pos m1 < Z.pos m2)
  else e2 < e1 \/ (e1 = e2 /\ Z.pos m2 <= Z.pos m1).
Proof.
  unfold SFltb, SFcompare.
  change (Pos.compare_cont Eq m1 m2) with (Pos.compare m1 m2).
  destruct (Z.compare_spec e1 e2) as [He|He|He]; [|now left|now left].
  destruct (Pos.compare_spec m1 m2) as [H|H|H]; right; split; auto; lia.
Qed.

Lemma SFleb_pos_intro (m1 m2 : positive) (e1 e2 : Z) :
  e1 < e2 \/ (e1 = e2 /\ Z.pos m1 <= Z.pos m2) ->
  SFleb (S754_finite false m1 e1) (S754_finite false m2 e2) = true.
Proof.
  intros H. unfold SFleb, SFcompare.
  change (Pos.compare_cont Eq m1 m2) with (Pos.compare m1 m2).
  destruct (Z.compare_spec e1 e2) as [He|He|He]; [|reflexivity|lia].
  destruct (Pos.compare_spec m1 m2) as [H'|H'|H']; try reflexivity. lia.
Qed.

Lemma SFltb_neg_intro (m1 m2 : positive) (e1 e2 : Z) :
  e2 < e1 \/ (e1 = e2 /\ Z.pos m2 < Z.pos m1) ->
  SFltb (S754_finite true m1 e1) (S754_finite true m2 e2) = true.
Proof.
  intros H. unfold SFltb, SFcompare.
  change (Pos.compare_cont Eq m1 m2) with (Pos.compare m1 m2).
  destruct (Z.compare_spec e1 e2) as [He|He|He]; [|lia|reflexivity].
  destruct (Pos.compare_spec m1 m2) as [H'|H'|H']; try reflexivity; lia.
Qed.

Lemma bounded_below_pi : bounded prec emax (mant_pi - 1) (-51) = true.
Proof. reflexivity. Qed.

(** The second step of the wrap: a number between zero and [TWO_PI] is
    left as it is when it is not above [math_pi] and is reduced by
    [TWO_PI] when it is; the result is in the range of the wrap. *)
Lemma wrap_turn (r : float) :
  turn (Prim2SF r) ->
  in_wrap_range (if (math_pi <? r)%float then (r - TWO_PI)%float else r) = true.
Proof.
  unfold in_wrap_range. intros [Hz|(m & e & Hr & Hw)].
  - rewrite (FloatAxioms.ltb_spec math_pi r), Prim2SF_math_pi, Hz.
    change (SFltb (S754_finite false mant_pi (-51)) (S754_zero false)) with false.
    cbv iota.
    rewrite FloatAxioms.ltb_spec, FloatAxioms.leb_spec, Prim2SF_neg_pi, Prim2SF_math_pi, Hz. reflexivity.
  - pose proof (within_exp m e Hw) as [Hlo Hhi].
    pose proof emin64_val as Hemin.
    destruct Hw as [Hb Hle].
    pose proof Hb as Hb'. apply bounded_spec in Hb' as [Hc _].
    rewrite (FloatAxioms.ltb_spec math_pi r), Prim2SF_math_pi, Hr.
    destruct (SFltb (S754_finite false mant_pi (-51)) (S754_finite false m e)) eqn:Hlt.
    + (* above pi: reduced by TWO_PI *)
      assert (Hcmp : -51 < e \/ (-51 = e /\ Z.pos mant_pi < Z.pos m)).
      { pose proof (SFltb_pos_cases mant_pi m (-51) e) as H. now rewrite Hlt in H. }
      rewrite FloatAxioms.ltb_spec, FloatAxioms.leb_spec, FloatAxioms.sub_spec, Hr, Prim2SF_TWO_PI, Prim2SF_neg_pi,
        Prim2SF_math_pi.
      unfold SF64sub, SFsub.
      replace (Z.min e (-50)) with e by lia.
      rewrite shl_align_same.
      destruct (shl_align_spec mant_pi (-50) e Hhi) as [_ HT].
      cbn [fst cond_Zopp].
      set (mT := fst (shl_align mant_pi (-50) e)) in *.
      assert (Hpow : 2 ^ (-50 - emin64) = 2 ^ (-50 - e) * 2 ^ (e - emin64)).
      { rewrite <- pow2_split by lia. f_equal. lia. }
      assert (HA : 0 < 2 ^ (e - emin64)) by (apply pow2_pos; lia).
      unfold scaled in Hle. rewrite Hpow in Hle.
      assert (Hm_le : Z.pos m <= Z.pos mT).
      { rewrite HT. apply (Z.mul_le_mono_pos_r _ _ _ HA). lia. }
      destruct (Z.pos m - Z.pos mT) as [|q|q] eqn:Hq; try lia.
      * reflexivity.
      * unfold binary_normalize.
        destruct (binary_round_bound true q (mant_pi - 1) e (-51) Hlo bounded_below_pi)
          as (m' & e' & Hrun & Hbq & Hleq).
        { unfold scaled.
          assert (Hq' : Z.pos q = Z.pos mT - Z.pos m) by lia.
          destruct Hcmp as [He|[He Hm]].
          - assert (e = -50) by lia. subst e.
            replace (-50 - -50) with 0 in HT by lia. rewrite Z.pow_0_r in HT.
            pose proof (digits_bounds m) as [Dlo _].
            replace (digits m) with 53 in Dlo by lia. simpl in Dlo.
            replace (-50 - emin64) with (1 + (-51 - emin64)) by lia.
            rewrite pow2_split by lia. change (2 ^ 1) with 2.
            assert (0 < 2 ^ (-51 - emin64)) by (apply pow2_pos; lia).
            change (Z.pos (mant_pi - 1)) with 7074237752028439.
            change (Z.pos mant_pi) with 7074237752028440 in HT. nia.
          - subst e. replace (-50 - -51) with 1 in HT by lia. change (2 ^ 1) with 2 in HT.
            assert (0 < 2 ^ (-51 - emin64)) by (apply pow2_pos; lia).
            change (Z.pos (mant_pi - 1)) with 7074237752028439.
            change (Z.pos mant_pi) with 7074237752028440 in HT, Hm. nia. }
        rewrite Hrun.
        apply bounded_spec in Hbq as [Hcq _].
        assert (He' : e' <= -51).
        { apply (canonical_le_exp m' (mant_pi - 1) e' (-51)); auto. }
        apply andb_true_iff. split; [|reflexivity].
        apply SFltb_neg_intro.
        destruct (Z.eq_dec e' (-51)) as [Heq|Hne]; [right|left; lia].
        split; [now symmetry|].
        subst e'. unfold scaled in Hleq.
        assert (0 < 2 ^ (-51 - emin64)) by (apply pow2_pos; lia).
        change (Z.pos (mant_pi - 1)) with 7074237752028439 in Hleq.
        change (Z.pos mant_pi) with 7074237752028440. nia.
    + (* not above pi: unchanged *)
      rewrite FloatAxioms.ltb_spec, FloatAxioms.leb_spec, Prim2SF_neg_pi, Prim2SF_math_pi, Hr.
      apply andb_true_iff. split; [reflexivity|].
      apply SFleb_pos_intro.
      pose proof (SFltb_pos_cases mant_pi m (-51) e) as H. rewrite Hlt in H.
      destruct H as [H|[H1 H2]]; [now left|right; split; [now symmetry|exact H2]].
Qed.

(** The wrap of any number is NaN or is in the range of the wrap. *)
Lemma wrap_pi_range (y : float) :
  is_nan (wrap_pi y) = true \/ in_wrap_range (wrap_pi y) = true.
Proof.
  unfold wrap_pi. cbv zeta.
  destruct (remainder_two_pi y) as [Hnan|Ht].
  - left.
    assert (Hlt : (math_pi <? remainder y TWO_PI)%float = false).
    { rewrite FloatAxioms.ltb_spec, Hnan. reflexivity. }
    rewrite Hlt. unfold is_nan. rewrite FloatAxioms.eqb_spec, Hnan. reflexivity.
  - right. now apply wrap_turn.
Qed.

End Binary64.

(** ** Plotting against a reference: the wrap *)

Lemma reads_x_data_key (x : Sim_data) (i : key) : reads (x_data_key x i).
Proof. unfold x_data_key. reads_tac. Qed.

Lemma reads_run {A} (m : M A) (w : world) : reads m -> m w = (w, snd (m w)).
Proof. intros Hm. specialize (Hm w). destruct (m w) as [w1 r]. simpl in *. now subst. Qed.

(** A plot of a payload without keys against a reference. *)
Lemma plot_array_wraps (self x r : Sim_data) (key : option (list key)) (plot3d : Z)
    (extra_opt : string) (w w1 : world) (c : nat) (shape : list nat) (diff : list float) :
  plottable self = true -> units self = rad3 ->
  is_dict (data self) w = false ->
  Np.sub (data self) (data r) w = (w1, inr (VRef c)) ->
  heap w1 !! c = Some (ONdarray shape diff) -> shape <> [] ->
  plot self x key (Some r) plot3d extra_opt w
  = match snd (x_data_any x w) with
    | inl e => (w, inl e)
    | inr x_data =>
        (y <- convert_unit (VRef (length (heap w1))) (units self) (output_units self) ;;
         dispatch self x x_data y (name self) plot3d extra_opt)%mon
          (with_wrap shape diff w1)
    end.
Proof.
  intros Hp Hu Hd Hsub Hc Hs.
  unfold plot, bind at 1, isinstance_dict. rewrite Hp, Hd.
  unfold __plot_array, bind at 1. rewrite (reads_run _ w (reads_x_data_any x)).
  destruct (snd (x_data_any x w)) as [e|x_data]; [reflexivity|].
  unfold bind at 1.
  rewrite (subtract_ref_wraps self _ _ handler_array w w1 c shape diff Hu Hsub Hc Hs).
  reflexivity.
Qed.

(** The body of the loop over the keys, for an entry and its reference. *)
Lemma plot_key_wraps (self x r : Sim_data) (plot3d : Z) (extra_opt : string) (i : key)
    (y_data ref_data : value) (w w1 : world) (c : nat) (shape : list nat)
    (diff : list float) :
  units self = rad3 ->
  dict_getitem (data self) i w = (w, inr y_data) ->
  ref_data_key r i w = (w, inr ref_data) ->
  Np.sub y_data ref_data w = (w1, inr (VRef c)) ->
  heap w1 !! c = Some (ONdarray shape diff) -> shape <> [] ->
  plot_key self x (Some r) plot3d extra_opt i w
  = match snd (x_data_key x i w) with
    | inl e => (w, inl e)
    | inr x_data =>
        (y <- convert_unit (VRef (length (heap w1))) (units self) (output_units self) ;;
         dispatch self x x_data y (name self ++ "_" ++ str_key i)%string plot3d extra_opt)%mon
          (with_wrap shape diff w1)
    end.
Proof.
  intros Hu Hy Href Hsub Hc Hs.
  unfold plot_key, bind at 1. rewrite Hy.
  unfold bind at 1. rewrite (reads_run _ w (reads_x_data_key x i)).
  destruct (snd (x_data_key x i w)) as [e|x_data]; [reflexivity|].
  unfold bind at 1. unfold bind at 1. rewrite Href.
  rewrite (subtract_ref_wraps self _ _ (handler_dict ref_data) w w1 c shape diff
             Hu Hsub Hc Hs).
  reflexivity.
Qed.

(** C4, as stated, fails: for an attitude kept in rad and shown in deg, a
    sample of 3 rad against a reference of 0 is drawn as its wrap times
    180/pi, about 171.9, which is not in the range of the wrap. *)
Lemma plotted_difference_in_degrees :
  line_y_values
    (trace (fst (plot WrapExample.att PlotExample.time None (Some WrapExample.ref) 0
                   EmptyString WrapExample.world_close)))
  = [(wrap_pi (3 - 0) * (1 / D2R))%float; (wrap_pi (0 - 0) * (1 / D2R))%float;
     (wrap_pi (0 - 0) * (1 / D2R))%float]
  /\ forallb in_wrap_range
       (line_y_values
          (trace (fst (plot WrapExample.att PlotExample.time None (Some WrapExample.ref) 0
                         EmptyString WrapExample.world_close))))
     = false.
Proof. split; vm_compute; reflexivity. Qed.

(** C4 (amended): in a plot against a reference, for a data set whose
    units are rad, rad, rad, when the difference data - reference is an
    array, the data handed to the unit conversion and then to the drawing
    helper is the array of the wraps of the differences (the remainder
    modulo 2 pi, reduced by 2 pi where it is above pi), both for a payload
    without keys and for each entry of a keyed payload; for arrays of one
    shape the differences are taken element by element; each wrap is NaN
    or lies between minus pi (excluded) and pi (included), the drawn
    values being the wraps converted to the output units; the wrap of
    3.0 - (-3.0) is 6.0 - 2 pi and not 6.0. *)
Theorem plot_wraps_reference_difference :
  (forall (self x r : Sim_data) (key : option (list key)) (plot3d : Z)
          (extra_opt : string) (w w1 : world) (c : nat) (shape : list nat)
          (diff : list float),
      plottable self = true -> units self = rad3 ->
      is_dict (data self) w = false ->
      Np.sub (data self) (data r) w = (w1, inr (VRef c)) ->
      heap w1 !! c = Some (ONdarray shape diff) -> shape <> [] ->
      plot self x key (Some r) plot3d extra_opt w
      = match snd (x_data_any x w) with
        | inl e => (w, inl e)
        | inr x_data =>
            (y <- convert_unit (VRef (length (heap w1))) (units self)
                   (output_units self) ;;
             dispatch self x x_data y (name self) plot3d extra_opt)%mon
              (with_wrap shape diff w1)
        end)
  /\ (forall (self x r : Sim_data) (plot3d : Z) (extra_opt : string) (i : key)
             (y_data ref_data : value) (w w1 : world) (c : nat) (shape : list nat)
             (diff : list float),
        units self = rad3 ->
        dict_getitem (data self) i w = (w, inr y_data) ->
        ref_data_key r i w = (w, inr ref_data) ->
        Np.sub y_data ref_data w = (w1, inr (VRef c)) ->
        heap w1 !! c = Some (ONdarray shape diff) -> shape <> [] ->
        plot_key self x (Some r) plot3d extra_opt i w
        = match snd (x_data_key x i w) with
          | inl e => (w, inl e)
          | inr x_data =>
              (y <- convert_unit (VRef (length (heap w1))) (units self)
                     (output_units self) ;;
               dispatch self x x_data y (name self ++ "_" ++ str_key i)%string
                 plot3d extra_opt)%mon
                (with_wrap shape diff w1)
          end)
  /\ (forall (a b d : nat) (s : list nat) (buf bufr : list float) (w : world),
        heap w !! a = Some (ONdarray (d :: s) buf) ->
        heap w !! b = Some (ONdarray (d :: s) bufr) ->
        length buf = Np.size (d :: s) -> length bufr = Np.size (d :: s) ->
        Np.sub (VRef a) (VRef b) w
        = (set_heap (heap w ++ [ONdarray (d :: s) (zip_with PrimFloat.sub buf bufr)]) w,
           inr (VRef (length (heap w)))))
  /\ (forall y : float, is_nan (wrap_pi y) = true \/ in_wrap_range (wrap_pi y) = true)
  /\ wrap_pi (3 - -3) = (6 - TWO_PI)%float
  /\ PrimFloat.eqb (wrap_pi (3 - -3)) 6 = false.
Proof.
  split; [|split; [|split; [|split; [|split]]]].
  - intros. now apply plot_array_wraps with (c := c).
  - intros. now apply plot_key_wraps with (y_data := y_data) (ref_data := ref_data) (c := c).
  - intros. now apply np_sub_same_shape.
  - exact wrap_pi_range.
  - vm_compute. reflexivity.
  - vm_compute. reflexivity.
Qed.

Lemma plot_wraps_reference_difference_witness :
  plot WrapExample.att PlotExample.time None (Some WrapExample.ref) 0 EmptyString
       WrapExample.world_close
  = (y <- convert_unit (VRef 4) rad3 WrapExample.deg3 ;;
     dispatch WrapExample.att PlotExample.time (VRef 2) y "att" 0 EmptyString)%mon
      (with_wrap [1; 3]%nat [3; 0; 0]%float
         (set_heap (heap WrapExample.world_close ++ [ONdarray [1; 3]%nat [3; 0; 0]%float])
            WrapExample.world_close)).
Proof.
  apply (proj1 plot_wraps_reference_difference
           WrapExample.att PlotExample.time WrapExample.ref None 0 EmptyString
           WrapExample.world_close
           (set_heap (heap WrapExample.world_close ++ [ONdarray [1; 3]%nat [3; 0; 0]%float])
              WrapExample.world_close)
           3%nat [1; 3]%nat [3; 0; 0]%float);
    try reflexivity.
  discriminate.
Defined.

(** ** Plotting: the keys of a keyed payload *)

































(** * Further properties of the code *)

(** ** The scale vector of a conversion *)

Lemma scale_loop_app (src dst : list string) (l1 l2 : list nat) (scale : list float) :
  scale_loop src dst (l1 ++ l2) scale
  = match scale_loop src dst l1 scale with
    | inr scale' => scale_loop src dst l2 scale'
    | inl e => inl e
    end.
Proof.
  revert scale. induction l1 as [|i l1 IH]; intros scale; simpl; [reflexivity|].
  destruct (src !! i); [|reflexivity]. destruct (dst !! i); [|reflexivity]. apply IH.
Qed.

Lemma scale_loop_seq (src dst : list string) :
  forall (k n : nat) (scale : list float),
    (n + k <= length src)%nat -> (n + k <= length dst)%nat ->
    exists scale',
      scale_loop src dst (seq n k) scale = inr scale'
      /\ length scale' = length scale
      /\ (forall i, (n <= i < n + k)%nat -> (i < length scale)%nat ->
            scale' !! i = match column_scale src dst i with
                          | Some c => Some c
                          | None => scale !! i
                          end)
      /\ (forall i, ~ (n <= i < n + k)%nat -> scale' !! i = scale !! i).
Proof.
  induction k as [|k IH]; intros n scale Hs Hd; simpl.
  - exists scale. repeat split; auto. intros; lia.
  - destruct (lookup_lt_is_Some_2 src n) as [s Hsn]; [lia|].
    destruct (lookup_lt_is_Some_2 dst n) as [d Hdn]; [lia|].
    rewrite Hsn, Hdn.
    set (scale1 := match scale_entry s d with
                   | Some c => <[n := c]> scale
                   | None => scale
                   end).
    assert (Hlen1 : length scale1 = length scale).
    { unfold scale1. destruct (scale_entry s d); [apply length_insert|reflexivity]. }
    destruct (IH (S n) scale1) as (scale' & Hrun & Hlen & Hin & Hout); [lia|lia|].
    exists scale'. split; [exact Hrun|]. split; [congruence|]. split.
    + intros i Hi Hlt. destruct (decide (i = n)) as [->|Hne].
      * rewrite Hout by lia. unfold column_scale. rewrite Hsn, Hdn.
        unfold scale1. destruct (scale_entry s d) as [c|]; [|reflexivity].
        now apply list_lookup_insert_eq.
      * rewrite Hin by lia.
        destruct (column_scale src dst i); [reflexivity|].
        unfold scale1. destruct (scale_entry s d); [|reflexivity].
        now apply list_lookup_insert_ne.
    + intros i Hi. rewrite Hout by lia.
      unfold scale1. destruct (scale_entry s d); [|reflexivity].
      apply list_lookup_insert_ne. lia.
Qed.

Lemma unit_conversion_scale_short (src_unit dst_unit : list string) :
  (length src_unit < length dst_unit)%nat ->
  unit_conversion_scale src_unit dst_unit = inl IndexError.
Proof.
  intros Hlt. unfold unit_conversion_scale.
  replace (length dst_unit)
    with (length src_unit + (length dst_unit - length src_unit))%nat at 1 by lia.
  rewrite seq_app, scale_loop_app.
  destruct (scale_loop_seq src_unit dst_unit (length src_unit) 0
              (replicate (length dst_unit) 0%float)) as (sc & -> & _); [lia|lia|].
  destruct (length dst_unit - length src_unit)%nat as [|k] eqn:Hk; [lia|].
  simpl. rewrite (lookup_ge_None_2 src_unit (length src_unit)) by lia. reflexivity.
Qed.

Lemma unit_conversion_scale_lookup (src_unit dst_unit : list string) :
  (length dst_unit <= length src_unit)%nat ->
  exists scale,
    unit_conversion_scale src_unit dst_unit = inr scale
    /\ length scale = length dst_unit
    /\ forall i, (i < length dst_unit)%nat ->
         scale !! i = Some (match column_scale src_unit dst_unit i with
                            | Some c => c
                            | None => 0%float
                            end).
Proof.
  intros Hle. unfold unit_conversion_scale.
  destruct (scale_loop_seq src_unit dst_unit (length dst_unit) 0
              (replicate (length dst_unit) 0%float)) as (sc & Hrun & Hlen & Hin & _);
    [lia|lia|].
  exists sc. split; [exact Hrun|]. rewrite length_replicate in Hlen.
  split; [exact Hlen|]. intros i Hi.
  rewrite Hin by (rewrite ?length_replicate; lia).
  destruct (column_scale src_unit dst_unit i); [reflexivity|].
  apply lookup_replicate_2. lia.
Qed.

(** The scales of the table: [D2R] and its inverse, neither of them zero. *)
Lemma column_scale_values (src_unit dst_unit : list string) (i : nat) (c : float) :
  column_scale src_unit dst_unit i = Some c ->
  (c = D2R \/ c = (1.0 / D2R)%float) /\ is_zero c = false.
Proof.
  intros H. unfold column_scale, scale_entry in H.
  destruct (src_unit !! i); [|discriminate]. destruct (dst_unit !! i); [|discriminate].
  repeat match type of H with
         | (if ?b then _ else _) = _ => destruct b
         end; try discriminate; injection H as <-;
    (split; [auto|vm_compute; reflexivity]).
Qed.

(** X1: unit_conversion_scale fails exactly when the source list is
    shorter than the destination list, and then with IndexError, raised by
    [src_unit[i]] at the first column the source list does not have. *)
Theorem unit_conversion_scale_fails_iff (src_unit dst_unit : list string) :
  ((exists e, unit_conversion_scale src_unit dst_unit = inl e)
   <-> (length src_unit < length dst_unit)%nat)
  /\ ((length src_unit < length dst_unit)%nat ->
      unit_conversion_scale src_unit dst_unit = inl IndexError).
Proof.
  split; [|apply unit_conversion_scale_short].
  split; [|intros H; eexists; now apply unit_conversion_scale_short].
  intros [e He].
  destruct (Nat.lt_ge_cases (length src_unit) (length dst_unit)) as [|Hge]; [assumption|].
  destruct (unit_conversion_scale_lookup src_unit dst_unit Hge) as (sc & Hrun & _).
  rewrite Hrun in He. discriminate He.
Qed.

(** X2: when the source list is at least as long as the destination
    list, unit_conversion_scale returns one scale for each destination
    unit: the entry of the table for the pair of units of the column (D2R
    or 1/D2R, never zero), and zero where the table has no entry; the
    source units beyond the destination list are not looked at. *)
Theorem unit_conversion_scale_columns (src_unit dst_unit : list string) :
  (length dst_unit <= length src_unit)%nat ->
  exists scale,
    unit_conversion_scale src_unit dst_unit = inr scale
    /\ length scale = length dst_unit
    /\ (forall i, (i < length dst_unit)%nat ->
          scale !! i = Some (match column_scale src_unit dst_unit i with
                             | Some c => c
                             | None => 0%float
                             end))
    /\ (forall i c, column_scale src_unit dst_unit i = Some c ->
          (c = D2R \/ c = (1.0 / D2R)%float) /\ is_zero c = false).
Proof.
  intros Hle.
  destruct (unit_conversion_scale_lookup src_unit dst_unit Hle) as (sc & H1 & H2 & H3).
  exists sc. split; [exact H1|]. split; [exact H2|]. split; [exact H3|].
  intros i c. apply column_scale_values.
Qed.

Lemma unit_conversion_scale_columns_witness :
  exists scale,
    unit_conversion_scale ["deg"; "m"; "rad"]%string ["rad"; "m"]%string = inr scale
    /\ length scale = length ["rad"; "m"]%string
    /\ (forall i, (i < length ["rad"; "m"]%string)%nat ->
          scale !! i
          = Some (match column_scale ["deg"; "m"; "rad"]%string ["rad"; "m"]%string i with
                  | Some c => c
                  | None => 0%float
                  end))
    /\ (forall i c,
          column_scale ["deg"; "m"; "rad"]%string ["rad"; "m"]%string i = Some c ->
          (c = D2R \/ c = (1.0 / D2R)%float) /\ is_zero c = false).
Proof.
  apply (unit_conversion_scale_columns ["deg"; "m"; "rad"]%string ["rad"; "m"]%string).
  simpl. lia.
Defined.

(** ** Conversion of two-dimensional arrays *)

(** The scale of a column that [convert_unit] applies. *)
Lemma scaled_by_table (src dst : list string) (scale : list float) (i : nat) (v : float) :
  unit_conversion_scale src dst = inr scale ->
  scaled_by scale i v
  = match column_scale src dst i with
    | Some c => (v * c)%float
    | None => v
    end.
Proof.
  intros Hrun.
  destruct (Nat.lt_ge_cases (length src) (length dst)) as [Hlt|Hge].
  { rewrite (unit_conversion_scale_short src dst Hlt) in Hrun. discriminate. }
  destruct (unit_conversion_scale_lookup src dst Hge) as (sc & H1 & H2 & H3).
  rewrite Hrun in H1. injection H1 as <-.
  unfold scaled_by.
  destruct (Nat.lt_ge_cases i (length dst)) as [Hi|Hi].
  - rewrite (H3 i Hi). destruct (column_scale src dst i) as [c|] eqn:Hc.
    + now rewrite (proj2 (column_scale_values src dst i c Hc)).
    + reflexivity.
  - rewrite (lookup_ge_None_2 scale) by lia.
    unfold column_scale. rewrite (lookup_ge_None_2 dst) by lia.
    now destruct (src !! i).
Qed.

Lemma convert_unit_2d_run (src_unit dst_unit : list string) (w : world)
    (a rows cols : nat) (buf : list float) :
  (length dst_unit <= length src_unit)%nat ->
  heap w !! a = Some (ONdarray [rows; cols] buf) ->
  length buf = (rows * cols)%nat ->
  convert_unit (VRef a) src_unit dst_unit w
  = (set_heap (heap w ++ [ONdarray [rows; cols]
                            (imap (fun j v => match column_scale src_unit dst_unit (j mod cols) with
                                              | Some c => (v * c)%float
                                              | None => v
                                              end) buf)]) w,
     inr (VRef (length (heap w)))).
Proof.
  intros Hle Ha Hlen.
  destruct (unit_conversion_scale_lookup src_unit dst_unit Hle) as (scale & Hrun & _).
  unfold convert_unit, bind at 1. rewrite Hrun. cbn [lift ret].
  unfold bind at 1, copy, bind at 1. rewrite (deref_at a _ w Ha). unfold alloc.
  set (w1 := set_heap (heap w ++ [ONdarray [rows; cols] buf]) w).
  assert (H1 : heap w1 !! length (heap w) = Some (ONdarray [rows; cols] buf)).
  { simpl. now rewrite lookup_app_r, Nat.sub_diag by lia. }
  unfold bind at 1, isinstance_dict. rewrite (is_dict_array _ _ _ w1 H1).
  rewrite (convert_unit_ndarray_scalar_2d w1 _ rows cols buf scale H1 Hlen).
  unfold w1 at 1 2, set_heap. cbn [heap trace].
  rewrite insert_app_r_alt, Nat.sub_diag by lia. cbn [insert list_insert].
  assert (Hbuf : imap (fun j v => scaled_by scale (j mod cols) v) buf
                 = imap (fun j v => match column_scale src_unit dst_unit (j mod cols) with
                                    | Some c => (v * c)%float
                                    | None => v
                                    end) buf).
  { apply imap_ext. intros j v _.
    apply (scaled_by_table src_unit dst_unit scale _ v Hrun). }
  rewrite Hbuf. reflexivity.
Qed.

(** X4: for unit lists that can be converted (the source list at least as
    long as the destination list), convert_unit on a two-dimensional
    float64 array returns a new array of the same shape and size: the
    element of the row r and the column c is the element it was,
    multiplied by the entry of the table for the pair of units of the
    column c when there is one, and copied otherwise; the array given is
    not changed. *)
Theorem convert_unit_2d_by_table (src_unit dst_unit : list string) (w : world)
    (a rows cols : nat) (buf : list float) :
  (length dst_unit <= length src_unit)%nat ->
  heap w !! a = Some (ONdarray [rows; cols] buf) ->
  length buf = (rows * cols)%nat ->
  exists buf',
    convert_unit (VRef a) src_unit dst_unit w
    = (set_heap (heap w ++ [ONdarray [rows; cols] buf']) w, inr (VRef (length (heap w))))
    /\ length buf' = length buf
    /\ (forall r c v, (c < cols)%nat -> buf !! (r * cols + c)%nat = Some v ->
          buf' !! (r * cols + c)%nat
          = Some (match column_scale src_unit dst_unit c with
                  | Some k => (v * k)%float
                  | None => v
                  end))
    /\ heap (fst (convert_unit (VRef a) src_unit dst_unit w)) !! a
       = Some (ONdarray [rows; cols] buf).
Proof.
  intros Hle Ha Hlen. eexists. split; [|split; [|split]].
  - apply (convert_unit_2d_run src_unit dst_unit w a rows cols buf Hle Ha Hlen).
  - apply length_imap.
  - intros r c v Hc Hv. rewrite list_lookup_imap, Hv. simpl. f_equal.
    replace ((r * cols + c) mod cols)%nat with c; [reflexivity|].
    rewrite Nat.add_comm, Nat.Div0.mod_add. symmetry. now apply Nat.mod_small.
  - rewrite (convert_unit_2d_run src_unit dst_unit w a rows cols buf Hle Ha Hlen).
    simpl. now apply lookup_app_l_Some.
Qed.

Lemma convert_unit_2d_by_table_witness :
  exists buf',
    convert_unit (VRef 0) Scenario.deg_s3 Scenario.rad_s3 PathExample.bare
    = (set_heap (heap PathExample.bare ++ [ONdarray [2; 3]%nat buf']) PathExample.bare,
       inr (VRef (length (heap PathExample.bare))))
    /\ length buf' = length (replicate 6 1%float)
    /\ (forall r c v, (c < 3)%nat -> replicate 6 1%float !! (r * 3 + c)%nat = Some v ->
          buf' !! (r * 3 + c)%nat
          = Some (match column_scale Scenario.deg_s3 Scenario.rad_s3 c with
                  | Some k => (v * k)%float
                  | None => v
                  end))
    /\ heap (fst (convert_unit (VRef 0) Scenario.deg_s3 Scenario.rad_s3 PathExample.bare))
         !! 0%nat
       = Some (ONdarray [2; 3]%nat (replicate 6 1%float)).
Proof.
  apply (convert_unit_2d_by_table Scenario.deg_s3 Scenario.rad_s3 PathExample.bare
           0 2 3 (replicate 6 1%float)).
  - simpl. lia.
  - reflexivity.
  - reflexivity.
Defined.

(** ** Conversion of one-dimensional arrays and of scalars *)

Lemma unit_conversion_scale_first (src_unit dst_unit : list string) :
  (length dst_unit <= length src_unit)%nat -> dst_unit <> [] ->
  exists scale,
    unit_conversion_scale src_unit dst_unit = inr scale
    /\ scale !! 0%nat = Some (first_scale src_unit dst_unit).
Proof.
  intros Hle Hd.
  destruct (unit_conversion_scale_lookup src_unit dst_unit Hle) as (scale & Hrun & _ & Hat).
  exists scale. split; [exact Hrun|]. apply Hat. destruct dst_unit; [congruence|simpl; lia].
Qed.

Lemma unit_conversion_scale_nil (src_unit : list string) :
  unit_conversion_scale src_unit [] = inr [].
Proof. reflexivity. Qed.

(** X5: for unit lists that can be converted and are not empty, the
    conversion of a one-dimensional array and of a numpy scalar uses the
    first pair of units only.  A one-dimensional array comes back as a new
    array with every element multiplied by the entry of the table, or as a
    plain copy when the table has no entry; a numpy scalar comes back
    multiplied by the entry of the table, or by zero when there is none.
    The array given is not changed. *)
Theorem convert_unit_first_pair (src_unit dst_unit : list string) (w : world) :
  (length dst_unit <= length src_unit)%nat -> dst_unit <> [] ->
  (forall (a n : nat) (buf : list float),
      heap w !! a = Some (ONdarray [n] buf) ->
      convert_unit (VRef a) src_unit dst_unit w
      = match column_scale src_unit dst_unit 0 with
        | Some c =>
            (set_heap (heap w ++ [ONdarray [n] buf;
                                  ONdarray [n] (map (fun v => v * c)%float buf)]) w,
             inr (VRef (S (length (heap w)))))
        | None =>
            (set_heap (heap w ++ [ONdarray [n] buf]) w, inr (VRef (length (heap w))))
        end)
  /\ (forall f : float,
        convert_unit (VNpFloat f) src_unit dst_unit w
        = (w, inr (VNpFloat (f * first_scale src_unit dst_unit)))).
Proof.
  intros Hle Hd.
  destruct (unit_conversion_scale_first src_unit dst_unit Hle Hd) as (scale & Hrun & H0).
  split.
  - intros a n buf Ha.
    unfold convert_unit, bind at 1. rewrite Hrun. cbn [lift ret].
    unfold bind at 1, copy, bind at 1. rewrite (deref_at a _ w Ha). unfold alloc.
    set (w1 := set_heap (heap w ++ [ONdarray [n] buf]) w).
    assert (H1 : heap w1 !! length (heap w) = Some (ONdarray [n] buf)).
    { simpl. now rewrite lookup_app_r, Nat.sub_diag by lia. }
    unfold bind at 1, isinstance_dict. rewrite (is_dict_array _ _ _ w1 H1).
    unfold convert_unit_ndarray_scalar, bind at 1. rewrite (deref_at _ _ w1 H1).
    unfold bind, of_option. rewrite H0. unfold first_scale, ret.
    destruct (column_scale src_unit dst_unit 0) as [c|] eqn:Hc.
    + rewrite (proj2 (column_scale_values _ _ _ _ Hc)). cbn [negb].
      unfold alloc, w1, set_heap. cbn [heap trace].
      rewrite <- app_assoc, length_app, Nat.add_1_r. reflexivity.
    + reflexivity.
  - intros f. unfold convert_unit, bind. rewrite Hrun. cbn [lift ret].
    unfold copy, isinstance_dict, ret. cbn [is_dict].
    unfold convert_unit_ndarray_scalar, bind, of_option. rewrite H0. reflexivity.
Qed.

Lemma convert_unit_first_pair_witness :
  convert_unit (VNpFloat 90) ["deg"]%string ["rad"]%string w0
  = (w0, inr (VNpFloat (90 * first_scale ["deg"]%string ["rad"]%string))).
Proof.
  apply (convert_unit_first_pair ["deg"]%string ["rad"]%string w0).
  - simpl. lia.
  - discriminate.
Defined.

(** X6: with an empty destination list (a data set created without
    units), there is no scale for the column 0: the conversion of a numpy
    scalar and of a one-dimensional array raises IndexError, for the array
    after the copy has been made; a two-dimensional array is copied. *)
Theorem convert_unit_no_units (src_unit : list string) (w : world) :
  (forall f : float, convert_unit (VNpFloat f) src_unit [] w = (w, inl IndexError))
  /\ (forall (a n : nat) (buf : list float),
        heap w !! a = Some (ONdarray [n] buf) ->
        convert_unit (VRef a) src_unit [] w
        = (set_heap (heap w ++ [ONdarray [n] buf]) w, inl IndexError))
  /\ (forall (a rows cols : nat) (buf : list float),
        heap w !! a = Some (ONdarray [rows; cols] buf) ->
        convert_unit (VRef a) src_unit [] w
        = (set_heap (heap w ++ [ONdarray [rows; cols] buf]) w,
           inr (VRef (length (heap w))))).
Proof.
  split; [|split].
  - intros f. reflexivity.
  - intros a n buf Ha.
    unfold convert_unit, bind at 1. rewrite unit_conversion_scale_nil. cbn [lift ret].
    unfold bind at 1, copy, bind at 1. rewrite (deref_at a _ w Ha). unfold alloc.
    set (w1 := set_heap (heap w ++ [ONdarray [n] buf]) w).
    assert (H1 : heap w1 !! length (heap w) = Some (ONdarray [n] buf)).
    { simpl. now rewrite lookup_app_r, Nat.sub_diag by lia. }
    unfold bind at 1, isinstance_dict. rewrite (is_dict_array _ _ _ w1 H1).
    unfold convert_unit_ndarray_scalar, bind at 1. rewrite (deref_at _ _ w1 H1).
    reflexivity.
  - intros a rows cols buf Ha.
    unfold convert_unit, bind at 1. rewrite unit_conversion_scale_nil. cbn [lift ret].
    unfold bind at 1, copy, bind at 1. rewrite (deref_at a _ w Ha). unfold alloc.
    set (w1 := set_heap (heap w ++ [ONdarray [rows; cols] buf]) w).
    assert (H1 : heap w1 !! length (heap w) = Some (ONdarray [rows; cols] buf)).
    { simpl. now rewrite lookup_app_r, Nat.sub_diag by lia. }
    unfold bind at 1, isinstance_dict. rewrite (is_dict_array _ _ _ w1 H1).
    unfold convert_unit_ndarray_scalar, bind at 1. rewrite (deref_at _ _ w1 H1).
    unfold bind, store, ret. cbn [length Nat.min seq scale_columns].
    unfold w1 at 1, set_heap. cbn [heap trace].
    rewrite insert_app_r_alt, Nat.sub_diag by lia. reflexivity.
Qed.

(** ** The header of an export, and construction *)

Section Strings.

Local Open Scope string_scope.

Lemma sapp_assoc (a b c : string) : (a ++ b) ++ c = a ++ (b ++ c).
Proof. induction a as [|x a IH]; simpl; [reflexivity|]. now rewrite IH. Qed.

Lemma sapp_nil_r (a : string) : a ++ EmptyString = a.
Proof. induction a as [|x a IH]; simpl; [reflexivity|]. now rewrite IH. Qed.

Lemma sapp_eq_nil (a b : string) : a ++ b = EmptyString -> b = EmptyString.
Proof. destruct a; simpl; [auto|discriminate]. Qed.

Lemma drop_last_app (a b : string) :
  b <> EmptyString -> drop_last (a ++ b) = a ++ drop_last b.
Proof.
  intros Hb. induction a as [|x a IH]; simpl; [reflexivity|].
  destruct (a ++ b) eqn:Hab.
  - apply sapp_eq_nil in Hab. contradiction.
  - now rewrite <- IH.
Qed.

Lemma titles_with_commas_nonempty (title : nat -> string) (i : nat) (l : list nat) :
  titles_with_commas title (i :: l) <> EmptyString.
Proof.
  simpl. intros H. apply sapp_eq_nil in H. discriminate H.
Qed.

(** Without its last comma, the text of the titles is the titles joined
    by commas. *)
Lemma drop_last_titles (title : nat -> string) (l : list nat) :
  drop_last (titles_with_commas title l) = join "," (map title l).
Proof.
  induction l as [|i l IH]; [reflexivity|].
  destruct l as [|j l].
  - simpl. rewrite drop_last_app by discriminate. simpl. apply sapp_nil_r.
  - change (titles_with_commas title (i :: j :: l))
      with (title i ++ "," ++ titles_with_commas title (j :: l)).
    rewrite drop_last_app.
    2:{ intros H. apply sapp_eq_nil in H. now apply titles_with_commas_nonempty in H. }
    rewrite drop_last_app by apply titles_with_commas_nonempty.
    rewrite IH. reflexivity.
Qed.

Lemma header_column_title (self : Sim_data) (cols i : nat) (h : string) :
  (i < cols)%nat ->
  header_column self cols h i = inr (h ++ column_title self cols i ++ ",").
Proof.
  intros Hi. unfold header_column, column_title.
  destruct (legend self) as [l|].
  - destruct (Nat.eqb_spec cols (length l)) as [Hc|Hc].
    + destruct (lookup_lt_is_Some_2 l i) as [li Hli]; [lia|].
      rewrite Hli. now rewrite !sapp_assoc.
    + now rewrite !sapp_assoc.
  - now rewrite !sapp_assoc.
Qed.

Lemma header_loop_titles (self : Sim_data) (cols : nat) :
  forall (k n : nat) (h : string),
    (n + k <= cols)%nat ->
    header_loop self cols (seq n k) h
    = inr (h ++ titles_with_commas (column_title self cols) (seq n k)).
Proof.
  induction k as [|k IH]; intros n h Hn; simpl.
  - now rewrite sapp_nil_r.
  - rewrite header_column_title by lia. rewrite IH by lia.
    now rewrite !sapp_assoc.
Qed.

End Strings.

Lemma header_run (self : Sim_data) (cols : nat) :
  header self cols = inr (header_text self cols).
Proof.
  unfold header, header_text. destruct (0 <? cols)%nat; [|reflexivity].
  rewrite (header_loop_titles self cols cols 0 EmptyString) by lia.
  simpl append. now rewrite drop_last_titles.
Qed.

(** X7: the header of an export never fails.  With one column or more it
    is the titles of the columns joined by commas, with no comma after the
    last: a column is titled by its legend when the legend has exactly one
    entry for each column, else by the name of the data set, an
    underscore and the index of the column, followed by the output unit
    in parentheses when the column has one.  With no column (a scalar or
    a one-dimensional payload) it is the name and the first output unit. *)
Theorem header_joins_column_titles (self : Sim_data) (cols : nat) :
  header self cols
  = inr (if (0 <? cols)%nat
         then join "," (map (column_title self cols) (seq 0 cols))
         else (name self ++ str_unit self 0)%string).
Proof. exact (header_run self cols). Qed.

Lemma init_units_none_l (o : list string) : init_units None (Some o) = inr (o, o).
Proof.
  change (init_units None (Some o)) with (init_units (Some []) (Some o)).
  rewrite init_units_both. simpl. now rewrite drop_0, drop_nil, app_nil_r.
Qed.

Lemma init_units_lengths (u o : option (list string)) :
  exists us os, init_units u o = inr (us, os) /\ length us = length os.
Proof.
  destruct u as [u|], o as [o|].
  - rewrite init_units_both. eexists _, _. split; [reflexivity|].
    rewrite !length_app, !length_drop. lia.
  - now eexists _, _.
  - rewrite init_units_none_l. now eexists _, _.
  - now eexists _, _.
Qed.

(** X8: the constructor never raises, whatever the arguments.  The new
    object holds a new empty dict as its payload and two unit lists of the
    same length: without output units they are the units, and without
    units the units are the output units.  Its grid setting is read by
    the drawing helpers as the grid argument would be. *)
Theorem init_total (nm descr : string) (u o : option (list string)) (pl lx ly : bool)
    (g : string) (lg : option (list string)) (w : world) :
  exists sd : Sim_data,
    init nm descr u o pl lx ly g lg w = (set_heap (heap w ++ [ODict []]) w, inr sd)
    /\ data sd = VRef (length (heap w))
    /\ length (units sd) = length (output_units sd)
    /\ (o = None -> output_units sd = units sd
                    /\ units sd = match u with Some us => us | None => [] end)
    /\ (u = None -> forall os, o = Some os -> units sd = os /\ output_units sd = os)
    /\ grid_on (grid sd) = grid_on g.
Proof.
  destruct (init_units_lengths u o) as (us & os & Hrun & Hlen).
  unfold init, bind, lift. rewrite Hrun. simpl.
  eexists. split; [reflexivity|]. simpl.
  split; [reflexivity|]. split; [exact Hlen|]. split; [|split].
  - intros ->. destruct u; simpl in Hrun; injection Hrun as <- <-; auto.
  - intros -> os' ->. rewrite init_units_none_l in Hrun. injection Hrun as <- <-. auto.
  - unfold grid_on at 2. destruct (String.eqb (lower g) "off") eqn:Hg; simpl.
    + unfold grid_on. now rewrite Hg.
    + reflexivity.
Qed.

(** X9: the export of a data set that has just been constructed, whose
    payload is the empty dict, calls the serializer for no file and
    returns. *)
Theorem export_of_new_object (nm descr : string) (u o : option (list string))
    (pl lx ly : bool) (g : string) (lg : option (list string)) (data_dir : string)
    (w : world) :
  (sd <- init nm descr u o pl lx ly g lg ;; save_to_file sd data_dir) w
  = (set_heap (heap w ++ [ODict []]) w, inr tt).
Proof.
  destruct (init_units_lengths u o) as (us & os & Hrun & Hlen).
  unfold bind at 1, init, bind, lift. rewrite Hrun. unfold ret, alloc.
  set (w1 := set_heap (heap w ++ [ODict []]) w).
  assert (H1 : heap w1 !! length (heap w) = Some (ODict [])).
  { simpl. now rewrite lookup_app_r, Nat.sub_diag by lia. }
  unfold save_to_file, bind at 1, count_cols, bind at 1, isinstance_dict.
  cbn [data]. rewrite (is_dict_at _ _ w1 H1).
  unfold bind at 1. rewrite (dict_items_at _ _ w1 H1). unfold ret.
  unfold bind at 1, header. cbn [lift ret Nat.ltb Nat.leb].
  unfold bind. cbn [data]. rewrite (is_dict_at _ _ w1 H1), (dict_items_at _ _ w1 H1).
  reflexivity.
Qed.

(** ** Export: what it leaves unchanged, and scalar payloads *)

Lemma preserved_refl (w : world) : preserved w w.
Proof. intros a o H. exact H. Qed.

Lemma preserved_trans (w1 w2 w3 : world) :
  preserved w1 w2 -> preserved w2 w3 -> preserved w1 w3.
Proof. unfold preserved. auto. Qed.

Lemma number_or_array_preserved (w w' : world) (v : value) :
  preserved w w' -> number_or_array w v = true -> number_or_array w' v = true.
Proof.
  intros Hp. destruct v as [| | | | |a]; simpl; auto.
  destruct (heap w !! a) as [[s b|items]|] eqn:Ha; try discriminate.
  now rewrite (Hp a _ Ha).
Qed.

Lemma number_or_array_not_dict (w : world) (v : value) :
  number_or_array w v = true -> is_dict v w = false.
Proof.
  destruct v as [| | | | |a]; simpl; auto.
  destruct (heap w !! a) as [[s b|items]|]; auto; discriminate.
Qed.

(** The conversion of a number or an array keeps every object. *)
Lemma convert_unit_preserved (w : world) (v : value) (src dst : list string) :
  is_dict v w = false -> preserved w (fst (convert_unit v src dst w)).
Proof.
  intros Hv a o. apply (kept_convert_unit a o v src dst w). now left.
Qed.

Lemma savetxt_converted_preserved (self : Sim_data) (f : string) (v : value) (h : string)
    (w : world) :
  is_dict v w = false -> preserved w (fst (savetxt_converted self f v h w)).
Proof.
  intros Hv. pose proof (convert_unit_preserved w v (units self) (output_units self) Hv) as Hc.
  unfold savetxt_converted, bind.
  destruct (convert_unit v (units self) (output_units self) w) as [w1 [e|y]]; simpl in *;
    [exact Hc|].
  pose proof (stable_snap _ (@eq_refl world) y w1) as Hs.
  destruct (snap y w1) as [w2 [e|X]]; simpl in *; subst w2; [exact Hc|].
  unfold savetxt, bind, emit.
  destruct ((snapshot_ndim X =? 1)%nat || (snapshot_ndim X =? 2)%nat); exact Hc.
Qed.

Lemma for_each_invariant {A} (I : world -> Prop) (l : list A) (body : A -> M unit) :
  (forall a w, I w -> I (fst (body a w))) ->
  forall w, I w -> I (fst (for_each l body w)).
Proof.
  intros Hb. induction l as [|a l IH]; intros w Hw; simpl; [exact Hw|].
  unfold bind. specialize (Hb a w Hw).
  destruct (body a w) as [w1 [e|[]]]; simpl in *; [exact Hb|]. now apply IH.
Qed.

Lemma dict_get_In (items : list (key * value)) (k : key) (v : value) :
  dict_get items k = Some v -> exists k', In (k', v) items.
Proof.
  induction items as [|[k0 v0] items IH]; simpl; [discriminate|].
  destruct (key_eqb k0 k).
  - intros H. injection H as ->. eauto.
  - intros H. destruct (IH H) as [k' Hk']. eauto.
Qed.

(** X10: an export changes no object of the heap, whether it returns or
    fails part way: the payload (anything but a dict, or a dict of numbers
    and arrays) is as it was, since each entry is converted on a copy. *)
Theorem save_to_file_keeps_payload (self : Sim_data) (data_dir : string) (w : world) :
  payload_ok self w ->
  preserved w (fst (save_to_file self data_dir w)).
Proof.
  intros Hok. unfold save_to_file, bind at 1.
  rewrite (reads_run _ w (reads_count_cols self)).
  destruct (snd (count_cols self w)) as [e|cols]; [apply preserved_refl|].
  unfold bind at 1. rewrite lift_run.
  destruct (header self cols) as [e|h]; [apply preserved_refl|].
  unfold bind at 1, isinstance_dict.
  destruct Hok as [Hv|(a & items & Hd & Ha & Hitems)].
  - rewrite Hv. now apply savetxt_converted_preserved.
  - rewrite Hd, (is_dict_at a items w Ha).
    unfold bind at 1. rewrite (dict_items_at a items w Ha).
    apply (for_each_invariant (preserved w)); [|apply preserved_refl].
    intros i w1 Hw1. unfold bind at 1.
    rewrite (reads_run _ w1 (stable_dict_getitem _ (@eq_refl world) (@eq_trans world) _ i)).
    unfold dict_getitem, bind. rewrite (dict_items_at a items w1 (Hw1 a _ Ha)).
    destruct (dict_get items i) as [v|] eqn:Hv; simpl; [|exact Hw1].
    apply (preserved_trans w w1); [exact Hw1|].
    apply savetxt_converted_preserved.
    apply number_or_array_not_dict. apply (number_or_array_preserved w w1 v Hw1).
    destruct (dict_get_In items i v Hv) as [k' Hin].
    rewrite forallb_forall in Hitems. apply (Hitems (k', v) Hin).
Qed.

Lemma save_to_file_keeps_payload_witness :
  preserved PathExample.keyed
    (fst (save_to_file (PathExample.gyro (VRef 1)) "out" PathExample.keyed)).
Proof.
  apply (save_to_file_keeps_payload (PathExample.gyro (VRef 1)) "out" PathExample.keyed).
  right. exists 1%nat, [(KInt 0, VRef 0%nat)]. repeat split; reflexivity.
Defined.

(** X11: a numpy scalar payload cannot be exported.  For output units
    that are not empty and not more than the units, the export makes one
    call to the serializer, for the file of a payload without keys, with
    the name and the first output unit as header and with the scalar
    multiplied by the scale of the first pair of units (zero when the
    output units are the units); numpy's savetxt takes arrays of one or
    two dimensions only, so the call raises ValueError and so does the
    export. *)
Theorem export_of_numpy_scalar (self : Sim_data) (data_dir : string) (f : float)
    (w : world) :
  data self = VNpFloat f ->
  (length (output_units self) <= length (units self))%nat ->
  output_units self <> [] ->
  save_to_file self data_dir w
  = (World (heap w)
       (trace w ++ [Savetxt (bare_path data_dir (name self))
                      (SVal (VNpFloat (f * first_scale (units self) (output_units self))))
                      (name self ++ str_unit self 0)%string "," EmptyString]),
     inl (ValueError "Expected 1D or 2D array, got 0D array instead"))
  /\ (output_units self = units self ->
      first_scale (units self) (output_units self) = 0%float).
Proof.
  intros Hd Hle Hne. split.
  - destruct (unit_conversion_scale_first _ _ Hle Hne) as (scale & Hrun & H0).
    unfold save_to_file, count_cols, bind, isinstance_dict, isinstance_ndarray.
    rewrite Hd. cbn [is_dict is_ndarray ret header Nat.ltb Nat.leb lift].
    unfold savetxt_converted, convert_unit, bind. rewrite Hrun. cbn [lift ret].
    unfold copy, isinstance_dict, ret. cbn [is_dict].
    unfold convert_unit_ndarray_scalar, bind, of_option. rewrite H0. reflexivity.
  - intros ->. unfold first_scale, column_scale.
    destruct (units self !! 0%nat); [|reflexivity]. now rewrite scale_entry_same.
Qed.

Lemma export_of_numpy_scalar_witness :
  save_to_file (PlotExample.series "g" ["m/s^2"]%string ["m/s^2"]%string (VNpFloat 9.5))
    "out" w0
  = (World []
       [Savetxt "out//g.csv"
          (SVal (VNpFloat (9.5 * first_scale ["m/s^2"]%string ["m/s^2"]%string)))
          "g (m/s^2)" "," EmptyString],
     inl (ValueError "Expected 1D or 2D array, got 0D array instead")).
Proof.
  apply (export_of_numpy_scalar
           (PlotExample.series "g" ["m/s^2"]%string ["m/s^2"]%string (VNpFloat 9.5))
           "out" 9.5 w0).
  - reflexivity.
  - simpl. lia.
  - discriminate.
Defined.

(** X12: a payload that is a plain Python float cannot be exported: the
    float has no [copy] (and as the first entry of a keyed payload no
    [ndim]), so the export raises AttributeError and calls the serializer
    for no file. *)
Theorem export_of_python_float (self : Sim_data) (data_dir : string) (f : float)
    (w : world) :
  (length (output_units self) <= length (units self))%nat ->
  (data self = VFloat f -> save_to_file self data_dir w = (w, inl AttributeError))
  /\ (forall (a : nat) (k : key) (items : list (key * value)),
        data self = VRef a -> heap w !! a = Some (ODict ((k, VFloat f) :: items)) ->
        save_to_file self data_dir w = (w, inl AttributeError)).
Proof.
  intros Hle. split.
  - intros Hd.
    destruct (unit_conversion_scale_lookup _ _ Hle) as (scale & Hrun & _).
    unfold save_to_file, count_cols, bind, isinstance_dict, isinstance_ndarray.
    rewrite Hd. cbn [is_dict is_ndarray ret header Nat.ltb Nat.leb lift].
    unfold savetxt_converted, convert_unit, bind. rewrite Hrun. reflexivity.
  - intros a k items Hd Ha.
    unfold save_to_file, bind at 1, count_cols, bind at 1, isinstance_dict.
    rewrite Hd, (is_dict_at a _ w Ha).
    unfold bind at 1. rewrite (dict_items_at a _ w Ha). unfold ret.
    unfold bind at 1, dict_getitem, bind at 1. rewrite (dict_items_at a _ w Ha).
    cbn [dict_get]. replace (key_eqb k k) with true by (symmetry; now apply key_eqb_eq).
    reflexivity.
Qed.

Lemma export_of_python_float_witness :
  save_to_file (PlotExample.series "g" ["m/s^2"]%string ["m/s^2"]%string (VFloat 9.5))
    "out" w0
  = (w0, inl AttributeError).
Proof.
  apply (export_of_python_float
           (PlotExample.series "g" ["m/s^2"]%string ["m/s^2"]%string (VFloat 9.5))
           "out" 9.5 w0).
  - simpl. lia.
  - reflexivity.
Defined.

Lemma silent_add_data_store (self : Sim_data) (d : value) (key : option key) :
  silent (add_data_store self d key).
Proof.
  unfold add_data_store. destruct key; silent_tac; apply silent_dict_setitem.
Qed.

Lemma silent_init (nm descr : string) (u o : option (list string)) (pl lx ly : bool)
    (g : string) (lg : option (list string)) :
  silent (init nm descr u o pl lx ly g lg).
Proof. unfold init. silent_tac. Qed.

(** X13: constructing a data set and writing data to it call neither
    the serializer nor the plotting library, whether they return or raise:
    the trace of calls is as it was. *)
Theorem write_calls_no_collaborator (self : Sim_data) (d : value) (key : option key)
    (caller_units : option (list string)) (nm descr : string)
    (u o : option (list string)) (pl lx ly : bool) (g : string)
    (lg : option (list string)) (w : world) :
  trace (fst (add_data self d key caller_units w)) = trace w
  /\ trace (fst (init nm descr u o pl lx ly g lg w)) = trace w.
Proof.
  split.
  - assert (H : silent (add_data self d key caller_units)).
    { unfold add_data, add_data_units.
      silent_tac; first [apply silent_convert_unit|apply silent_add_data_store]. }
    apply H.
  - apply silent_init.
Qed.

(** ** The drawing helpers *)

Lemma get_shape_run (a : nat) (shape : list nat) (buf : list float) (w : world) :
  heap w !! a = Some (ONdarray shape buf) -> get_shape (VRef a) w = (w, inr shape).
Proof. intros Ha. unfold get_shape, bind. now rewrite (deref_at a _ w Ha). Qed.


Lemma snap_run (a : nat) (o : hobj) (w : world) :
  heap w !! a = Some o -> snap (VRef a) w = (w, inr (SObj o)).
Proof. intros Ha. unfold snap. now rewrite Ha. Qed.





Lemma bind_ok {A B} (m : M A) (k : A -> M B) (w w1 : world) (a : A) :
  m w = (w1, inr a) -> bind m k w = k a w1.
Proof. intros H. unfold bind. now rewrite H. Qed.

















(** ** Plots: missing keys and references of another shape *)

Lemma plot_dict_run (self x : Sim_data) (keys : list key) (ref : option Sim_data)
    (plot3d : Z) (extra_opt : string) (a : nat) (items : list (key * value)) (w : world) :
  plottable self = true -> data self = VRef a -> heap w !! a = Some (ODict items) ->
  keys <> [] ->
  plot self x (Some keys) ref plot3d extra_opt w
  = for_each keys (plot_key self x ref plot3d extra_opt) w.
Proof.
  intros Hp Hd Ha Hk. unfold plot, bind, isinstance_dict.
  rewrite Hp, Hd, (is_dict_at a items w Ha). unfold __plot_dict, bind.
  destruct keys; [congruence|reflexivity].
Qed.

(** X16: a plot of a keyed payload that names a key the payload does not
    have raises KeyError at that key, before anything is drawn for it; so
    does a key that the keyed x data (when it is not empty) or the keyed
    reference does not have. *)
Theorem plot_missing_key (self x : Sim_data) (ref : option Sim_data) (plot3d : Z)
    (extra_opt : string) (i : key) (rest : list key) (a : nat)
    (items : list (key * value)) (w : world) :
  plottable self = true -> data self = VRef a -> heap w !! a = Some (ODict items) ->
  (dict_get items i = None ->
   plot self x (Some (i :: rest)) ref plot3d extra_opt w = (w, inl KeyError))
  /\ (forall (b : nat) (xitems : list (key * value)),
        is_Some (dict_get items i) ->
        data x = VRef b -> heap w !! b = Some (ODict xitems) -> xitems <> [] ->
        dict_get xitems i = None ->
        plot self x (Some (i :: rest)) ref plot3d extra_opt w = (w, inl KeyError))
  /\ (forall (r : Sim_data) (b : nat) (ritems : list (key * value)),
        is_Some (dict_get items i) -> is_dict (data x) w = false ->
        ref = Some r ->
        data r = VRef b -> heap w !! b = Some (ODict ritems) ->
        dict_get ritems i = None ->
        plot self x (Some (i :: rest)) ref plot3d extra_opt w = (w, inl KeyError)).
Proof.
  intros Hp Hd Ha.
  assert (Hrun : plot self x (Some (i :: rest)) ref plot3d extra_opt w
                 = for_each (i :: rest) (plot_key self x ref plot3d extra_opt) w).
  { apply (plot_dict_run self x (i :: rest) ref plot3d extra_opt a items w Hp Hd Ha).
    discriminate. }
  rewrite Hrun. clear Hrun.
  split; [|split].
  - intros Hi. cbn [for_each].
    unfold bind at 1, plot_key, bind at 1, dict_getitem, bind at 1.
    rewrite Hd, (dict_items_at a items w Ha). now rewrite Hi.
  - intros b xitems [v Hv] Hx Hb Hne Hxi. cbn [for_each].
    unfold bind at 1, plot_key, bind at 1, dict_getitem at 1, bind at 1.
    rewrite Hd, (dict_items_at a items w Ha).
    rewrite Hv. cbn [of_option ret].
    unfold bind at 1, x_data_key, bind at 1, isinstance_dict.
    rewrite Hx, (is_dict_at b xitems w Hb).
    unfold bind at 1. rewrite (dict_items_at b xitems w Hb).
    destruct xitems as [|kv xitems]; [congruence|].
    unfold dict_getitem, bind at 1. rewrite (dict_items_at b _ w Hb).
    now rewrite Hxi.
  - intros r b ritems [v Hv] Hx -> Hr Hb Hri. cbn [for_each].
    unfold bind at 1, plot_key, bind at 1, dict_getitem at 1, bind at 1.
    rewrite Hd, (dict_items_at a items w Ha).
    rewrite Hv. cbn [of_option ret].
    unfold bind at 1, x_data_key, bind at 1, isinstance_dict. rewrite Hx.
    unfold ret. unfold bind at 1, bind at 1, ref_data_key, bind at 1, isinstance_dict.
    rewrite Hr, (is_dict_at b ritems w Hb).
    unfold dict_getitem, bind at 1. rewrite (dict_items_at b ritems w Hb).
    now rewrite Hri.
Qed.

Lemma plot_missing_key_witness :
  plot (PlotExample.series "att" rad3 rad3 (VRef 3)) PlotExample.time (Some [KInt 7])
    None 0 EmptyString PlotExample.world_att
  = (PlotExample.world_att, inl KeyError).
Proof.
  apply (proj1 (plot_missing_key (PlotExample.series "att" rad3 rad3 (VRef 3))
                  PlotExample.time None 0 EmptyString (KInt 7) [] 3
                  [(KInt 0, VRef 0%nat)] PlotExample.world_att eq_refl eq_refl eq_refl)).
  reflexivity.
Defined.

Lemma np_sub_no_broadcast (a b : nat) (s1 s2 : list nat) (buf1 buf2 : list float)
    (w : world) :
  heap w !! a = Some (ONdarray s1 buf1) -> heap w !! b = Some (ONdarray s2 buf2) ->
  Np.broadcast_rev (rev s1) (rev s2) = None ->
  exists msg, Np.sub (VRef a) (VRef b) w = (w, inl (ValueError msg)).
Proof.
  intros Ha Hb Hn. unfold Np.sub, bind.
  rewrite (operand_of_array a _ _ w Ha), (operand_of_array b _ _ w Hb).
  unfold Np.as_array, ret. cbn [fst snd]. unfold Np.broadcast2. rewrite Hn.
  eexists. reflexivity.
Qed.

(** X17: when the reference array cannot be broadcast against the data,
    the subtraction fails and the except clause runs.  For an entry of a
    keyed payload the plot raises ValueError with the message to check
    the dimensions of the reference; for a payload without keys the
    except clause reads the shape of the reference data set, which has
    none, and the plot raises AttributeError instead.  Nothing is drawn. *)
Theorem plot_reference_shape_mismatch (self x r : Sim_data) (plot3d : Z)
    (extra_opt : string) (a b : nat) (s1 s2 : list nat) (buf1 buf2 : list float)
    (w : world) :
  heap w !! a = Some (ONdarray s1 buf1) -> heap w !! b = Some (ONdarray s2 buf2) ->
  Np.broadcast_rev (rev s1) (rev s2) = None ->
  (forall (key : option (list key)) (x_data : value),
      plottable self = true -> data self = VRef a -> data r = VRef b ->
      snd (x_data_any x w) = inr x_data ->
      plot self x key (Some r) plot3d extra_opt w = (w, inl AttributeError))
  /\ (forall (i : key) (x_data : value),
        dict_getitem (data self) i w = (w, inr (VRef a)) ->
        ref_data_key r i w = (w, inr (VRef b)) ->
        snd (x_data_key x i w) = inr x_data ->
        plot_key self x (Some r) plot3d extra_opt i w = (w, inl check_input_ref)).
Proof.
  intros Ha Hb Hn.
  destruct (np_sub_no_broadcast a b s1 s2 buf1 buf2 w Ha Hb Hn) as [msg Hsub].
  split.
  - intros key x_data Hp Hd Hr Hx.
    unfold plot, bind at 1, isinstance_dict. rewrite Hp, Hd, (is_dict_array a _ _ w Ha).
    unfold __plot_array, bind at 1. rewrite (reads_run _ w (reads_x_data_any x)), Hx.
    unfold bind at 1. rewrite Hd, Hr.
    unfold subtract_ref, bind at 1, try_except at 1. rewrite Hsub. reflexivity.
  - intros i x_data Hy Href Hx.
    unfold plot_key, bind at 1. rewrite Hy.
    unfold bind at 1. rewrite (reads_run _ w (reads_x_data_key x i)), Hx.
    unfold bind at 1, bind at 1. rewrite Href.
    unfold subtract_ref, bind at 1, try_except at 1. rewrite Hsub.
    unfold handler_dict, bind at 1. rewrite (get_shape_run b _ _ w Hb).
    unfold bind at 1. rewrite (get_shape_run a _ _ w Ha). reflexivity.
Qed.

Lemma plot_reference_shape_mismatch_witness :
  plot (PlotExample.series "att" rad3 rad3 (VRef 0)) PlotExample.time None
    (Some (PlotExample.series "ref" rad3 rad3 (VRef 2))) 0 EmptyString
    PlotExample.world_att
  = (PlotExample.world_att, inl AttributeError).
Proof.
  apply (proj1 (plot_reference_shape_mismatch
                  (PlotExample.series "att" rad3 rad3 (VRef 0)) PlotExample.time
                  (PlotExample.series "ref" rad3 rad3 (VRef 2)) 0 EmptyString
                  0 2 [2; 3]%nat [2]%nat [3; 0; 0; 1; 1; 1]%float [0; 1]%float
                  PlotExample.world_att eq_refl eq_refl eq_refl) None (VRef 2));
    reflexivity.
Defined.

(** ** Plots: what they leave unchanged *)

Lemma same_heap_refl (w : world) : same_heap w w.
Proof. reflexivity. Qed.

Lemma same_heap_trans (w1 w2 w3 : world) :
  same_heap w1 w2 -> same_heap w2 w3 -> same_heap w1 w3.
Proof. unfold same_heap. congruence. Qed.

Lemma draws_emit (e : event) : draws (emit e).
Proof. intros w. reflexivity. Qed.

Ltac draws_tac :=
  unfold draws;
  repeat first
    [ stable_step same_heap_refl same_heap_trans
    | apply draws_emit ].

Lemma draws_get_column (y : value) (i : nat) : draws (Np.get_column y i).
Proof. unfold Np.get_column. draws_tac. Qed.

Lemma draws_plot_in_one_figure (x y : value) (logx logy : bool) (title : string)
    (xlabel ylabel : option string) (grid : string) (legend : option (list string))
    (extra_opt : string) :
  draws (plot_in_one_figure x y logx logy title xlabel ylabel grid legend extra_opt).
Proof. unfold plot_in_one_figure. draws_tac; apply draws_get_column. Qed.

Lemma draws_plot3d_in_one_figure (y : value) (title grid : string)
    (legend : option (list string)) (extra_opt : string) :
  draws (plot3d_in_one_figure y title grid legend extra_opt).
Proof. unfold plot3d_in_one_figure, label_at. draws_tac; apply draws_get_column. Qed.

Lemma draws_plot3d_proj_in_one_figure (y : value) (title grid : string)
    (legend : option (list string)) (extra_opt : string) :
  draws (plot3d_proj_in_one_figure y title grid legend extra_opt).
Proof.
  unfold plot3d_proj_in_one_figure, panel, label_at. draws_tac; apply draws_get_column.
Qed.

Lemma draws_dispatch (self x : Sim_data) (x_data y_data : value) (title : string)
    (plot3d : Z) (extra_opt : string) :
  draws (dispatch self x x_data y_data title plot3d extra_opt).
Proof.
  unfold dispatch. draws_tac.
  - apply draws_plot3d_in_one_figure.
  - apply draws_plot3d_proj_in_one_figure.
  - apply draws_plot_in_one_figure.
Qed.

Lemma reads_ref_data_key (r : Sim_data) (i : key) : reads (ref_data_key r i).
Proof. unfold ref_data_key. reads_tac. Qed.

Lemma preserved_alloc (o : hobj) (w : world) : preserved w (set_heap (heap w ++ [o]) w).
Proof. intros a o' Ha. simpl. now apply lookup_app_l_Some. Qed.

Lemma np_result_cases (shape : list nat) (buf : list float) (w : world) :
  (exists f, Np.np_result shape buf w = (w, inr (VNpFloat f)))
  \/ Np.np_result shape buf w
     = (set_heap (heap w ++ [ONdarray shape buf]) w, inr (VRef (length (heap w)))).
Proof.
  unfold Np.np_result. destruct shape; [|now right].
  destruct buf as [|f [|g buf]]; [now right|left; now exists f|now right].
Qed.


Lemma np_result_outcome (shape : list nat) (buf : list float) (w : world) :
  number_or_new_array w (Np.np_result shape buf w).
Proof.
  destruct (np_result_cases shape buf w) as [[f ->]| ->].
  - left. split; reflexivity.
  - right. now eexists _, _.
Qed.

Lemma outcome_raise (e : exn) (w : world) : number_or_new_array w (w, inl e).
Proof. left. now split. Qed.

Lemma outcome_number (v : value) (w : world) :
  is_number v = true -> number_or_new_array w (w, inr v).
Proof. intros Hv. left. now split. Qed.

Lemma operand_of_run (v : value) (w : world) :
  Np.operand_of v w = (w, snd (Np.operand_of v w)).
Proof.
  apply reads_run. unfold Np.operand_of. reads_tac.
Qed.

Lemma float_of_int_run (z : Z) (w : world) :
  Np.float_of_int z w = (w, snd (Np.float_of_int z w)).
Proof. apply reads_run. unfold Np.float_of_int. reads_tac. Qed.

Lemma as_array_run (o : Np.operand) (w : world) :
  Np.as_array o w = (w, snd (Np.as_array o w)).
Proof.
  apply reads_run. unfold Np.as_array, Np.float_of_int. destruct o; reads_tac.
Qed.

Lemma np_sub_outcome (a b : value) (w : world) : number_or_new_array w (Np.sub a b w).
Proof.
  unfold Np.sub, bind at 1. rewrite operand_of_run.
  destruct (snd (Np.operand_of a w)) as [e|oa]; [apply outcome_raise|].
  unfold bind at 1. rewrite operand_of_run.
  destruct (snd (Np.operand_of b w)) as [e|ob]; [apply outcome_raise|].
  assert (Harr : number_or_new_array w
            ((xa <- Np.as_array oa ;;
              xb <- Np.as_array ob ;;
              match Np.broadcast2 PrimFloat.sub (fst xa) (snd xa) (fst xb) (snd xb) with
              | Some r => Np.np_result (fst r) (snd r)
              | None => raise (ValueError "operands could not be broadcast together")
              end) w)).
  { unfold bind at 1. rewrite as_array_run.
    destruct (snd (Np.as_array oa w)) as [e|xa]; [apply outcome_raise|].
    unfold bind at 1. rewrite as_array_run.
    destruct (snd (Np.as_array ob w)) as [e|xb]; [apply outcome_raise|].
    destruct (Np.broadcast2 _ _ _ _ _); [apply np_result_outcome|apply outcome_raise]. }
  destruct oa, ob; try exact Harr; try apply outcome_raise.
  - now apply outcome_number.
  - unfold bind. rewrite float_of_int_run.
    destruct (snd (Np.float_of_int z w)); [apply outcome_raise|now apply outcome_number].
  - unfold bind. rewrite float_of_int_run.
    destruct (snd (Np.float_of_int z w)); [apply outcome_raise|now apply outcome_number].
  - now apply outcome_number.
Qed.

Lemma np_mod_outcome (a : value) (m : float) (w : world) :
  number_or_new_array w (Np.mod_float a m w).
Proof.
  unfold Np.mod_float, bind at 1. rewrite operand_of_run.
  destruct (snd (Np.operand_of a w)) as [e|oa]; [apply outcome_raise|].
  destruct oa; try apply outcome_raise; try (now apply outcome_number).
  - unfold bind. rewrite float_of_int_run.
    destruct (snd (Np.float_of_int z w)); [apply outcome_raise|now apply outcome_number].
  - apply np_result_outcome.
Qed.

Lemma always_raises_handler_array : always_raises handler_array.
Proof. intros v w. now eexists. Qed.

Lemma always_raises_handler_dict (ref_data : value) :
  always_raises (handler_dict ref_data).
Proof.
  intros v w. unfold handler_dict, bind.
  rewrite (reads_run _ w (stable_get_shape _ (@eq_refl world) (@eq_trans world) ref_data)).
  destruct (snd (get_shape ref_data w)); [now eexists|].
  rewrite (reads_run _ w (stable_get_shape _ (@eq_refl world) (@eq_trans world) v)).
  destruct (snd (get_shape v w)); now eexists.
Qed.

Lemma is_number_not_dict (v : value) (w : world) : is_number v = true -> is_dict v w = false.
Proof. destruct v; simpl; auto; discriminate. Qed.

(** Lines 220-223, from any value [y1]. *)
Lemma wrap_frame (y1 : value) (handler : value -> M value) (w : world) :
  always_raises handler ->
  frame_ok w
    ((y2 <- try_except (Np.mod_float y1 TWO_PI) (handler y1) ;;
      try_except (Np.reduce_above y2 math_pi TWO_PI ;;; ret y2) (handler y2)) w).
Proof.
  intros Hh. unfold bind at 1, try_except at 1.
  destruct (np_mod_outcome y1 TWO_PI w) as [[Hw Hr]|(s & b & Hrun)].
  - destruct (Np.mod_float y1 TWO_PI w) as [w1 [e|y2]]; simpl in Hw, Hr; subst w1.
    + destruct (Hh y1 w) as [e' ->]. split; [apply preserved_refl|discriminate].
    + unfold try_except, bind.
      destruct y2; try discriminate Hr; simpl;
        match goal with |- context [handler ?v w] => destruct (Hh v w) as [e' ->] end;
        (split; [apply preserved_refl|discriminate]).
  - rewrite Hrun. unfold try_except, bind, Np.reduce_above, bind.
    set (w1 := set_heap (heap w ++ [ONdarray s b]) w).
    assert (H1 : heap w1 !! length (heap w) = Some (ONdarray s b)).
    { simpl. now rewrite lookup_app_r, Nat.sub_diag by lia. }
    rewrite (deref_at _ _ w1 H1). unfold store, ret. cbn [fst snd].
    split.
    + intros a o Ha. simpl.
      assert (a < length (heap w))%nat by (eapply lookup_lt_Some; eassumption).
      rewrite list_lookup_insert_ne by lia. now apply lookup_app_l_Some.
    + intros v Hv. injection Hv as <-. unfold is_dict. simpl.
      rewrite insert_app_r_alt, Nat.sub_diag by lia. simpl.
      now rewrite lookup_app_r, Nat.sub_diag by lia.
Qed.

Lemma frame_ok_trans (w0 w1 : world) (r : world * (exn + value)) :
  preserved w0 w1 -> frame_ok w1 r -> frame_ok w0 r.
Proof.
  intros H01 [Hp Hv]. split; [|exact Hv]. eapply preserved_trans; eassumption.
Qed.

Lemma subtract_ref_frame (self : Sim_data) (y_data ref_data : value)
    (handler : value -> M value) (w : world) :
  always_raises handler ->
  frame_ok w (subtract_ref self y_data ref_data handler w).
Proof.
  intros Hh. unfold subtract_ref, bind at 1, try_except at 1.
  destruct (np_sub_outcome y_data ref_data w) as [[Hw Hr]|(s & b & Hrun)].
  - destruct (Np.sub y_data ref_data w) as [w1 [e|y1]]; simpl in Hw, Hr; subst w1.
    + destruct (Hh y_data w) as [e' ->]. split; [apply preserved_refl|discriminate].
    + destruct (list_eqb (units self) rad3).
      * now apply wrap_frame.
      * split; [apply preserved_refl|]. intros v Hv. injection Hv as <-.
        now apply is_number_not_dict.
  - rewrite Hrun. set (w1 := set_heap (heap w ++ [ONdarray s b]) w).
    destruct (list_eqb (units self) rad3).
    + apply (frame_ok_trans w w1); [apply preserved_alloc|]. now apply wrap_frame.
    + split; [apply preserved_alloc|]. intros v Hv. injection Hv as <-.
      unfold is_dict. simpl. now rewrite lookup_app_r, Nat.sub_diag by lia.
Qed.

Lemma preserved_draws {A} (m : M A) (w0 w : world) :
  draws m -> preserved w0 w -> preserved w0 (fst (m w)).
Proof. intros Hm Hp a o Ha. rewrite (Hm w). now apply Hp. Qed.

(** The end of a plot: the conversion and the drawing. *)
Lemma convert_and_draw_frame (self x : Sim_data) (x_data y_data : value) (title : string)
    (plot3d : Z) (extra_opt : string) (w : world) :
  is_dict y_data w = false ->
  preserved w
    (fst ((y <- convert_unit y_data (units self) (output_units self) ;;
           dispatch self x x_data y title plot3d extra_opt) w)).
Proof.
  intros Hy. pose proof (convert_unit_preserved w y_data (units self) (output_units self) Hy)
    as Hc.
  unfold bind.
  destruct (convert_unit y_data (units self) (output_units self) w) as [w1 [e|y]];
    simpl in *; [exact Hc|].
  apply preserved_draws; [apply draws_dispatch|exact Hc].
Qed.

Lemma plot_array_frame (self x : Sim_data) (ref : option Sim_data) (plot3d : Z)
    (extra_opt : string) (w : world) :
  is_dict (data self) w = false ->
  preserved w (fst (__plot_array self x ref plot3d extra_opt w)).
Proof.
  intros Hd. unfold __plot_array, bind at 1.
  rewrite (reads_run _ w (reads_x_data_any x)).
  destruct (snd (x_data_any x w)) as [e|x_data]; [apply preserved_refl|].
  unfold bind at 1. destruct ref as [r|].
  - destruct (subtract_ref_frame self (data self) (data r) handler_array w
                always_raises_handler_array) as [Hp Hv].
    destruct (subtract_ref self (data self) (data r) handler_array w) as [w1 [e|y]];
      simpl in *; [exact Hp|].
    apply (preserved_trans w w1); [exact Hp|].
    apply convert_and_draw_frame. now apply Hv.
  - unfold ret. now apply convert_and_draw_frame.
Qed.

Lemma plot_key_frame (self x : Sim_data) (ref : option Sim_data) (plot3d : Z)
    (extra_opt : string) (i : key) (a : nat) (items : list (key * value)) (w : world) :
  data self = VRef a -> heap w !! a = Some (ODict items) ->
  forallb (fun kv => number_or_array w (snd kv)) items = true ->
  preserved w (fst (plot_key self x ref plot3d extra_opt i w)).
Proof.
  intros Hd Ha Hitems. unfold plot_key, bind at 1, dict_getitem, bind at 1.
  rewrite Hd, (dict_items_at a items w Ha).
  destruct (dict_get items i) as [v|] eqn:Hv; [|apply preserved_refl]. cbn [of_option ret].
  assert (Hvd : is_dict v w = false).
  { apply number_or_array_not_dict.
    destruct (dict_get_In items i v Hv) as [k' Hin].
    rewrite forallb_forall in Hitems. apply (Hitems (k', v) Hin). }
  unfold bind at 1. rewrite (reads_run _ w (reads_x_data_key x i)).
  destruct (snd (x_data_key x i w)) as [e|x_data]; [apply preserved_refl|].
  unfold bind at 1. destruct ref as [r|].
  - unfold bind at 1.
    rewrite (reads_run _ w (reads_ref_data_key r i)).
    destruct (snd (ref_data_key r i w)) as [e|ref_data]; [apply preserved_refl|].
    destruct (subtract_ref_frame self v ref_data (handler_dict ref_data) w
                (always_raises_handler_dict ref_data)) as [Hp Hnd].
    destruct (subtract_ref self v ref_data (handler_dict ref_data) w) as [w1 [e|y]];
      simpl in *; [exact Hp|].
    apply (preserved_trans w w1); [exact Hp|].
    apply convert_and_draw_frame. now apply Hnd.
  - unfold ret. now apply convert_and_draw_frame.
Qed.

(** X18: a plot changes no object of the heap, whether it returns or
    fails part way: the payload (anything but a dict, or a dict of numbers
    and arrays), the x data and the reference are as they were.  The
    difference with the reference, its wrap and the conversion to the
    output units are computed in new arrays. *)
Theorem plot_keeps_payload (self x : Sim_data) (key : option (list key))
    (ref : option Sim_data) (plot3d : Z) (extra_opt : string) (w : world) :
  payload_ok self w ->
  preserved w (fst (plot self x key ref plot3d extra_opt w)).
Proof.
  intros Hok. unfold plot. destruct (plottable self); [|apply preserved_refl].
  unfold bind at 1, isinstance_dict.
  destruct Hok as [Hnd|(a & items & Hd & Ha & Hitems)].
  - rewrite Hnd. now apply plot_array_frame.
  - rewrite Hd, (is_dict_at a items w Ha).
    unfold __plot_dict, bind at 1.
    assert (Hloop : forall keys,
               preserved w (fst (for_each keys (plot_key self x ref plot3d extra_opt) w))).
    { intros keys. apply (for_each_invariant (preserved w)); [|apply preserved_refl].
      intros i w1 Hw1. apply (preserved_trans w w1); [exact Hw1|].
      apply (plot_key_frame self x ref plot3d extra_opt i a items w1 Hd (Hw1 a _ Ha)).
      rewrite forallb_forall in *. intros kv Hin.
      apply (number_or_array_preserved w w1 _ Hw1). now apply Hitems. }
    destruct key as [[|k keys]|].
    + unfold bind at 1. rewrite Hd, (dict_items_at a items w Ha). apply Hloop.
    + apply Hloop.
    + apply preserved_refl.
Qed.

Lemma plot_keeps_payload_witness :
  preserved PlotExample.world_att
    (fst (plot (PlotExample.series "att" rad3 rad3 (VRef 3)) PlotExample.time (Some [])
            (Some (PlotExample.series "ref" rad3 rad3 (VRef 1))) 0 EmptyString
            PlotExample.world_att)).
Proof.
  apply (plot_keeps_payload (PlotExample.series "att" rad3 rad3 (VRef 3)) PlotExample.time
           (Some []) (Some (PlotExample.series "ref" rad3 rad3 (VRef 1))) 0 EmptyString
           PlotExample.world_att).
  right. exists 3%nat, [(KInt 0, VRef 0%nat)]. repeat split; reflexivity.
Defined.

(** ** Export and plot of an array payload, end to end *)

Lemma is_ndarray_at (a : nat) (s : list nat) (buf : list float) (w : world) :
  heap w !! a = Some (ONdarray s buf) -> is_ndarray (VRef a) w = true.
Proof. intros Ha. unfold is_ndarray. now rewrite Ha. Qed.

Lemma count_cols_2d (self : Sim_data) (a rows cols : nat) (buf : list float) (w : world) :
  data self = VRef a -> heap w !! a = Some (ONdarray [rows; cols] buf) ->
  count_cols self w = (w, inr cols).
Proof.
  intros Hd Ha. unfold count_cols, bind at 1, isinstance_dict.
  rewrite Hd, (is_dict_array a _ _ w Ha).
  unfold bind at 1, isinstance_ndarray. rewrite (is_ndarray_at a _ _ w Ha).
  unfold columns_of, get_ndim, get_shape_at.
  rewrite (bind_ok _ _ w w 2%nat);
    [|now rewrite (bind_ok _ _ w w _ (get_shape_run a _ buf w Ha))].
  cbn [Nat.ltb Nat.leb].
  now rewrite (bind_ok _ _ w w _ (get_shape_run a _ buf w Ha)).
Qed.

(** Between units outside the table the elements are as they were. *)
Lemma converted_outside (src_unit dst_unit : list string) (cols : nat) (buf : list float) :
  outside_table src_unit dst_unit -> converted src_unit dst_unit cols buf = buf.
Proof.
  intros Ht. unfold converted. apply imap_same. intros j v _. unfold column_scale.
  destruct (src_unit !! (j mod cols)%nat) as [s|] eqn:Hs; [|reflexivity].
  destruct (dst_unit !! (j mod cols)%nat) as [d|] eqn:Hd; [|reflexivity].
  now rewrite (Forall2_lookup_lr _ _ _ _ _ _ Ht Hs Hd).
Qed.

(** X19: the export of a payload that is a two-dimensional float64 array
    makes one call to the serializer and returns (the serializer taken to
    write its file): the file is the one of a payload without keys, the
    table is a new array, the payload converted column by column from the
    units to the output units, and the header is the titles of the columns
    joined by commas.  When no pair of units is in the table (the output
    units are the units, as by default), the table has the elements of the
    payload. *)
Theorem export_array_table (self : Sim_data) (data_dir : string) (a rows cols : nat)
    (buf : list float) (w : world) :
  data self = VRef a -> heap w !! a = Some (ONdarray [rows; cols] buf) ->
  length buf = (rows * cols)%nat ->
  (length (output_units self) <= length (units self))%nat ->
  save_to_file self data_dir w
  = (World (heap w ++ [ONdarray [rows; cols]
                         (converted (units self) (output_units self) cols buf)])
       (trace w ++ [Savetxt (bare_path data_dir (name self))
                      (SObj (ONdarray [rows; cols]
                               (converted (units self) (output_units self) cols buf)))
                      (header_text self cols) "," EmptyString]),
     inr tt)
  /\ (outside_table (units self) (output_units self) ->
      converted (units self) (output_units self) cols buf = buf).
Proof.
  intros Hd Ha Hlen Hle. split; [|apply converted_outside]. unfold save_to_file.
  rewrite (bind_ok _ _ w w cols (count_cols_2d self a rows cols buf w Hd Ha)).
  rewrite header_run. cbn [lift]. unfold bind at 1, ret.
  unfold bind at 1, isinstance_dict. rewrite Hd, (is_dict_array a _ _ w Ha).
  unfold savetxt_converted.
  rewrite (bind_ok _ _ _ _ _
             (convert_unit_2d_run (units self) (output_units self) w a rows cols buf
                Hle Ha Hlen)).
  fold (converted (units self) (output_units self) cols buf).
  set (w1 := set_heap _ w).
  assert (H1 : heap w1 !! length (heap w)
               = Some (ONdarray [rows; cols]
                         (converted (units self) (output_units self) cols buf))).
  { simpl. now rewrite lookup_app_r, Nat.sub_diag by lia. }
  rewrite (bind_ok _ _ w1 w1 _ (snap_run _ _ w1 H1)). reflexivity.
Qed.

Lemma export_array_table_witness :
  save_to_file (PathExample.gyro (VRef 0)) "out" PathExample.bare
  = (World (heap PathExample.bare
            ++ [ONdarray [2; 3]%nat
                  (converted Scenario.deg_s3 Scenario.rad_s3 3 (replicate 6 1%float))])
       (trace PathExample.bare
        ++ [Savetxt (bare_path "out" "gyro")
              (SObj (ONdarray [2; 3]%nat
                       (converted Scenario.deg_s3 Scenario.rad_s3 3 (replicate 6 1%float))))
              (header_text (PathExample.gyro (VRef 0)) 3) "," EmptyString]),
     inr tt)
  /\ (outside_table Scenario.deg_s3 Scenario.rad_s3 ->
      converted Scenario.deg_s3 Scenario.rad_s3 3 (replicate 6 1%float)
      = replicate 6 1%float).
Proof.
  apply (export_array_table (PathExample.gyro (VRef 0)) "out" 0 2 3 (replicate 6 1%float)
           PathExample.bare).
  - reflexivity.
  - reflexivity.
  - reflexivity.
  - simpl. lia.
Defined.




(** ** Conversion of a keyed payload: the keys *)

(** One step of the loop of lines 325-326 keeps the keys of the dict. *)
Lemma convert_entry_keys (c : nat) (keys : list key) (scale : list float) (i : key)
    (w : world) :
  dict_with_keys c keys w ->
  dict_with_keys c keys
    (fst ((v <- dict_getitem (VRef c) i ;;
           v' <- convert_unit_ndarray_scalar v scale ;;
           dict_setitem (VRef c) i v') w)).
Proof.
  intros Hw. destruct Hw as (items & Hc & Hkeys).
  unfold bind at 1, dict_getitem, bind at 1. rewrite (dict_items_at c items w Hc).
  destruct (dict_get items i) as [v|] eqn:Hv; [|now exists items].
  cbn [of_option ret]. unfold bind at 1.
  pose proof (kept_convert_unit_ndarray_scalar c (ODict items) v scale
                (or_intror eq_refl) w Hc) as Hc1.
  destruct (convert_unit_ndarray_scalar v scale w) as [w1 [e|v']]; simpl in Hc1;
    [now exists items|].
  rewrite (dict_setitem_at c items i v' w1 Hc1). simpl.
  exists (dict_set items i v'). split.
  - apply list_lookup_insert_eq. eapply lookup_lt_Some; eassumption.
  - rewrite dict_set_keys by eauto. exact Hkeys.
Qed.

(** X21: for unit lists that can be converted, convert_unit on a dict
    makes a new dict, which it returns when every entry could be
    converted; whether it returns or fails at an entry, the new dict has
    the keys of the dict given, in the same order, and the dict given
    still has its items. *)
Theorem convert_unit_mapping_keys (src_unit dst_unit : list string) (a : nat)
    (items : list (key * value)) (w : world) :
  (length dst_unit <= length src_unit)%nat ->
  heap w !! a = Some (ODict items) ->
  dict_with_keys (length (heap w)) (map fst items)
    (fst (convert_unit (VRef a) src_unit dst_unit w))
  /\ heap (fst (convert_unit (VRef a) src_unit dst_unit w)) !! a = Some (ODict items)
  /\ (forall v, snd (convert_unit (VRef a) src_unit dst_unit w) = inr v ->
        v = VRef (length (heap w))).
Proof.
  intros Hle Ha.
  destruct (unit_conversion_scale_lookup src_unit dst_unit Hle) as (scale & Hrun & _).
  split; [|split].
  2:{ apply (kept_convert_unit a (ODict items) (VRef a) src_unit dst_unit w); auto. }
  - unfold convert_unit, bind at 1. rewrite Hrun. cbn [lift ret].
    unfold bind at 1, copy, bind at 1. rewrite (deref_at a _ w Ha). unfold alloc.
    set (c := length (heap w)). set (w1 := set_heap (heap w ++ [ODict items]) w).
    assert (H1 : heap w1 !! c = Some (ODict items)).
    { simpl. unfold c. now rewrite lookup_app_r, Nat.sub_diag by lia. }
    unfold bind at 1, isinstance_dict. rewrite (is_dict_at c items w1 H1).
    assert (Hloop : dict_with_keys c (map fst items)
                      (fst (convert_unit_dict (VRef c) scale w1))).
    { unfold convert_unit_dict, bind at 1. rewrite (dict_items_at c items w1 H1).
      apply (for_each_invariant (dict_with_keys c (map fst items))).
      - intros i w2 Hw2. now apply convert_entry_keys.
      - now exists items. }
    unfold bind. destruct (convert_unit_dict (VRef c) scale w1) as [w2 [e|[]]];
      exact Hloop.
  - unfold convert_unit, bind at 1. rewrite Hrun. cbn [lift ret].
    unfold bind at 1, copy, bind at 1. rewrite (deref_at a _ w Ha). unfold alloc.
    set (c := length (heap w)). set (w1 := set_heap (heap w ++ [ODict items]) w).
    assert (H1 : heap w1 !! c = Some (ODict items)).
    { simpl. unfold c. now rewrite lookup_app_r, Nat.sub_diag by lia. }
    unfold bind at 1, isinstance_dict. rewrite (is_dict_at c items w1 H1).
    unfold bind. destruct (convert_unit_dict (VRef c) scale w1) as [w2 [e|[]]];
      simpl; intros v Hv; [discriminate|]. now injection Hv as <-.
Qed.

Lemma convert_unit_mapping_keys_witness :
  dict_with_keys (length (heap PathExample.keyed)) (map fst [(KInt 0, VRef 0%nat)])
    (fst (convert_unit (VRef 1) Scenario.deg_s3 Scenario.rad_s3 PathExample.keyed))
  /\ heap (fst (convert_unit (VRef 1) Scenario.deg_s3 Scenario.rad_s3 PathExample.keyed))
       !! 1%nat = Some (ODict [(KInt 0, VRef 0%nat)])
  /\ (forall v,
        snd (convert_unit (VRef 1) Scenario.deg_s3 Scenario.rad_s3 PathExample.keyed)
        = inr v ->
        v = VRef (length (heap PathExample.keyed))).
Proof.
  apply (convert_unit_mapping_keys Scenario.deg_s3 Scenario.rad_s3 1
           [(KInt 0, VRef 0%nat)] PathExample.keyed).
  - simpl. lia.
  - reflexivity.
Defined.

(** ** Export of a keyed payload, end to end; the table *)

Lemma dict_get_first (k : key) (v : value) (items : list (key * value)) :
  dict_get ((k, v) :: items) k = Some v.
Proof. simpl. now rewrite (proj2 (key_eqb_eq k k) eq_refl). Qed.

Lemma count_cols_keyed (self : Sim_data) (d : nat) (es : list entry) (w : world) :
  data self = VRef d -> heap w !! d = Some (ODict (map entry_item es)) ->
  List.Forall (entry_in w) es ->
  count_cols self w = (w, inr (first_cols es)).
Proof.
  intros Hd Hw Hes. unfold count_cols, bind at 1, isinstance_dict.
  rewrite Hd, (is_dict_at d _ w Hw).
  unfold bind at 1. rewrite (dict_items_at d _ w Hw).
  destruct es as [|e es]; [reflexivity|]. cbn [map entry_item first_cols].
  inversion Hes as [|? ? [Ha Hlen] _]; subst.
  unfold dict_getitem. rewrite (bind_ok _ _ w w (VRef (e_addr e))).
  2:{ rewrite (bind_ok _ _ w w _ (dict_items_at d _ w Hw)).
      change (map entry_item (e :: es)) with ((e_key e, VRef (e_addr e)) :: map entry_item es).
      now rewrite dict_get_first. }
  unfold columns_of, get_ndim, get_shape_at.
  rewrite (bind_ok _ _ w w 2%nat);
    [|now rewrite (bind_ok _ _ w w _ (get_shape_run _ _ _ w Ha))].
  cbn [Nat.ltb Nat.leb].
  now rewrite (bind_ok _ _ w w _ (get_shape_run _ _ _ w Ha)).
Qed.

(** The loop of lines 162-166 over the entries [es]. *)
Lemma save_entries (self : Sim_data) (data_dir h : string) (d : nat)
    (items : list (key * value)) (es : list entry) :
  data self = VRef d ->
  (length (output_units self) <= length (units self))%nat ->
  List.Forall (fun e => dict_get items (e_key e) = Some (VRef (e_addr e))) es ->
  forall w : world,
    heap w !! d = Some (ODict items) ->
    List.Forall (entry_in w) es ->
    for_each (map e_key es)
      (fun i =>
         let file_name := (data_dir ++ "//" ++ name self ++ "-" ++ str_key i ++ ".csv")%string in
         v <- dict_getitem (data self) i ;;
         savetxt_converted self file_name v h) w
    = (World (heap w ++ map (entry_table self) es)
         (trace w ++ map (entry_call self data_dir h) es), inr tt).
Proof.
  intros Hd Hle Hkeys. induction Hkeys as [|e es He _ IH]; intros w Hw Hes.
  - simpl. unfold ret. rewrite !app_nil_r. now destruct w.
  - inversion Hes as [|? ? [Ha Hlen] Hes']; subst.
    cbn [map for_each]. cbv zeta.
    set (tbl := entry_table self e).
    set (w1 := World (heap w ++ [tbl]) (trace w ++ [entry_call self data_dir h e])).
    rewrite (bind_ok _ _ w w1 tt).
    + rewrite IH.
      * unfold w1. cbn [heap trace map]. now rewrite <- !app_assoc.
      * unfold w1. cbn [heap]. now apply lookup_app_l_Some.
      * apply List.Forall_forall. intros e' He'.
        rewrite List.Forall_forall in Hes'. destruct (Hes' e' He') as [Ha' Hlen'].
        split; [|exact Hlen']. unfold w1. cbn [heap]. now apply lookup_app_l_Some.
    + unfold dict_getitem. rewrite Hd.
      rewrite (bind_ok _ _ w w (VRef (e_addr e)));
        [|now rewrite (bind_ok _ _ w w _ (dict_items_at d _ w Hw)), He].
      unfold savetxt_converted.
      rewrite (bind_ok _ _ _ _ _
                 (convert_unit_2d_run (units self) (output_units self) w (e_addr e)
                    (e_rows e) (e_cols e) (e_buf e) Hle Ha Hlen)).
      fold (converted (units self) (output_units self) (e_cols e) (e_buf e)).
      fold (entry_table self e). fold tbl.
      set (w2 := set_heap (heap w ++ [tbl]) w).
      assert (H2 : heap w2 !! length (heap w) = Some tbl).
      { simpl. now rewrite lookup_app_r, Nat.sub_diag by lia. }
      rewrite (bind_ok _ _ w2 w2 _ (snap_run _ _ w2 H2)). reflexivity.
Qed.

(** X22: the export of a keyed payload of two-dimensional float64 arrays
    makes one call to the serializer for each entry, in the order of the
    mapping, and returns (the serializer taken to write its files): each
    table is a new array, the entry converted column by column from the
    units to the output units; every call carries the same header, made
    for the number of columns of the first entry. *)
Theorem export_keyed_tables (self : Sim_data) (data_dir : string) (d : nat)
    (es : list entry) (w : world) :
  data self = VRef d -> heap w !! d = Some (ODict (map entry_item es)) ->
  NoDup (map e_key es) ->
  List.Forall (entry_in w) es ->
  (length (output_units self) <= length (units self))%nat ->
  save_to_file self data_dir w
  = (World (heap w ++ map (entry_table self) es)
       (trace w ++ map (entry_call self data_dir (header_text self (first_cols es))) es),
     inr tt).
Proof.
  intros Hd Hw Hnd Hes Hle. unfold save_to_file.
  rewrite (bind_ok _ _ w w _ (count_cols_keyed self d es w Hd Hw Hes)).
  rewrite header_run. cbn [lift]. unfold bind at 1, ret.
  unfold bind at 1, isinstance_dict. rewrite Hd, (is_dict_at d _ w Hw).
  unfold bind at 1. rewrite (dict_items_at d _ w Hw).
  replace (map fst (map entry_item es)) with (map e_key es)
    by (rewrite map_map; reflexivity).
  rewrite <- Hd.
  apply (save_entries self data_dir _ d (map entry_item es) es Hd Hle); [|exact Hw|exact Hes].
  clear Hw Hes. induction es as [|e es IH]; constructor.
  - apply dict_get_first.
  - inversion Hnd as [|? ? Hnotin Hnd']; subst.
    specialize (IH Hnd'). apply List.Forall_forall. intros e' He'.
    rewrite List.Forall_forall in IH.
    cbn [map entry_item dict_get].
    destruct (key_eqb (e_key e) (e_key e')) eqn:Hk.
    + apply key_eqb_eq in Hk. exfalso. apply Hnotin. rewrite Hk.
      apply list_elem_of_In, in_map, He'.
    + now apply IH.
Qed.

Lemma export_keyed_tables_witness :
  save_to_file (PathExample.gyro (VRef 1)) "out" PathExample.keyed
  = (World (heap PathExample.keyed
            ++ map (entry_table (PathExample.gyro (VRef 1)))
                 [Entry (KInt 0) 0 2 3 (replicate 6 1%float)])
       (trace PathExample.keyed
        ++ map (entry_call (PathExample.gyro (VRef 1)) "out"
                  (header_text (PathExample.gyro (VRef 1))
                     (first_cols [Entry (KInt 0) 0 2 3 (replicate 6 1%float)])))
             [Entry (KInt 0) 0 2 3 (replicate 6 1%float)]),
     inr tt).
Proof.
  apply (export_keyed_tables (PathExample.gyro (VRef 1)) "out" 1
           [Entry (KInt 0) 0 2 3 (replicate 6 1%float)] PathExample.keyed).
  - reflexivity.
  - reflexivity.
  - repeat constructor. intros H. inversion H.
  - repeat constructor.
  - simpl. lia.
Defined.

Section Table.

Local Open Scope string_scope.

(** X23: the table of conversions is symmetric: a pair of units has the
    scale D2R exactly when the opposite pair has the scale 1/D2R, and a
    pair has no entry exactly when the opposite pair has none; so two
    unit lists are outside the table in one direction exactly when they
    are in the other. *)
Theorem conversion_table_symmetric :
  (forall s d : string,
      scale_entry s d = Some D2R <-> scale_entry d s = Some (1.0 / D2R)%float)
  /\ (forall s d : string, scale_entry s d = None <-> scale_entry d s = None)
  /\ (forall A B : list string, outside_table A B <-> outside_table B A).
Proof.
  assert (Hne : D2R <> (1.0 / D2R)%float).
  { intros H. apply (f_equal (fun x => PrimFloat.eqb x D2R)) in H.
    vm_compute in H. discriminate H. }
  assert (Hpair : forall s d : string,
             (scale_entry s d = Some D2R <-> scale_entry d s = Some (1.0 / D2R)%float)
             /\ (scale_entry s d = None <-> scale_entry d s = None)).
  { intros s d. unfold scale_entry.
    destruct (String.eqb_spec s "deg"), (String.eqb_spec s "deg/s"),
      (String.eqb_spec s "rad"), (String.eqb_spec s "rad/s");
      subst; try discriminate;
      destruct (String.eqb_spec d "deg"), (String.eqb_spec d "deg/s"),
        (String.eqb_spec d "rad"), (String.eqb_spec d "rad/s");
      subst; try discriminate; simpl;
      (split; split; intros H; try reflexivity; try discriminate H;
       try (injection H as H; congruence)). }
  split; [|split].
  - intros s d. apply Hpair.
  - intros s d. apply Hpair.
  - assert (Hdir : forall A B, outside_table A B -> outside_table B A).
    { intros A B H. induction H as [|s d A B Hsd _ IH]; constructor; [|exact IH].
      now apply Hpair. }
    intros A B. split; apply Hdir.
Qed.

End Table.
